(** * Step control handle of hivemind's decentralized averaging

    A shallow embedding of [hivemind/averaging/control.py]: the stage
    enumeration, the 18-byte shared scalar block with its fixed-offset
    accessors, the trigger protocol, the timeout computation, the
    pickling hooks and cancellation.

    Python floats are IEEE-754 binary64 values, modelled by the Standard
    Library's [spec_float] at [prec = 53], [emax = 1024].  The shared
    [torch.uint8] tensor is a list of bytes living in a store indexed by
    allocation, so that two handles holding the same reference observe the
    same bytes.  Methods run in a small state-and-exception monad over that
    store.

    The definitions come first; the facts follow: the binary64 codec, the
    rounding of a float subtraction and its monotonicity, the accessors of
    the shared block, and then the properties of the handle itself. *)

From Stdlib Require Import ZArith Lia Bool SpecFloat.
From stdpp Require Import gmap strings list.

Open Scope Z_scope.

(** ** [struct.pack("d", x)] and [struct.unpack("d", b)] *)

Module Binary64.

Definition prec : Z := 53.
Definition emax : Z := 1024.

(** The values a Python float can hold: every [spec_float] that is a
    canonical binary64 number, an infinity, a zero or NaN. *)
Definition is_valid (x : spec_float) : bool := valid_binary prec emax x.

(** Sign bit, 11 exponent bits, 52 fraction bits. *)
Definition join_bits (s : bool) (e m : Z) : Z :=
  (if s then 2 ^ 63 else 0) + e * 2 ^ 52 + m.

Definition bits_of_float (x : spec_float) : Z :=
  match x with
  | S754_zero s => join_bits s 0 0
  | S754_infinity s => join_bits s 2047 0
  | S754_nan => join_bits false 2047 (2 ^ 51)
  | S754_finite s m e =>
      if 2 ^ 52 <=? Z.pos m
      then join_bits s (e + 1075) (Z.pos m - 2 ^ 52)
      else join_bits s 0 (Z.pos m)
  end.

Definition float_of_bits (x : Z) : spec_float :=
  let s := 2 ^ 63 <=? x in
  let ex := (x / 2 ^ 52) mod 2 ^ 11 in
  let mx := x mod 2 ^ 52 in
  if ex =? 0 then
    match mx with
    | Z.pos p => S754_finite s p (-1074)
    | _ => S754_zero s
    end
  else if ex =? 2047 then
    (if mx =? 0 then S754_infinity s else S754_nan)
  else
    match mx + 2 ^ 52 with
    | Z.pos p => S754_finite s p (ex - 1075)
    | _ => S754_nan
    end.

(** Native byte order of the reference platforms: least significant byte
    first. *)
Fixpoint bytes_of_int (n : nat) (x : Z) : list Z :=
  match n with
  | O => []
  | S n' => x mod 256 :: bytes_of_int n' (x / 256)
  end.

Fixpoint int_of_bytes (l : list Z) : Z :=
  match l with
  | [] => 0
  | b :: l' => b + 256 * int_of_bytes l'
  end.

Definition pack_d (x : spec_float) : list Z := bytes_of_int 8 (bits_of_float x).
Definition unpack_d (l : list Z) : spec_float := float_of_bits (int_of_bytes l).

(** Python's comparisons on floats; any comparison with NaN is false. *)
Definition ge (a b : spec_float) : bool :=
  match SFcompare a b with
  | Some (Gt | Eq) => true
  | _ => false
  end.

Definition gt (a b : spec_float) : bool :=
  match SFcompare a b with
  | Some Gt => true
  | _ => false
  end.

Definition le (a b : spec_float) : bool := SFleb a b.

(** [np.isfinite] *)
Definition isfinite (x : spec_float) : bool :=
  match x with
  | S754_nan | S754_infinity _ => false
  | _ => true
  end.

Definition sub (a b : spec_float) : spec_float := SFsub prec emax a b.

(** The builtin [max(a, b)]: the first argument is kept unless the second
    compares strictly greater. *)
Definition max (a b : spec_float) : spec_float := if gt b a then b else a.

Definition zero : spec_float := S754_zero false.

End Binary64.

(** ** Python-level values, exceptions and the process-shared store *)

Inductive exn :=
| AssertionError (msg : string)
| ValueError
| KeyError (key : string)
| TypeError
| InvalidStateError
| CancelledError
| RecursionError
| IndexError
| StructError.

Inductive outcome (A : Type) :=
| Ok (a : A)
| Raise (e : exn).
Arguments Ok {A} a.
Arguments Raise {A} e.

(** The values that travel in a pickled state dictionary.  Futures and
    shared tensors travel by identity. *)
#[warnings="-register-all"]
Inductive PyVal :=
| PyNone
| PyBool (b : bool)
| PyFloat (x : spec_float)
| PyBytes (bs : list Z)
| PyFuture (uid : nat)
| PyTensor (ref : nat)
| PyTuple (items : list PyVal).

Module AveragingStage.

Inductive t :=
| IDLE
| LOOKING_FOR_GROUP
| AWAITING_TRIGGER
| RUNNING_ALLREDUCE
| FINISHED.

Definition value (s : t) : Z :=
  match s with
  | IDLE => 0
  | LOOKING_FOR_GROUP => 1
  | AWAITING_TRIGGER => 2
  | RUNNING_ALLREDUCE => 3
  | FINISHED => 4
  end.

(** [AveragingStage(n)]: lookup by value, [ValueError] when no member has
    that value. *)
Definition of_value (n : Z) : outcome t :=
  match n with
  | 0 => Ok IDLE
  | 1 => Ok LOOKING_FOR_GROUP
  | 2 => Ok AWAITING_TRIGGER
  | 3 => Ok RUNNING_ALLREDUCE
  | 4 => Ok FINISHED
  | _ => Raise ValueError
  end.

Definition eqb (a b : t) : bool := value a =? value b.

End AveragingStage.

Module FutureState.

(** Modelled from the spec: the resolution state of the generic
    cross-process future, [hivemind.utils.MPFuture], which lives in another
    module of the package.  "A one-shot future with at most one
    resolution", which "resolves exactly once (success, failure, or
    cancellation)". *)
Inductive t :=
| PENDING
| FINISHED (result : outcome PyVal)
| CANCELLED.

End FutureState.

Record World := mkWorld {
  tensors : gmap nat (list Z);
  futures : gmap nat FutureState.t;
  dht_time : spec_float;
  warnings : list string;
}.

Definition set_tensors (f : gmap nat (list Z) → gmap nat (list Z)) (w : World) : World :=
  mkWorld (f (tensors w)) (futures w) (dht_time w) (warnings w).

Definition set_futures (f : gmap nat FutureState.t → gmap nat FutureState.t) (w : World) : World :=
  mkWorld (tensors w) (f (futures w)) (dht_time w) (warnings w).

Definition add_warning (msg : string) (w : World) : World :=
  mkWorld (tensors w) (futures w) (dht_time w) (warnings w ++ [msg]).

(** ** The monad of method bodies: state passing over [World], with
    exceptions.  A raised exception keeps the store as it was when raised. *)

Definition M (A : Type) : Type := World → outcome A * World.

#[global] Instance M_ret : MRet M := λ A a w, (Ok a, w).

#[global] Instance M_bind : MBind M := λ A B f m w,
  match m w with
  | (Ok a, w') => f a w'
  | (Raise e, w') => (Raise e, w')
  end.

Definition raise {A} (e : exn) : M A := λ w, (Raise e, w).

Definition lift {A} (o : outcome A) : M A := λ w, (o, w).

(** The message of an [assert] written without one. *)
Definition no_message : string := EmptyString.

Definition py_assert (cond : bool) (msg : string) : M unit :=
  if cond then mret () else raise (AssertionError msg).

(** [logger.warning(msg)]: the message is appended to the log, nothing
    else happens. *)
Definition logger_warning (msg : string) : M unit :=
  λ w, (Ok (), add_warning msg w).

Definition when (cond : bool) (body : M unit) : M unit :=
  if cond then body else mret ().

(** Modelled from the spec: [hivemind.utils.get_dht_time()], defined in
    another module of the package; "a monotonic, globally-consistent time
    source shared by all participants".  Its reading is a component of the
    store. *)
Definition get_dht_time : M spec_float := λ w, (Ok (dht_time w), w).

(** *** Shared uint8 tensors.  A reference that was never allocated reads
    as the empty tensor; Python has no such references.  Indexing past the
    end raises [IndexError]; [struct] raises its own error when the slice it
    is handed does not hold the eight bytes of a double. *)

Definition tensor_bytes (ref : nat) (w : World) : list Z :=
  default [] (tensors w !! ref).

(** [torch.zeros([n], dtype=torch.uint8).share_memory_()] *)
Definition torch_zeros_shared (n : nat) : M nat := λ w,
  let ref := fresh (dom (tensors w)) in
  (Ok ref, set_tensors (insert ref (replicate n 0)) w).

(** [tensor[i].item()] *)
Definition tensor_item (ref : nat) (i : nat) : M Z := λ w,
  match tensor_bytes ref w !! i with
  | Some v => (Ok v, w)
  | None => (Raise IndexError, w)
  end.

(** [tensor[i] = v] *)
Definition tensor_setitem (ref : nat) (i : nat) (v : Z) : M unit := λ w,
  if (i <? length (tensor_bytes ref w))%nat
  then (Ok (), set_tensors (insert ref (<[i := v]> (tensor_bytes ref w))) w)
  else (Raise IndexError, w).

(** [struct.unpack("d", tensor[a:a+8].numpy().data)[0]] *)
Definition struct_unpack_d (ref : nat) (a : nat) : M spec_float := λ w,
  let view := take 8 (drop a (tensor_bytes ref w)) in
  if (length view =? 8)%nat
  then (Ok (Binary64.unpack_d view), w)
  else (Raise StructError, w).

(** [struct.pack_into("d", tensor[a:a+8].numpy().data, 0, x)]: the slice is
    a view, the eight bytes land in the shared tensor itself. *)
Definition struct_pack_into_d (ref : nat) (a : nat) (x : spec_float) : M unit := λ w,
  let view := take 8 (drop a (tensor_bytes ref w)) in
  if (length view =? 8)%nat
  then (Ok (), set_tensors (insert ref (list_inserts a (Binary64.pack_d x) (tensor_bytes ref w))) w)
  else (Raise StructError, w).

(** ** The generic cross-process future *)

Module MPFuture.

Definition state (uid : nat) (w : World) : FutureState.t :=
  default FutureState.PENDING (futures w !! uid).

Definition get_state (uid : nat) : M FutureState.t := λ w, (Ok (state uid w), w).

Definition put_state (uid : nat) (s : FutureState.t) : M unit := λ w,
  (Ok (), set_futures (insert uid s) w).

(** Modelled from the spec: [create()] of the base primitive, a new
    unresolved future. *)
Definition create : M nat := λ w,
  let uid := fresh (dom (futures w)) in
  (Ok uid, set_futures (insert uid FutureState.PENDING) w).

(** Modelled from the spec: [done()], true once the future has resolved in
    any way. *)
Definition done (uid : nat) : M bool :=
  s ← get_state uid;
  mret (match s with FutureState.PENDING => false | _ => true end).

(** Modelled from the spec: [set_result(value)] of a one-shot future.  It
    resolves a pending future; a future admits at most one resolution, so
    on a resolved one it fails with [InvalidStateError], as Python's futures
    do. *)
Definition set_result (uid : nat) (v : PyVal) : M unit :=
  s ← get_state uid;
  match s with
  | FutureState.PENDING => put_state uid (FutureState.FINISHED (Ok v))
  | _ => raise InvalidStateError
  end.

(** Modelled from the spec: [cancel()].  A pending future becomes
    cancelled; cancelling a cancelled future again changes nothing; a
    finished future cannot be cancelled. *)
Definition cancel (uid : nat) : M bool :=
  s ← get_state uid;
  match s with
  | FutureState.PENDING => put_state uid FutureState.CANCELLED;; mret true
  | FutureState.CANCELLED => mret true
  | FutureState.FINISHED _ => mret false
  end.

(** Modelled from the spec: one resumption attempt of [await future].
    [None] is "still suspended"; a resolved future yields its result or
    raises its failure, a cancelled one raises [CancelledError]. *)
Definition await (uid : nat) : M (option PyVal) :=
  s ← get_state uid;
  match s with
  | FutureState.PENDING => mret None
  | FutureState.FINISHED (Ok v) => mret (Some v)
  | FutureState.FINISHED (Raise e) => raise e
  | FutureState.CANCELLED => raise CancelledError
  end.

End MPFuture.

(** ** StepControl *)

Record StepControl := mkStepControl {
  base : nat;                     (* the MPFuture part of the object *)
  _gather_binary : list Z;
  _deadline : spec_float;
  _allow_retries : bool;
  _trigger : option nat;
  _shared_buffer : nat;
  can_modify : option bool;       (* [None]: the attribute was never set *)
}.

Definition with_trigger (t : option nat) (self : StepControl) : StepControl :=
  mkStepControl (base self) (_gather_binary self) (_deadline self) (_allow_retries self)
    t (_shared_buffer self) (can_modify self).

Definition with_can_modify (c : option bool) (self : StepControl) : StepControl :=
  mkStepControl (base self) (_gather_binary self) (_deadline self) (_allow_retries self)
    (_trigger self) (_shared_buffer self) c.

Definition gather_binary (self : StepControl) : list Z := _gather_binary self.
Definition deadline (self : StepControl) : spec_float := _deadline self.
Definition allow_retries (self : StepControl) : bool := _allow_retries self.

(** *** Field accessors *)

Definition get_scheduled_time (self : StepControl) : M spec_float :=
  struct_unpack_d (_shared_buffer self) 0.

Definition get_weight (self : StepControl) : M spec_float :=
  struct_unpack_d (_shared_buffer self) 8.

Definition get_stage (self : StepControl) : M AveragingStage.t :=
  v ← tensor_item (_shared_buffer self) 16;
  lift (AveragingStage.of_value v).

Definition get_began_allreduce (self : StepControl) : M bool :=
  v ← tensor_item (_shared_buffer self) 17;
  mret (negb (v =? 0)).

Definition set_scheduled_time (scheduled_time : spec_float) (self : StepControl) : M unit :=
  began ← get_began_allreduce self;
  when began
    (logger_warning "Changing scheduled time has no effect after all-reduce has already started");;
  when (Binary64.ge scheduled_time (deadline self))
    (logger_warning "Changing scheduled time to after deadline, averaging will likely fail due to timeout.");;
  struct_pack_into_d (_shared_buffer self) 0 scheduled_time.

Definition set_weight (weight : spec_float) (self : StepControl) : M unit :=
  py_assert (Binary64.ge weight Binary64.zero && Binary64.isfinite weight) no_message;;
  began ← get_began_allreduce self;
  when began
    (logger_warning "Changing weights has no effect after all-reduce has already started");;
  struct_pack_into_d (_shared_buffer self) 8 weight.

(** The stage setter assigns an attribute of the object, so it yields the
    updated object. *)
Definition set_stage (stage : AveragingStage.t) (self : StepControl) : M StepControl :=
  let self := if AveragingStage.eqb stage AveragingStage.RUNNING_ALLREDUCE
              then with_can_modify (Some false) self else self in
  tensor_setitem (_shared_buffer self) 16 (AveragingStage.value stage);;
  mret self.

Definition set_began_allreduce (value : bool) (self : StepControl) : M unit :=
  tensor_setitem (_shared_buffer self) 17 (if value then 1 else 0).

(** *** Construction, trigger, timeout *)

Definition __init__ (scheduled_time deadline : spec_float) (allow_retries : bool)
    (weight : spec_float) (gather_binary : list Z) : M StepControl :=
  uid ← MPFuture.create;
  buf ← torch_zeros_shared 18;
  let self := mkStepControl uid gather_binary deadline allow_retries None buf None in
  self ← set_stage AveragingStage.IDLE self;
  set_scheduled_time scheduled_time self;;
  set_weight weight self;;
  set_began_allreduce false self;;
  mret self.

Definition attach_trigger (trigger : nat) (self : StepControl) : M StepControl :=
  match _trigger self with
  | None => mret (with_trigger (Some trigger) self)
  | Some _ => raise (AssertionError "trigger is already attached")
  end.

Definition not_initialized : string :=
  "StepControl does not have an attached trigger (not properly initialized)".

Definition allow_allreduce (self : StepControl) : M unit :=
  match _trigger self with
  | None => raise (AssertionError not_initialized)
  | Some trigger =>
      d ← MPFuture.done trigger;
      when d (logger_warning "Trigger is already set");;
      MPFuture.set_result trigger PyNone
  end.

Definition wait_for_trigger (self : StepControl) : M (option PyVal) :=
  match _trigger self with
  | None => raise (AssertionError not_initialized)
  | Some trigger => MPFuture.await trigger
  end.

Definition get_timeout (self : StepControl) : M spec_float :=
  now ← get_dht_time;
  mret (Binary64.max Binary64.zero (Binary64.sub (deadline self) now)).

(** *** Cancellation.  The method ends in a call to itself; [depth] is
    the number of frames the interpreter still grants before it raises
    [RecursionError]. *)

Fixpoint cancel (depth : nat) (self : StepControl) : M bool :=
  match depth with
  | O => raise RecursionError
  | S depth' =>
      match _trigger self with
      | Some trigger => MPFuture.cancel trigger;; mret ()
      | None => mret ()
      end;;
      cancel depth' self
  end.

(** *** Pickling hooks.  The state of the base class is defined with
    [MPFuture] in another module of the package: it is a parameter here,
    [base_getstate] producing the dictionary of [super().__getstate__()] and
    [base_setstate] reading the fields of the base class back from a
    dictionary. *)

Section Pickling.

Variable base_getstate : nat → gmap string PyVal.
Variable base_setstate : gmap string PyVal → outcome nat.

Definition getitem (state : gmap string PyVal) (key : string) : outcome PyVal :=
  match state !! key with
  | Some v => Ok v
  | None => Raise (KeyError key)
  end.

Definition outcome_bind {A B} (o : outcome A) (f : A → outcome B) : outcome B :=
  match o with
  | Ok a => f a
  | Raise e => Raise e
  end.

Definition __getstate__ (self : StepControl) : gmap string PyVal :=
  <["immutable_params" :=
      PyTuple [PyBytes (_gather_binary self); PyFloat (_deadline self); PyBool (_allow_retries self)]]>
  (<["_shared_buffer" := PyTensor (_shared_buffer self)]>
  (<["_trigger" := match _trigger self with Some t => PyFuture t | None => PyNone end]>
  (base_getstate (base self)))).

(** [__setstate__] as pickle runs it: on a blank instance, which has no
    [can_modify] attribute. *)
Definition __setstate__ (state : gmap string PyVal) : outcome StepControl :=
  outcome_bind (base_setstate state) (λ uid,
  outcome_bind (getitem state "_trigger") (λ trigger,
  outcome_bind (getitem state "_shared_buffer") (λ buffer,
  outcome_bind (getitem state "immutable_params") (λ params,
  match params with
  | PyTuple [gb; dl; ar] =>
      match trigger, buffer, gb, dl, ar with
      | PyNone, PyTensor buf, PyBytes gb, PyFloat dl, PyBool ar =>
          Ok (mkStepControl uid gb dl ar None buf None)
      | PyFuture t, PyTensor buf, PyBytes gb, PyFloat dl, PyBool ar =>
          Ok (mkStepControl uid gb dl ar (Some t) buf None)
      | _, _, _, _, _ => Raise TypeError
      end
  | PyTuple _ => Raise ValueError
  | _ => Raise TypeError
  end)))).

End Pickling.

(** *** The calls a holder of the handle can make (section 4.2 of the
    specification), as data, for statements that range over all of them. *)

Inductive Op :=
| OpAttachTrigger (trigger : nat)
| OpAllowAllreduce
| OpWaitForTrigger
| OpGetScheduledTime
| OpSetScheduledTime (t : spec_float)
| OpGetWeight
| OpSetWeight (w : spec_float)
| OpGetStage
| OpSetStage (s : AveragingStage.t)
| OpGetBeganAllreduce
| OpSetBeganAllreduce (b : bool)
| OpGetTimeout
| OpCancel (depth : nat).

Definition is_set_began_allreduce (op : Op) : bool :=
  match op with
  | OpSetBeganAllreduce _ => true
  | _ => false
  end.

(** Run one call; the result is the object after the call. *)
Definition run (op : Op) (self : StepControl) : M StepControl :=
  match op with
  | OpAttachTrigger t => attach_trigger t self
  | OpAllowAllreduce => allow_allreduce self;; mret self
  | OpWaitForTrigger => wait_for_trigger self;; mret self
  | OpGetScheduledTime => get_scheduled_time self;; mret self
  | OpSetScheduledTime t => set_scheduled_time t self;; mret self
  | OpGetWeight => get_weight self;; mret self
  | OpSetWeight x => set_weight x self;; mret self
  | OpGetStage => get_stage self;; mret self
  | OpSetStage s => set_stage s self
  | OpGetBeganAllreduce => get_began_allreduce self;; mret self
  | OpSetBeganAllreduce b => set_began_allreduce b self;; mret self
  | OpGetTimeout => get_timeout self;; mret self
  | OpCancel depth => cancel depth self;; mret self
  end.

(** *** The byte-level reading of the shared block, for statements about
    what is stored where. *)

Module Block.

Definition read_scheduled_time (b : list Z) : spec_float :=
  Binary64.unpack_d (take 8 (drop 0 b)).

Definition read_weight (b : list Z) : spec_float :=
  Binary64.unpack_d (take 8 (drop 8 b)).

Definition read_stage (b : list Z) : outcome AveragingStage.t :=
  AveragingStage.of_value (default 0 (b !! 16%nat)).

Definition read_began_allreduce (b : list Z) : bool :=
  negb (default 0 (b !! 17%nat) =? 0).

End Block.

(** The handle's block is allocated and has its 18 bytes. *)
Definition allocated (self : StepControl) (w : World) : Prop :=
  ∃ b, tensors w !! _shared_buffer self = Some b ∧ length b = 18%nat.

(** The bytes of the block a handle refers to. *)
Definition block (self : StepControl) (w : World) : list Z :=
  tensor_bytes (_shared_buffer self) w.

(** The precondition of the weight setter: [weight >= 0 and np.isfinite(weight)]. *)
Definition valid_weight (x : spec_float) : bool :=
  Binary64.ge x Binary64.zero && Binary64.isfinite x.

(** Two worlds that differ at most in the bytes of one tensor and in the
    warnings logged. *)
Definition same_but (ref : nat) (w w' : World) : Prop :=
  futures w' = futures w ∧ dht_time w' = dht_time w ∧
  (∃ msgs, warnings w' = warnings w ++ msgs) ∧
  ∀ r, r ≠ ref → tensors w' !! r = tensors w !! r.

(** What a call leaves in the block [b] of the handle it is made on. *)
Definition block_after (op : Op) (b : list Z) : list Z :=
  match op with
  | OpSetScheduledTime t => list_inserts 0 (Binary64.pack_d t) b
  | OpSetWeight x => if valid_weight x then list_inserts 8 (Binary64.pack_d x) b else b
  | OpSetStage s => <[16%nat := AveragingStage.value s]> b
  | OpSetBeganAllreduce v => <[17%nat := if v then 1 else 0]> b
  | _ => b
  end.

(** Concrete floats, a store and a handle to run the statements on. *)
Module Demo.

Definition one : spec_float := S754_finite false (2 ^ 52) (-52).
Definition two : spec_float := S754_finite false (2 ^ 52) (-51).
Definition ten : spec_float := S754_finite false (5 * 2 ^ 50) (-49).
Definition minus_one : spec_float := S754_finite true (2 ^ 52) (-52).

Definition world : World :=
  mkWorld {[ 0%nat := replicate 18 0 ]} {[ 0%nat := FutureState.PENDING; 1%nat := FutureState.PENDING ]}
    Binary64.zero [].

Definition handle : StepControl := mkStepControl 0 [] ten true None 0 None.

Definition wired : StepControl := with_trigger (Some 1%nat) handle.

Definition base_getstate (uid : nat) : gmap string PyVal := {[ "_uid" := PyFuture uid ]}.

Definition base_setstate (state : gmap string PyVal) : outcome nat :=
  match state !! "_uid" with
  | Some (PyFuture uid) => Ok uid
  | Some _ => Raise TypeError
  | None => Raise (KeyError "_uid")
  end.

End Demo.

Module Start.

(** A store with nothing allocated, and the handle a controller builds in
    it with [StepControl(1.0, 10.0, True, 1.0, b'')]. *)
Definition world : World := mkWorld ∅ ∅ Binary64.zero [].

Definition built : outcome StepControl * World :=
  __init__ Demo.one Demo.ten true Demo.one [] world.

End Start.

Module Clock.

(** The demo store with the shared clock reading [t]. *)
Definition at_time (t : spec_float) : World :=
  mkWorld (tensors Demo.world) (futures Demo.world) t (warnings Demo.world).

End Clock.

(** ** Exact arithmetic behind binary64 subtraction.  Every finite
    binary64 number is an integer multiple of 2^-1074, so a difference of
    two of them is an integer in that unit, and rounding is a function of
    that integer.  These definitions describe what [SFsub] computes; they
    are shown equal to it below ([binary_round_scaled], [max_zero_sub]) and
    serve to compare results. *)

Module Exact.

(** The value of a finite float in units of 2^-1074. *)
Definition scaled (x : spec_float) : Z :=
  match x with
  | S754_finite s m e => (if s then -1 else 1) * (Z.pos m * 2 ^ (e + 1074))
  | _ => 0
  end.

(** How many low bits of a positive integer do not fit in 53 bits. *)
Definition shift (n : Z) : Z := Z.max (Z.log2 n + 1 - 53) 0.

(** The quotient of [n] by [2 ^ k], rounded to nearest, ties to even. *)
Definition rne (n k : Z) : Z :=
  let q := n / 2 ^ k in
  match 2 * (n mod 2 ^ k) ?= 2 ^ k with
  | Lt => q
  | Eq => if Z.even q then q else q + 1
  | Gt => q + 1
  end.

(** A 53-bit mantissa [q] at exponent [k - 1074] as a float; a mantissa
    rounded up to [2 ^ 53] moves to the next exponent, and an exponent
    above the format's range gives infinity. *)
Definition finish (q k : Z) : spec_float :=
  let q' := if q =? 2 ^ 53 then 2 ^ 52 else q in
  let k' := if q =? 2 ^ 53 then k + 1 else k in
  if k' - 1074 <=? 971 then
    match q' with
    | Z.pos p => S754_finite false p (k' - 1074)
    | _ => S754_nan
    end
  else S754_infinity false.

(** The binary64 number nearest to [n * 2^-1074], for [n > 0]. *)
Definition round (n : Z) : spec_float := finish (rne n (shift n)) (shift n).

(** The value of the rounded result, in units of 2^-1074. *)
Definition rounded (n : Z) : Z := rne n (shift n) * 2 ^ shift n.

(** [max(0.0, x - y)] as a function of the exact difference. *)
Definition timeout_of (d : Z) : spec_float :=
  if 0 <? d then round d else Binary64.zero.

(** Where the bits shifted out of [n] by [k] places stand relative to one
    half. *)
Definition loc_of (n k : Z) : location :=
  if n mod 2 ^ k =? 0 then loc_Exact
  else loc_Inexact (2 * (n mod 2 ^ k) ?= 2 ^ k).

End Exact.

(** ** What the setters log *)

Definition add_warnings (msgs : list string) (w : World) : World :=
  mkWorld (tensors w) (futures w) (dht_time w) (warnings w ++ msgs).

(** The messages of the [scheduled_time] setter, in the order of its two
    tests. *)
Definition scheduled_time_warnings (began : bool) (t dl : spec_float) : list string :=
  (if began
   then ["Changing scheduled time has no effect after all-reduce has already started"]
   else [])
  ++ (if Binary64.ge t dl
      then ["Changing scheduled time to after deadline, averaging will likely fail due to timeout."]
      else []).

(** The message of the [weight] setter. *)
Definition weight_warnings (began : bool) : list string :=
  if began
  then ["Changing weights has no effect after all-reduce has already started"]
  else [].

(** ** What a call leaves alone.  [frame ref t w w']: the stores agree on
    the clock, on every tensor other than [ref] and on every future other
    than the one [t] may name, and the log of [w'] extends that of [w]. *)
Definition frame (ref : nat) (t : option nat) (w w' : World) : Prop :=
  dht_time w' = dht_time w
  ∧ (∀ r, r ≠ ref → tensors w' !! r = tensors w !! r)
  ∧ (∀ u, t ≠ Some u → futures w' !! u = futures w !! u)
  ∧ ∃ msgs, warnings w' = warnings w ++ msgs.

(** ** Sequences of calls.  A holder makes the calls [ops] on its handle
    one after the other and goes on after a call that raises.  On an
    allocated block a call that raises has assigned no attribute, so the
    object is then as the call found it. *)
Fixpoint run_all (ops : list Op) (self : StepControl) (w : World) : StepControl * World :=
  match ops with
  | [] => (self, w)
  | op :: ops =>
      match run op self w with
      | (Ok self', w') => run_all ops self' w'
      | (Raise _, w') => run_all ops self w'
      end
  end.

(** The trigger of the first [attach_trigger] among the calls, if any. *)
Fixpoint first_attach (ops : list Op) : option nat :=
  match ops with
  | [] => None
  | OpAttachTrigger t :: _ => Some t
  | _ :: ops => first_attach ops
  end.

Definition is_set_stage_running (op : Op) : bool :=
  match op with
  | OpSetStage s => AveragingStage.eqb s AveragingStage.RUNNING_ALLREDUCE
  | _ => false
  end.

(** * The gradient scaler of [hivemind/optim/grad_scaler.py]

    [GradScaler] extends torch's scaler of the same name and wraps three of
    its methods.  What torch does inside a [super()] call is code of another
    package, and such a call may come back into the subclass through an
    overridden method: each one is a parameter here, an arbitrary
    computation on the whole scaler.  The methods are taken one call at a
    time, so the reentrant lock they hold has no effect and is left out. *)

Module GradScaler.

(** [torch.cuda.amp.grad_scaler.OptState] *)
Module OptState.

Inductive t := READY | UNSCALED | STEPPED.

Definition eqb (a b : t) : bool :=
  match a, b with
  | READY, READY | UNSCALED, UNSCALED | STEPPED, STEPPED => true
  | _, _ => false
  end.

End OptState.

(** A Python dictionary with integer keys ([id(...)] of an optimizer, or a
    device), in insertion order. *)
Definition Dict (V : Type) : Type := list (nat * V).

Fixpoint dict_get {V} (k : nat) (d : Dict V) : option V :=
  match d with
  | [] => None
  | (k', v) :: d' => if Nat.eqb k k' then Some v else dict_get k d'
  end.

(** [d[k] = v]: a key that is present keeps its place, a new one goes
    last. *)
Fixpoint dict_set {V} (k : nat) (v : V) (d : Dict V) : Dict V :=
  match d with
  | [] => [(k, v)]
  | (k', v') :: d' => if Nat.eqb k k' then (k, v) :: d' else (k', v') :: dict_set k v d'
  end.

Definition dict_values {V} (d : Dict V) : list V := map snd d.

(** One entry of [_per_optimizer_states]: the dictionary with the keys
    ["stage"] and ["found_inf_per_device"]; of each tensor in the latter
    only [v.item()] is kept. *)
Record OptimizerState := mkOptimizerState {
  stage : OptState.t;
  found_inf_per_device : Dict spec_float;
}.

(** What the scaler looks at in an optimizer: [id(optimizer)], whether it
    is an instance of [hivemind.Optimizer] or
    [hivemind.DecentralizedOptimizerBase], and [id(optimizer.opt)]. *)
Record Optimizer := mkOptimizer {
  oid : nat;
  is_hivemind : bool;
  opt : nat;
}.

(** The types torch brings: the attributes of the base class other than
    [_per_optimizer_states], the exceptions its methods raise, and the
    extra arguments [*args, **kwargs] of [step]. *)
Class TorchTypes := {
  Torch : Type;
  TorchError : Type;
  Args : Type;
  no_args : Args;
}.

Inductive raised `{TorchTypes} :=
| AssertionError (msg : string)
| Foreign (e : TorchError).

Inductive result `{TorchTypes} (A : Type) :=
| Returned (a : A)
| Raised (e : raised).

Arguments Returned {_ A} a.
Arguments Raised {_ A} e.

(** The scaler object, with the log.  [_optimizer_states_to_reset] is a
    Python set: the list holds its members in the order the set iterates
    them. *)
Record t `{TorchTypes} := mk {
  torch : Torch;
  _per_optimizer_states : Dict OptimizerState;
  _is_running_global_step : bool;
  _is_ready_to_update : bool;
  _optimizer_states_to_reset : list nat;
  logged : list string;
}.

Arguments mk {_} torch _per_optimizer_states _is_running_global_step
  _is_ready_to_update _optimizer_states_to_reset logged.

Section Monad.
Context `{TorchTypes}.

Definition G (A : Type) : Type := t → result A * t.

Definition ret {A} (a : A) : G A := λ s, (Returned a, s).

Definition bind {A B} (m : G A) (f : A → G B) : G B := λ s,
  match m s with
  | (Returned a, s') => f a s'
  | (Raised e, s') => (Raised e, s')
  end.

Definition raise {A} (e : raised) : G A := λ s, (Raised e, s).

Definition py_assert (cond : bool) (msg : string) : G unit :=
  if cond then ret () else raise (AssertionError msg).

Definition logger_warning (msg : string) : G unit := λ s,
  (Returned (),
   mk (torch s) (_per_optimizer_states s) (_is_running_global_step s)
      (_is_ready_to_update s) (_optimizer_states_to_reset s) (logged s ++ [msg])).

Definition when (cond : bool) (body : G unit) : G unit :=
  if cond then body else ret ().

Definition get {A} (field : t → A) : G A := λ s, (Returned (field s), s).

Definition with_states (d : Dict OptimizerState) (s : t) : t :=
  mk (torch s) d (_is_running_global_step s) (_is_ready_to_update s)
     (_optimizer_states_to_reset s) (logged s).

Definition with_running (b : bool) (s : t) : t :=
  mk (torch s) (_per_optimizer_states s) b (_is_ready_to_update s)
     (_optimizer_states_to_reset s) (logged s).

Definition with_ready (b : bool) (s : t) : t :=
  mk (torch s) (_per_optimizer_states s) (_is_running_global_step s) b
     (_optimizer_states_to_reset s) (logged s).

Definition with_reset (l : list nat) (s : t) : t :=
  mk (torch s) (_per_optimizer_states s) (_is_running_global_step s)
     (_is_ready_to_update s) l (logged s).

Definition put (update : t → t) : G unit := λ s, (Returned (), update s).

End Monad.

#[global] Instance G_ret `{TorchTypes} : MRet G := @ret _.
#[global] Instance G_bind `{TorchTypes} : MBind G := λ A B f m, bind m f.

(** What torch and the interpreter do behind the calls of the subclass:
    - [_refresh_per_optimizer_state()], the fresh entry, which is also what
      reading a missing key of [_per_optimizer_states] inserts (torch builds
      that dictionary as a [defaultdict] of it);
    - the methods reached through [super()], and the two inf checks of the
      base class;
    - the builtin [sum] on floats, whose rounding differs between versions
      of the interpreter;
    - [set.add], which places the new member where the hash table has room:
      the order in which a set iterates is not fixed by the language. *)
Class TorchGradScaler `{TorchTypes} := {
  _refresh_per_optimizer_state : OptimizerState;
  super_unscale_ : Optimizer → G unit;
  super_step : Optimizer → Args → G unit;
  super_update : option spec_float → G unit;
  _check_inf_per_device : Optimizer → G (Dict spec_float);
  _found_inf_per_device : Optimizer → G (Dict spec_float);
  sum : list spec_float → spec_float;
  set_add : nat → list nat → list nat;
}.

Section Methods.
Context `{TorchGradScaler}.

(** [__init__]: the attributes the subclass adds to a scaler the base
    class has built. *)
Definition __init__ (base : Torch) (states : Dict OptimizerState) (log : list string) : t :=
  mk base states false false [] log.

(** [with self.running_global_step(): body].  The flag is put back in a
    [finally] clause, so also when the body raises. *)
Definition running_global_step {A} (body : G A) : G A := λ s,
  let was_running := _is_running_global_step s in
  let '(r, s') := body (with_running true s) in
  (r, with_running was_running s').

(** [self._per_optimizer_states[k]], read. *)
Definition states_getitem (k : nat) : G OptimizerState := λ s,
  match dict_get k (_per_optimizer_states s) with
  | Some st => (Returned st, s)
  | None =>
      (Returned _refresh_per_optimizer_state,
       with_states (dict_set k _refresh_per_optimizer_state (_per_optimizer_states s)) s)
  end.

(** [self._per_optimizer_states[k] = st] *)
Definition states_setitem (k : nat) (st : OptimizerState) : G unit :=
  put (λ s, with_states (dict_set k st (_per_optimizer_states s)) s).

(** [self._optimizer_states_to_reset.add(k)] *)
Definition reset_add (k : nat) : G unit :=
  put (λ s, with_reset (set_add k (_optimizer_states_to_reset s)) s).

Definition unscale_ (optimizer : Optimizer) : G bool :=
  py_assert (is_hivemind optimizer) no_message;;
  running ← get _is_running_global_step;
  if running : bool then
    super_unscale_ optimizer;;
    st ← states_getitem (oid optimizer);
    states_setitem (opt optimizer) st;;
    mret true
  else
    _check_inf_per_device optimizer;;
    reset_add (oid optimizer);;
    mret false.

(** [not x] and [x != 0] on a float: a NaN is not zero. *)
Definition is_zero (x : spec_float) : bool := SFeqb x Binary64.zero.

Definition are_grads_finite (optimizer : Optimizer) (use_cached : bool) : G bool :=
  opt_dict ← (if use_cached then _found_inf_per_device optimizer
              else _check_inf_per_device optimizer);
  mret (is_zero (sum (dict_values opt_dict))).

Definition step (optimizer : Optimizer) (args : Args) : G bool :=
  running ← get _is_running_global_step;
  if running : bool then
    ready ← get _is_ready_to_update;
    when ready (logger_warning "Please call grad_scaler.update() after each step");;
    py_assert (negb (is_hivemind optimizer)) no_message;;
    st ← states_getitem (oid optimizer);
    py_assert (OptState.eqb (stage st) OptState.UNSCALED)
      "InternalError: Optimizer should have called .unscale internally before invoking grad_scaler.step.";;
    finite ← are_grads_finite optimizer true;
    (if finite : bool then super_step optimizer args
     else logger_warning "Skipping global step due to gradient over/underflow");;
    put (with_ready true);;
    mret true
  else
    py_assert (is_hivemind optimizer) no_message;;
    super_step optimizer no_args;;
    reset_add (oid optimizer);;
    mret false.

(** The loop of [update] that adds up the inf flags of all optimizers. *)
Definition total_infs (states : Dict OptimizerState) : spec_float :=
  fold_left
    (λ total optimizer_state,
       SFadd Binary64.prec Binary64.emax total
         (sum (dict_values (found_inf_per_device optimizer_state))))
    (dict_values states) Binary64.zero.

(** The loop of [update] that refreshes the marked entries. *)
Fixpoint refresh_all (opt_ids : list nat) : G unit :=
  match opt_ids with
  | [] => mret ()
  | opt_id :: opt_ids =>
      states_setitem opt_id _refresh_per_optimizer_state;;
      refresh_all opt_ids
  end.

Definition update (new_scale : option spec_float) : G bool :=
  states ← get _per_optimizer_states;
  ready ← get _is_ready_to_update;
  if ready || negb (is_zero (total_infs states)) then
    super_update new_scale;;
    put (with_ready false);;
    mret true
  else
    to_reset ← get _optimizer_states_to_reset;
    refresh_all to_reset;;
    put (with_reset []);;
    mret false.

End Methods.

End GradScaler.

(** A small stand-in for torch to run the statements on: the base state
    is the list of base steps taken, with the optimizer and whether extra
    arguments came along. *)
Module GradScalerDemo.
Import GradScaler.

Definition types : TorchTypes :=
  {| Torch := list (nat * bool); TorchError := unit; Args := bool; no_args := false |}.

Definition fresh_state : OptimizerState := mkOptimizerState OptState.READY [].

Definition no_inf : Dict spec_float := [(0%nat, Binary64.zero)].

Definition base : @TorchGradScaler types :=
  {| _refresh_per_optimizer_state := fresh_state;
     super_unscale_ := λ optimizer,
       put (H := types) (λ s, with_states
              (dict_set (oid optimizer) (mkOptimizerState OptState.UNSCALED no_inf)
                 (_per_optimizer_states s)) s);
     super_step := λ optimizer args,
       put (H := types) (λ s, mk (H := types) (torch s ++ [(oid optimizer, args)])
              (_per_optimizer_states s) (_is_running_global_step s)
              (_is_ready_to_update s) (_optimizer_states_to_reset s) (logged s));
     super_update := λ _, put (H := types) (with_states []);
     _check_inf_per_device := λ optimizer s,
       (Returned no_inf,
        with_states (dict_set (oid optimizer) (mkOptimizerState OptState.READY no_inf)
                       (_per_optimizer_states s)) s);
     _found_inf_per_device := λ optimizer s,
       (Returned (match dict_get (oid optimizer) (_per_optimizer_states s) with
                  | Some st => found_inf_per_device st
                  | None => []
                  end), s);
     sum := λ items, fold_left (SFadd Binary64.prec Binary64.emax) items Binary64.zero;
     set_add := λ k members, if existsb (Nat.eqb k) members then members else members ++ [k];
  |}.

(** A hivemind optimizer, the torch optimizer it wraps, and a new scaler. *)
Definition outer : Optimizer := mkOptimizer 7 true 8.
Definition inner : Optimizer := mkOptimizer 8 false 8.
Definition scaler : @t types := __init__ (H := types) [] [] [].

(** The scaler after a local [unscale_] of the hivemind optimizer, and
    after an [unscale_] of it within a global step. *)
Definition marked : @t types := snd (unscale_ (H0 := base) outer scaler).
Definition unscaled : @t types :=
  snd (running_global_step (unscale_ (H0 := base) outer) scaler).

End GradScalerDemo.

(** * Facts about the binary64 codec *)

Module Binary64Facts.
Import Binary64.

Lemma digits2_pos_bounds m :
  2 ^ (Z.pos (digits2_pos m) - 1) <= Z.pos m < 2 ^ Z.pos (digits2_pos m).
Proof.
  induction m as [m IH|m IH|]; cbn [digits2_pos].
  - rewrite Pos2Z.inj_succ.
    replace (Z.succ (Z.pos (digits2_pos m)) - 1) with (Z.succ (Z.pos (digits2_pos m) - 1)) by lia.
    rewrite !Z.pow_succ_r by lia. lia.
  - rewrite Pos2Z.inj_succ.
    replace (Z.succ (Z.pos (digits2_pos m)) - 1) with (Z.succ (Z.pos (digits2_pos m) - 1)) by lia.
    rewrite !Z.pow_succ_r by lia. lia.
  - simpl. lia.
Qed.

Lemma bounded_cases m e :
  bounded prec emax m e = true ->
  (2 ^ 52 <= Z.pos m < 2 ^ 53 /\ -1074 <= e <= 971) \/
  (Z.pos m < 2 ^ 52 /\ e = -1074).
Proof.
  unfold bounded, canonical_mantissa, fexp, SpecFloat.emin, prec, emax.
  intros H. apply andb_true_iff in H as [Hc He].
  apply Z.eqb_eq in Hc. apply Z.leb_le in He.
  pose proof (digits2_pos_bounds m) as [Hlo Hhi].
  destruct (Z_lt_le_dec (Z.pos (digits2_pos m)) 53) as [Hd|Hd].
  - right. split; [|lia].
    eapply Z.lt_le_trans; [exact Hhi|].
    apply Z.pow_le_mono_r; lia.
  - left. assert (Z.pos (digits2_pos m) = 53) as Hd' by lia.
    rewrite Hd' in Hlo, Hhi. split; [split|]; simpl in *; lia.
Qed.

Lemma bits_of_float_range x :
  is_valid x = true -> 0 <= bits_of_float x < 2 ^ 64.
Proof.
  destruct x as [s|s| |s m e]; cbn [is_valid valid_binary bits_of_float]; unfold join_bits.
  - destruct s; lia.
  - destruct s; lia.
  - lia.
  - intros H. apply bounded_cases in H as [[Hm He]|[Hm He]].
    + destruct (Z.leb_spec (2^52) (Z.pos m)); destruct s; lia.
    + destruct (Z.leb_spec (2^52) (Z.pos m)); destruct s; lia.
Qed.

Lemma float_of_join s e m :
  0 <= e < 2 ^ 11 -> 0 <= m < 2 ^ 52 ->
  float_of_bits (join_bits s e m) =
  if e =? 0 then match m with Z.pos p => S754_finite s p (-1074) | _ => S754_zero s end
  else if e =? 2047 then (if m =? 0 then S754_infinity s else S754_nan)
  else match m + 2 ^ 52 with Z.pos p => S754_finite s p (e - 1075) | _ => S754_nan end.
Proof.
  intros He Hm. unfold float_of_bits, join_bits.
  assert (Hs : (2 ^ 63 <=? (if s then 2 ^ 63 else 0) + e * 2 ^ 52 + m) = s).
  { destruct s; [apply Z.leb_le|apply Z.leb_gt]; lia. }
  assert (Hmx : ((if s then 2 ^ 63 else 0) + e * 2 ^ 52 + m) mod 2 ^ 52 = m).
  { replace ((if s then 2 ^ 63 else 0) + e * 2 ^ 52 + m)
      with (m + ((if s then 2 ^ 11 else 0) + e) * 2 ^ 52) by (destruct s; lia).
    rewrite Z.mod_add by lia. apply Z.mod_small. lia. }
  assert (Hex : (((if s then 2 ^ 63 else 0) + e * 2 ^ 52 + m) / 2 ^ 52) mod 2 ^ 11 = e).
  { replace ((if s then 2 ^ 63 else 0) + e * 2 ^ 52 + m)
      with (m + ((if s then 2 ^ 11 else 0) + e) * 2 ^ 52) by (destruct s; lia).
    rewrite Z.div_add by lia. rewrite (Z.div_small m) by lia.
    destruct s.
    - replace (0 + (2 ^ 11 + e)) with (e + 1 * 2 ^ 11) by lia.
      rewrite Z.mod_add by lia. apply Z.mod_small. lia.
    - apply Z.mod_small. lia. }
  rewrite Hs, Hmx, Hex. reflexivity.
Qed.

Lemma float_of_bits_of_float x :
  is_valid x = true -> float_of_bits (bits_of_float x) = x.
Proof.
  destruct x as [s|s| |s m e]; cbn [is_valid valid_binary bits_of_float].
  - intros _. rewrite float_of_join by lia. reflexivity.
  - intros _. rewrite float_of_join by lia. reflexivity.
  - intros _. rewrite float_of_join by lia. reflexivity.
  - intros H. apply bounded_cases in H as [[Hm He]|[Hm He]].
    + destruct (Z.leb_spec (2^52) (Z.pos m)); [|lia].
      rewrite float_of_join by lia.
      destruct (Z.eqb_spec (e + 1075) 0); [lia|].
      destruct (Z.eqb_spec (e + 1075) 2047); [lia|].
      replace (Z.pos m - 2 ^ 52 + 2 ^ 52) with (Z.pos m) by lia.
      f_equal. lia.
    + destruct (Z.leb_spec (2^52) (Z.pos m)); [lia|].
      rewrite float_of_join by lia. subst e. reflexivity.
Qed.

Lemma length_bytes_of_int n x : length (bytes_of_int n x) = n.
Proof. revert x. induction n as [|n IH]; intros x; simpl; [|rewrite IH]; reflexivity. Qed.

Lemma int_of_bytes_of_int n x :
  0 <= x < 256 ^ Z.of_nat n -> int_of_bytes (bytes_of_int n x) = x.
Proof.
  revert x. induction n as [|n IH]; intros x Hx.
  - simpl in *. lia.
  - cbn [bytes_of_int int_of_bytes]. rewrite IH.
    + pose proof (Z.div_mod x 256). lia.
    + rewrite Nat2Z.inj_succ, Z.pow_succ_r in Hx by lia.
      split; [apply Z.div_pos; lia|].
      apply Z.div_lt_upper_bound; lia.
Qed.

Lemma length_pack_d x : length (pack_d x) = 8%nat.
Proof. apply length_bytes_of_int. Qed.

Lemma unpack_pack_d x : is_valid x = true -> unpack_d (pack_d x) = x.
Proof.
  intros H. unfold unpack_d, pack_d.
  rewrite int_of_bytes_of_int.
  - apply float_of_bits_of_float, H.
  - pose proof (bits_of_float_range x H). change (256 ^ Z.of_nat 8) with (2 ^ 64). lia.
Qed.

(** [x >= 0 and isfinite(x)] holds exactly of the zeros and of the finite
    numbers with a clear sign bit. *)
Lemma valid_weight_spec x :
  valid_weight x = true <->
  (exists s, x = S754_zero s) \/ (exists m e, x = S754_finite false m e).
Proof.
  unfold valid_weight, ge, zero, isfinite.
  destruct x as [s|s| |s m e]; simpl.
  - split; [eauto|reflexivity].
  - destruct s; simpl; (split; [discriminate|intros [[? ?]|(? & ? & ?)]; discriminate]).
  - split; [discriminate|intros [[? ?]|(? & ? & ?)]; discriminate].
  - destruct s; simpl.
    + split; [discriminate|intros [[? ?]|(? & ? & ?)]; discriminate].
    + split; [eauto|reflexivity].
Qed.

End Binary64Facts.

(** * Slices of the shared block *)

Section Slices.
Context {A : Type}.
Implicit Types (l k : list A).

Lemma take_drop_inserts_same a k l :
  (a + length k <= length l)%nat ->
  take (length k) (drop a (list_inserts a k l)) = k.
Proof.
  intros H. apply list_eq. intros i.
  destruct (decide (i < length k)%nat) as [Hi|Hi].
  - rewrite lookup_take_lt by done. rewrite lookup_drop.
    rewrite list_lookup_inserts by lia. f_equal. lia.
  - rewrite lookup_take_ge by lia. symmetry. apply lookup_ge_None. lia.
Qed.

Lemma take_drop_inserts_other a n b k l :
  (a + n <= b)%nat \/ (b + length k <= a)%nat ->
  take n (drop a (list_inserts b k l)) = take n (drop a l).
Proof.
  intros H. apply list_eq. intros i.
  destruct (decide (i < n)%nat) as [Hi|Hi].
  - rewrite !lookup_take_lt by done. rewrite !lookup_drop.
    destruct H as [H|H].
    + apply list_lookup_inserts_lt. lia.
    + apply list_lookup_inserts_ge. lia.
  - rewrite !lookup_take_ge by lia. reflexivity.
Qed.

Lemma take_drop_insert_other a n i x l :
  (a + n <= i)%nat \/ (i < a)%nat ->
  take n (drop a (<[i := x]> l)) = take n (drop a l).
Proof.
  intros H. apply list_eq. intros j.
  destruct (decide (j < n)%nat) as [Hj|Hj].
  - rewrite !lookup_take_lt by done. rewrite !lookup_drop.
    apply list_lookup_insert_ne. lia.
  - rewrite !lookup_take_ge by lia. reflexivity.
Qed.

End Slices.

Module ExactFacts.
Import Exact Binary64 Binary64Facts.

Lemma digits2_log2 p : Z.pos (digits2_pos p) = Z.log2 (Z.pos p) + 1.
Proof.
  pose proof (digits2_pos_bounds p) as [Hlo Hhi].
  rewrite (Z.log2_unique (Z.pos p) (Z.pos (digits2_pos p) - 1)); [lia|lia|].
  split; [exact Hlo|].
  replace (Z.succ (Z.pos (digits2_pos p) - 1)) with (Z.pos (digits2_pos p)) by lia.
  exact Hhi.
Qed.

Lemma log2_bounds n : 0 < n → 2 ^ Z.log2 n <= n < 2 ^ (Z.log2 n + 1).
Proof. intros H. pose proof (Z.log2_spec n H). rewrite <- Z.add_1_r in *. lia. Qed.

(** *** Right shifts with round and sticky bits *)

Lemma shr_1_nonneg m r s :
  0 <= m →
  shr_1 (Build_shr_record m r s) = Build_shr_record (m / 2) (Z.odd m) (r || s).
Proof.
  intros Hm. rewrite <- Z.div2_div.
  destruct m as [|[p|p|]|p]; try reflexivity; lia.
Qed.

Lemma iter_pos_nat {A} (f : A → A) p x :
  SpecFloat.iter_pos f p x = Nat.iter (Pos.to_nat p) f x.
Proof.
  revert x. induction p as [p IH|p IH|]; intros x; cbn [SpecFloat.iter_pos].
  - rewrite !IH. rewrite Pos2Nat.inj_xI.
    replace (S (2 * Pos.to_nat p))%nat with (Pos.to_nat p + (Pos.to_nat p + 1))%nat by lia.
    rewrite !Nat.iter_add. reflexivity.
  - rewrite !IH. rewrite Pos2Nat.inj_xO.
    replace (2 * Pos.to_nat p)%nat with (Pos.to_nat p + Pos.to_nat p)%nat by lia.
    rewrite Nat.iter_add. reflexivity.
  - reflexivity.
Qed.

Lemma mod_pow2_succ n k :
  0 <= k → n mod 2 ^ (k + 1) = n mod 2 ^ k + 2 ^ k * ((n / 2 ^ k) mod 2).
Proof.
  intros Hk. rewrite Z.pow_add_r by lia. change (2 ^ 1) with 2.
  apply Z.rem_mul_r; lia.
Qed.

Lemma shr_iter m k :
  0 <= m →
  Nat.iter k shr_1 (shr_record_of_loc m loc_Exact) =
  shr_record_of_loc (m / 2 ^ Z.of_nat k) (loc_of m (Z.of_nat k)).
Proof.
  intros Hm. induction k as [|k IH].
  - change (Nat.iter 0 shr_1 ?x) with x. unfold loc_of. change (2 ^ Z.of_nat 0) with 1.
    rewrite Z.div_1_r, Z.mod_1_r. reflexivity.
  - rewrite Nat.iter_succ, IH. clear IH.
    rewrite Nat2Z.inj_succ, <- Z.add_1_r.
    set (K := Z.of_nat k). assert (HK : 0 <= K) by lia.
    assert (Hp : 0 < 2 ^ K) by (apply Z.pow_pos_nonneg; lia).
    pose proof (Z.mod_pos_bound m (2 ^ K) Hp) as Hrem.
    pose proof (mod_pow2_succ m K HK) as Hsucc.
    assert (Hq : 0 <= m / 2 ^ K) by (apply Z.div_pos; lia).
    assert (Hdiv : m / 2 ^ (K + 1) = m / 2 ^ K / 2).
    { rewrite Z.pow_add_r by lia. change (2 ^ 1) with 2.
      rewrite Z.div_div by lia. reflexivity. }
    assert (Hpow : 2 ^ (K + 1) = 2 * 2 ^ K) by (rewrite Z.pow_add_r by lia; lia).
    pose proof (Z.mod_pos_bound (m / 2 ^ K) 2 ltac:(lia)) as Hbit.
    assert (Hodd : Z.odd (m / 2 ^ K) = ((m / 2 ^ K) mod 2 =? 1)).
    { rewrite Zmod_odd. destruct (Z.odd (m / 2 ^ K)); reflexivity. }
    rewrite Hdiv.
    unfold loc_of. rewrite Hsucc, Hpow.
    destruct (Z.eqb_spec (m mod 2 ^ K) 0) as [E0|E0].
    + rewrite E0. cbn [shr_record_of_loc]. rewrite shr_1_nonneg by exact Hq.
      rewrite Hodd.
      destruct (Z.eqb_spec ((m / 2 ^ K) mod 2) 1) as [E1|E1].
      * rewrite E1.
        destruct (Z.eqb_spec (0 + 2 ^ K * 1) 0); [lia|].
        replace (2 * (0 + 2 ^ K * 1) ?= 2 * 2 ^ K) with Eq
          by (symmetry; apply Z.compare_eq_iff; lia).
        reflexivity.
      * assert ((m / 2 ^ K) mod 2 = 0) as -> by lia.
        destruct (Z.eqb_spec (0 + 2 ^ K * 0) 0); [|lia]. reflexivity.
    + assert (Hrs : ∀ c, let r := shr_record_of_loc (m / 2 ^ K) (loc_Inexact c) in
                shr_1 r = Build_shr_record (m / 2 ^ K / 2) (Z.odd (m / 2 ^ K)) true).
      { intros c. destruct c; cbn [shr_record_of_loc]; rewrite shr_1_nonneg by exact Hq;
          reflexivity. }
      rewrite Hrs. rewrite Hodd.
      destruct (Z.eqb_spec ((m / 2 ^ K) mod 2) 1) as [E1|E1].
      * rewrite E1.
        destruct (Z.eqb_spec (m mod 2 ^ K + 2 ^ K * 1) 0); [lia|].
        replace (2 * (m mod 2 ^ K + 2 ^ K * 1) ?= 2 * 2 ^ K) with Gt
          by (symmetry; apply Z.compare_gt_iff; lia).
        reflexivity.
      * assert ((m / 2 ^ K) mod 2 = 0) as -> by lia.
        destruct (Z.eqb_spec (m mod 2 ^ K + 2 ^ K * 0) 0); [lia|].
        replace (2 * (m mod 2 ^ K + 2 ^ K * 0) ?= 2 * 2 ^ K) with Lt
          by (symmetry; apply Z.compare_lt_iff; lia).
        reflexivity.
Qed.

Lemma shr_exact m e n :
  0 <= m → 0 <= n →
  shr (shr_record_of_loc m loc_Exact) e n =
  (shr_record_of_loc (m / 2 ^ n) (loc_of m n), e + n).
Proof.
  intros Hm Hn. destruct n as [|p|p]; [| |lia].
  - cbn [shr]. unfold loc_of. change (2 ^ 0) with 1.
    rewrite Z.div_1_r, Z.mod_1_r, Z.add_0_r. reflexivity.
  - cbn [shr]. rewrite iter_pos_nat, shr_iter by exact Hm.
    rewrite positive_nat_Z. reflexivity.
Qed.

Lemma loc_of_shr_record_of_loc m l :
  loc_of_shr_record (shr_record_of_loc m l) = l.
Proof. destruct l as [|[]]; reflexivity. Qed.

Lemma shr_m_of_loc m l : shr_m (shr_record_of_loc m l) = m.
Proof. destruct l as [|[]]; reflexivity. Qed.

Lemma round_nearest_even_loc n k :
  round_nearest_even (n / 2 ^ k) (loc_of n k) = rne n k.
Proof.
  unfold loc_of, rne.
  destruct (Z.eqb_spec (n mod 2 ^ k) 0) as [E|E].
  - cbn [round_nearest_even]. rewrite E.
    destruct (Z.compare_spec (2 * 0) (2 ^ k)) as [H|H|H]; try reflexivity.
    + assert (2 ^ k = 0) as Hk by lia.
      destruct (Z.even (n / 2 ^ k)) eqn:Ev; [reflexivity|].
      exfalso. destruct (Z_lt_le_dec k 0) as [Hneg|Hpos].
      * rewrite Z.pow_neg_r in * by lia. rewrite Z.div_0_r in Ev. discriminate.
      * pose proof (Z.pow_pos_nonneg 2 k). lia.
    + exfalso. destruct (Z_lt_le_dec k 0) as [Hneg|Hpos].
      * rewrite Z.pow_neg_r in H by lia. lia.
      * pose proof (Z.pow_pos_nonneg 2 k). lia.
  - cbn [round_nearest_even].
    destruct (2 * (n mod 2 ^ k) ?= 2 ^ k); reflexivity.
Qed.

(** *** Left alignment *)

Lemma pos_iter_xO m d : Z.pos (Pos.iter xO m d) = Z.pos m * 2 ^ Z.pos d.
Proof.
  induction d as [|d IH] using Pos.peano_ind.
  - cbn [Pos.iter]. rewrite Pos2Z.inj_xO. change (2 ^ 1) with 2. lia.
  - rewrite Pos.iter_succ, Pos2Z.inj_xO, IH, Pos2Z.inj_succ, Z.pow_succ_r by lia. lia.
Qed.

Lemma shl_align_le m e e' :
  e' <= e →
  shl_align m e e' = (Z.to_pos (Z.pos m * 2 ^ (e - e')), e')
  ∧ Z.pos (Z.to_pos (Z.pos m * 2 ^ (e - e'))) = Z.pos m * 2 ^ (e - e').
Proof.
  intros H. unfold shl_align.
  assert (Hp : 0 < Z.pos m * 2 ^ (e - e')).
  { apply Z.mul_pos_pos; [lia|]. apply Z.pow_pos_nonneg; lia. }
  split; [|rewrite Z2Pos.id by exact Hp; reflexivity].
  destruct (e' - e) as [|d|d] eqn:E; [| lia |].
  - assert (e' = e) as -> by lia. rewrite Z.sub_diag, Z.mul_1_r. reflexivity.
  - f_equal. apply Pos2Z.inj. rewrite pos_iter_xO, Z2Pos.id by exact Hp.
    f_equal. f_equal. lia.
Qed.

Lemma shl_align_ge m e e' : e <= e' → shl_align m e e' = (m, e).
Proof. intros H. unfold shl_align. destruct (e' - e) eqn:E; try reflexivity. lia. Qed.

(** *** Rounding a scaled integer *)

Lemma pow2_pos k : 0 <= k → 0 < 2 ^ k.
Proof. intros. apply Z.pow_pos_nonneg; lia. Qed.

Lemma rne_scale x n a :
  0 <= n → 0 <= a → rne (x * 2 ^ a) (n + a) = rne x n.
Proof.
  intros Hn Ha. unfold rne.
  pose proof (pow2_pos n Hn). pose proof (pow2_pos a Ha).
  rewrite Z.pow_add_r by lia.
  rewrite Z.div_mul_cancel_r by lia.
  rewrite Z.mul_mod_distr_r by lia.
  replace (2 * (x mod 2 ^ n * 2 ^ a)) with (2 * (x mod 2 ^ n) * 2 ^ a) by lia.
  rewrite <- Zmult_compare_compat_r by lia. reflexivity.
Qed.

Lemma rne_bounds n k :
  0 <= k → n / 2 ^ k <= rne n k <= n / 2 ^ k + 1.
Proof.
  intros Hk. unfold rne.
  destruct (2 * (n mod 2 ^ k) ?= 2 ^ k); [destruct (Z.even _)| |]; lia.
Qed.

Lemma rne_0 n : rne n 0 = n.
Proof.
  unfold rne. change (2 ^ 0) with 1. rewrite Z.mod_1_r, Z.div_1_r. reflexivity.
Qed.

Lemma shift_nonneg n : 0 <= shift n.
Proof. unfold shift. lia. Qed.

Lemma shift_small n : 0 < n → shift n = 0 → n < 2 ^ 53.
Proof.
  intros Hn Hs. unfold shift in Hs. pose proof (log2_bounds n Hn) as [_ Hhi].
  eapply Z.lt_le_trans; [exact Hhi|]. apply Z.pow_le_mono_r; lia.
Qed.

Lemma shift_large n :
  0 < n → 0 < shift n → 2 ^ 52 * 2 ^ shift n <= n < 2 ^ 53 * 2 ^ shift n.
Proof.
  intros Hn Hs. unfold shift in *. pose proof (log2_bounds n Hn) as [Hlo Hhi].
  pose proof (Z.log2_nonneg n).
  rewrite <- !Z.pow_add_r by lia.
  replace (Z.max (Z.log2 n + 1 - 53) 0) with (Z.log2 n + 1 - 53) by lia.
  replace (52 + (Z.log2 n + 1 - 53)) with (Z.log2 n) by lia.
  replace (53 + (Z.log2 n + 1 - 53)) with (Z.log2 n + 1) by lia.
  lia.
Qed.

Lemma rne_shift_bounds n :
  0 < n →
  1 <= rne n (shift n) <= 2 ^ 53 ∧ (0 < shift n → 2 ^ 52 <= rne n (shift n)).
Proof.
  intros Hn. destruct (Z.eq_dec (shift n) 0) as [E|E].
  - rewrite E, rne_0. pose proof (shift_small n Hn E). lia.
  - pose proof (shift_nonneg n). assert (Hs : 0 < shift n) by lia.
    pose proof (shift_large n Hn Hs) as [Hlo Hhi].
    pose proof (pow2_pos (shift n) ltac:(lia)) as Hp.
    pose proof (rne_bounds n (shift n) ltac:(lia)) as [Hq1 Hq2].
    assert (2 ^ 52 <= n / 2 ^ shift n).
    { apply Z.div_le_lower_bound; lia. }
    assert (n / 2 ^ shift n < 2 ^ 53).
    { apply Z.div_lt_upper_bound; lia. }
    lia.
Qed.

End ExactFacts.

Module RoundFacts.
Import Exact Binary64 Binary64Facts ExactFacts.

Lemma fexp_eq k : fexp prec emax k = Z.max (k - 53) (-1074).
Proof. reflexivity. Qed.

Lemma Zdigits2_log2 q : 0 < q → Zdigits2 q = Z.log2 q + 1.
Proof. destruct q; [lia|intros _; apply digits2_log2|lia]. Qed.

Lemma log2_lt_53 q : 0 < q → q < 2 ^ 53 → Z.log2 q < 53.
Proof. intros H1 H2. apply Z.log2_lt_pow2; assumption. Qed.

Lemma log2_ge_52 q : 2 ^ 52 <= q → 52 <= Z.log2 q.
Proof. intros H. apply Z.log2_le_pow2; lia. Qed.

(** The second normalisation step of [binary_round_aux]. *)
Lemma round_tail q fe :
  1 <= q <= 2 ^ 53 → -1074 <= fe → (-1074 < fe → 2 ^ 52 <= q) →
  (let '(mrs, e') := shr_fexp prec emax q fe loc_Exact in
   match shr_m mrs with
   | 0 => S754_zero false
   | Z.pos m => if e' <=? emax - prec then S754_finite false m e' else S754_infinity false
   | Z.neg _ => S754_nan
   end) = finish q (fe + 1074).
Proof.
  intros Hq Hfe Hnorm. unfold shr_fexp, finish.
  rewrite Zdigits2_log2, fexp_eq by lia.
  destruct (Z.eqb_spec q (2 ^ 53)) as [E|E].
  - subst q. change (Z.log2 (2 ^ 53)) with 53.
    replace (Z.max (53 + 1 + fe - 53) (-1074) - fe) with 1 by lia.
    replace (fe + 1074 + 1 - 1074) with (fe + 1) by lia.
    reflexivity.
  - assert (Hlt : q < 2 ^ 53) by lia.
    pose proof (log2_lt_53 q ltac:(lia) Hlt) as Hl.
    assert (Hz : Z.max (Z.log2 q + 1 + fe - 53) (-1074) - fe = 0).
    { destruct (Z.eq_dec fe (-1074)) as [->|Hne]; [lia|].
      pose proof (log2_ge_52 q (Hnorm ltac:(lia))). lia. }
    rewrite Hz. cbn [shr]. rewrite shr_m_of_loc.
    replace (fe + 1074 - 1074) with fe by lia.
    destruct q as [|p|p]; [lia| |lia]. reflexivity.
Qed.

(** [binary_round] on a positive number is a function of its value in units
    of 2^-1074. *)
Lemma binary_round_scaled m e :
  -1074 <= e →
  binary_round prec emax false m e = round (Z.pos m * 2 ^ (e + 1074)).
Proof.
  intros He. set (N := Z.pos m * 2 ^ (e + 1074)).
  assert (HN : 0 < N).
  { apply Z.mul_pos_pos; [lia|]. apply pow2_pos. lia. }
  assert (Hlog : Z.log2 N = e + 1074 + Z.log2 (Z.pos m)) by (apply Z.log2_mul_pow2; lia).
  unfold binary_round. rewrite digits2_log2, fexp_eq.
  set (fe := Z.max (Z.log2 (Z.pos m) + 1 + e - 53) (-1074)).
  assert (Hk : shift N = fe + 1074) by (unfold shift; rewrite Hlog; lia).
  assert (Hal : ∃ mz ez, shl_align m e fe = (mz, ez) ∧ ez <= fe ∧ -1074 <= ez
                         ∧ Z.pos mz * 2 ^ (ez + 1074) = N).
  { destruct (Z_lt_le_dec fe e) as [Hlt|Hge].
    - destruct (shl_align_le m e fe) as [H1 H2]; [lia|].
      eexists _, _; split; [exact H1|]. split; [lia|]. split; [lia|].
      rewrite H2. unfold N. rewrite <- Z.mul_assoc, <- Z.pow_add_r by lia.
      f_equal; f_equal; lia.
    - rewrite shl_align_ge by lia. eexists _, _; split; [reflexivity|].
      repeat split; lia. }
  destruct Hal as (mz & ez & -> & Hez & Hez' & HNz).
  assert (Hlz : Z.log2 (Z.pos mz) + ez = Z.log2 (Z.pos m) + e).
  { assert (Z.log2 N = ez + 1074 + Z.log2 (Z.pos mz))
      by (rewrite <- HNz; apply Z.log2_mul_pow2; lia). lia. }
  unfold binary_round_aux. unfold shr_fexp at 1.
  rewrite Zdigits2_log2 by lia. rewrite fexp_eq.
  replace (Z.max (Z.log2 (Z.pos mz) + 1 + ez - 53) (-1074)) with fe by lia.
  rewrite shr_exact by lia.
  rewrite loc_of_shr_record_of_loc, shr_m_of_loc, round_nearest_even_loc.
  replace (rne (Z.pos mz) (fe - ez)) with (rne N (shift N)).
  2: { rewrite Hk, <- HNz. replace (fe + 1074) with ((fe - ez) + (ez + 1074)) by lia.
       apply rne_scale; lia. }
  replace (ez + (fe - ez)) with fe by lia.
  destruct (rne_shift_bounds N HN) as [Hq Hq'].
  rewrite round_tail; [ | lia | lia | intros; apply Hq'; lia].
  unfold round. rewrite Hk. reflexivity.
Qed.

End RoundFacts.

Module OrderFacts.
Import Exact Binary64 Binary64Facts ExactFacts RoundFacts.

(** *** Canonical mantissas *)

Lemma bounded_intro m e :
  (2 ^ 52 <= Z.pos m < 2 ^ 53 ∧ -1074 <= e <= 971) ∨ (Z.pos m < 2 ^ 52 ∧ e = -1074) →
  bounded prec emax m e = true.
Proof.
  intros H. unfold bounded, canonical_mantissa. rewrite digits2_log2, fexp_eq.
  apply andb_true_iff. rewrite Z.eqb_eq, Z.leb_le. unfold emax, prec.
  destruct H as [[Hm He]|[Hm He]].
  - pose proof (log2_lt_53 (Z.pos m) ltac:(lia) ltac:(lia)).
    pose proof (log2_ge_52 (Z.pos m) ltac:(lia)). lia.
  - assert (Z.log2 (Z.pos m) < 52) by (apply Z.log2_lt_pow2; lia). lia.
Qed.

(** *** The order of canonical floats is the order of their values *)

Lemma compare_pos m1 e1 m2 e2 :
  bounded prec emax m1 e1 = true → bounded prec emax m2 e2 = true →
  match e1 ?= e2 with
  | Lt => Lt
  | Gt => Gt
  | Eq => Pos.compare_cont Eq m1 m2
  end = (Z.pos m1 * 2 ^ (e1 + 1074) ?= Z.pos m2 * 2 ^ (e2 + 1074)).
Proof.
  intros H1 H2. apply bounded_cases in H1, H2.
  assert (He1 : -1074 <= e1) by lia. assert (He2 : -1074 <= e2) by lia.
  assert (Hm1 : Z.pos m1 < 2 ^ 53) by lia. assert (Hm2 : Z.pos m2 < 2 ^ 53) by lia.
  destruct (Z.compare_spec e1 e2) as [E|E|E].
  - subst e2. pose proof (pow2_pos (e1 + 1074) ltac:(lia)).
    rewrite <- (Zmult_compare_compat_r (Z.pos m1) (Z.pos m2) (2 ^ (e1 + 1074))) by lia.
    reflexivity.
  - symmetry. apply Z.compare_lt_iff.
    assert (Hn : 2 ^ 52 <= Z.pos m2) by lia.
    replace (e2 + 1074) with ((e1 + 1074) + (e2 - e1)) by lia.
    rewrite (Z.pow_add_r 2 (e1 + 1074) (e2 - e1)) by lia.
    pose proof (pow2_pos (e1 + 1074) ltac:(lia)) as HA.
    assert (HB : 2 ^ 1 <= 2 ^ (e2 - e1)) by (apply Z.pow_le_mono_r; lia).
    change (2 ^ 1) with 2 in HB.
    set (A := 2 ^ (e1 + 1074)) in *. set (B := 2 ^ (e2 - e1)) in *.
    assert (Z.pos m1 * A < 2 ^ 53 * A) by (apply Z.mul_lt_mono_pos_r; lia).
    assert (2 ^ 52 * (A * B) <= Z.pos m2 * (A * B)) by (apply Z.mul_le_mono_nonneg_r; nia).
    assert (2 * A <= A * B) by nia.
    lia.
  - symmetry. apply Z.compare_gt_iff.
    assert (Hn : 2 ^ 52 <= Z.pos m1) by lia.
    replace (e1 + 1074) with ((e2 + 1074) + (e1 - e2)) by lia.
    rewrite (Z.pow_add_r 2 (e2 + 1074) (e1 - e2)) by lia.
    pose proof (pow2_pos (e2 + 1074) ltac:(lia)) as HA.
    assert (HB : 2 ^ 1 <= 2 ^ (e1 - e2)) by (apply Z.pow_le_mono_r; lia).
    change (2 ^ 1) with 2 in HB.
    set (A := 2 ^ (e2 + 1074)) in *. set (B := 2 ^ (e1 - e2)) in *.
    assert (Z.pos m2 * A < 2 ^ 53 * A) by (apply Z.mul_lt_mono_pos_r; lia).
    assert (2 ^ 52 * (A * B) <= Z.pos m1 * (A * B)) by (apply Z.mul_le_mono_nonneg_r; nia).
    assert (2 * A <= A * B) by nia.
    lia.
Qed.

Lemma scaled_pos_finite (s : bool) m e :
  -1074 <= e → 0 < Z.pos m * 2 ^ (e + 1074).
Proof. intros. apply Z.mul_pos_pos; [lia|]. apply pow2_pos. lia. Qed.

Lemma compare_scaled x y :
  is_valid x = true → is_valid y = true →
  isfinite x = true → isfinite y = true →
  SFcompare x y = Some (scaled x ?= scaled y).
Proof.
  destruct x as [sx|sx| |sx mx ex], y as [sy|sy| |sy my ey];
    cbn [is_valid valid_binary isfinite]; try discriminate; intros Hx Hy _ _.
  - reflexivity.
  - pose proof (bounded_cases _ _ Hy).
    pose proof (scaled_pos_finite sy my ey ltac:(lia)).
    cbn [SFcompare scaled]. f_equal. symmetry.
    destruct sy; [apply Z.compare_gt_iff|apply Z.compare_lt_iff]; lia.
  - pose proof (bounded_cases _ _ Hx).
    pose proof (scaled_pos_finite sx mx ex ltac:(lia)).
    cbn [SFcompare scaled]. f_equal. symmetry.
    destruct sx; [apply Z.compare_lt_iff|apply Z.compare_gt_iff]; lia.
  - pose proof (bounded_cases _ _ Hx). pose proof (bounded_cases _ _ Hy).
    pose proof (scaled_pos_finite sx mx ex ltac:(lia)).
    pose proof (scaled_pos_finite sy my ey ltac:(lia)).
    cbn [SFcompare scaled]. f_equal.
    destruct sx, sy.
    + replace (-1 * (Z.pos mx * 2 ^ (ex + 1074))) with (- (Z.pos mx * 2 ^ (ex + 1074))) by lia.
      replace (-1 * (Z.pos my * 2 ^ (ey + 1074))) with (- (Z.pos my * 2 ^ (ey + 1074))) by lia.
      rewrite Z.compare_opp.
      rewrite <- (compare_pos my ey mx ex Hy Hx).
      rewrite (Z.compare_antisym ey ex), (Pos.compare_cont_antisym mx my Eq).
      destruct (ey ?= ex); reflexivity.
    + symmetry. apply Z.compare_lt_iff. lia.
    + symmetry. apply Z.compare_gt_iff. lia.
    + rewrite !Z.mul_1_l. apply compare_pos; assumption.
Qed.

Lemma le_scaled x y :
  is_valid x = true → is_valid y = true →
  isfinite x = true → isfinite y = true →
  le x y = true ↔ scaled x <= scaled y.
Proof.
  intros Hx Hy Fx Fy. unfold le, SFleb. rewrite compare_scaled by assumption.
  destruct (Z.compare_spec (scaled x) (scaled y)); split; intros; try lia; try discriminate;
    reflexivity.
Qed.

End OrderFacts.

Module MonotoneFacts.
Import Exact Binary64 Binary64Facts ExactFacts RoundFacts OrderFacts.

(** *** The shape of a rounded result *)

Lemma round_cases n :
  0 < n →
  (round n = S754_infinity false ∧ 2 ^ 2098 <= rounded n)
  ∨ (∃ p e, round n = S754_finite false p e ∧ bounded prec emax p e = true
            ∧ Z.pos p * 2 ^ (e + 1074) = rounded n ∧ rounded n < 2 ^ 2098).
Proof.
  intros Hn. unfold round, rounded, finish.
  destruct (rne_shift_bounds n Hn) as [Hq Hq'].
  pose proof (shift_nonneg n) as Hk.
  set (q := rne n (shift n)) in *. set (k := shift n) in *.
  pose proof (pow2_pos k Hk) as Hp.
  destruct (Z.eqb_spec q (2 ^ 53)) as [E|E].
  - rewrite E. destruct (Z.leb_spec (k + 1 - 1074) 971) as [L|L].
    + right. exists (Z.to_pos (2 ^ 52)), (k + 1 - 1074).
      split; [reflexivity|]. split; [apply bounded_intro; left; simpl; lia|].
      replace (k + 1 - 1074 + 1074) with (k + 1) by lia.
      rewrite Z.pow_add_r by lia. split; [simpl; lia|].
      assert (2 ^ k <= 2 ^ 2044) by (apply Z.pow_le_mono_r; lia).
      change (2 ^ 2098) with (2 ^ 53 * (2 * 2 ^ 2044)). lia.
    + left. split; [reflexivity|].
      assert (2 ^ 2045 <= 2 ^ k) by (apply Z.pow_le_mono_r; lia).
      change (2 ^ 2098) with (2 ^ 53 * 2 ^ 2045). lia.
  - assert (Hlt : q < 2 ^ 53) by lia.
    destruct (Z.leb_spec (k - 1074) 971) as [L|L].
    + right. destruct q as [|p|p] eqn:Eq; [lia| |lia].
      exists p, (k - 1074). split; [reflexivity|]. split.
      * apply bounded_intro. destruct (Z.eq_dec k 0) as [K0|K0].
        -- destruct (Z_lt_le_dec (Z.pos p) (2 ^ 52)); [right|left]; lia.
        -- left. split; [split; [apply Hq'|]|]; lia.
      * replace (k - 1074 + 1074) with k by lia. split; [reflexivity|].
        assert (2 ^ k <= 2 ^ 2045) by (apply Z.pow_le_mono_r; lia).
        change (2 ^ 2098) with (2 ^ 53 * 2 ^ 2045). nia.
    + left. split; [reflexivity|].
      assert (2 ^ 2046 <= 2 ^ k) by (apply Z.pow_le_mono_r; lia).
      assert (2 ^ 52 <= q) by (apply Hq'; lia).
      change (2 ^ 2098) with (2 ^ 52 * 2 ^ 2046). nia.
Qed.

Lemma round_gt_zero n : 0 < n → gt (round n) zero = true.
Proof.
  intros Hn. destruct (round_cases n Hn) as [[-> _]|(p & e & -> & _)]; reflexivity.
Qed.

(** *** Rounding is monotone *)

Lemma rne_mono n1 n2 k : 0 <= k → n1 <= n2 → rne n1 k <= rne n2 k.
Proof.
  intros Hk Hle. pose proof (pow2_pos k Hk) as Hp.
  pose proof (Z.div_le_mono n1 n2 (2 ^ k) Hp Hle) as Hq.
  pose proof (rne_bounds n1 k Hk). pose proof (rne_bounds n2 k Hk).
  destruct (Z_lt_le_dec (n1 / 2 ^ k) (n2 / 2 ^ k)) as [Hlt|Hge]; [lia|].
  assert (Heq : n1 / 2 ^ k = n2 / 2 ^ k) by lia.
  assert (Hr : n1 mod 2 ^ k <= n2 mod 2 ^ k).
  { rewrite !Zmod_eq_full by lia. rewrite Heq. lia. }
  unfold rne. rewrite Heq.
  destruct (Z.compare_spec (2 * (n1 mod 2 ^ k)) (2 ^ k));
    destruct (Z.compare_spec (2 * (n2 mod 2 ^ k)) (2 ^ k));
    try lia; destruct (Z.even (n2 / 2 ^ k)); lia.
Qed.

Lemma shift_mono n1 n2 : n1 <= n2 → shift n1 <= shift n2.
Proof. intros H. unfold shift. pose proof (Z.log2_le_mono n1 n2 H). lia. Qed.

Lemma rounded_mono n1 n2 : 0 < n1 → n1 <= n2 → rounded n1 <= rounded n2.
Proof.
  intros Hn1 Hle. assert (Hn2 : 0 < n2) by lia. unfold rounded.
  pose proof (shift_mono n1 n2 Hle) as Hs.
  pose proof (shift_nonneg n1) as Hk1. pose proof (shift_nonneg n2) as Hk2.
  destruct (rne_shift_bounds n1 Hn1) as [Hq1 _].
  destruct (rne_shift_bounds n2 Hn2) as [Hq2 Hq2'].
  destruct (Z.eq_dec (shift n1) (shift n2)) as [E|E].
  - rewrite E. apply Z.mul_le_mono_nonneg_r; [pose proof (pow2_pos _ Hk2); lia|].
    rewrite <- E at 1. rewrite E. apply rne_mono; lia.
  - assert (Hlt : shift n1 + 1 <= shift n2) by lia.
    assert (H52 : 2 ^ 52 <= rne n2 (shift n2)) by (apply Hq2'; lia).
    assert (Hp : 2 ^ (shift n1 + 1) <= 2 ^ shift n2) by (apply Z.pow_le_mono_r; lia).
    rewrite Z.pow_add_r in Hp by lia. change (2 ^ 1) with 2 in Hp.
    pose proof (pow2_pos _ Hk1). pose proof (pow2_pos _ Hk2).
    set (A := 2 ^ shift n1) in *. set (B := 2 ^ shift n2) in *.
    set (q1 := rne n1 (shift n1)) in *. set (q2 := rne n2 (shift n2)) in *.
    assert (q1 * A <= 2 ^ 53 * A) by (apply Z.mul_le_mono_nonneg_r; lia).
    assert (2 ^ 52 * B <= q2 * B) by (apply Z.mul_le_mono_nonneg_r; lia).
    lia.
Qed.

Lemma round_mono n1 n2 : 0 < n1 → n1 <= n2 → le (round n1) (round n2) = true.
Proof.
  intros Hn1 Hle. assert (Hn2 : 0 < n2) by lia.
  pose proof (rounded_mono n1 n2 Hn1 Hle) as Hv.
  destruct (round_cases n2 Hn2) as [[-> _]|(p2 & e2 & -> & B2 & V2 & L2)].
  - destruct (round_cases n1 Hn1) as [[-> _]|(p1 & e1 & -> & _)]; reflexivity.
  - destruct (round_cases n1 Hn1) as [[_ L1]|(p1 & e1 & -> & B1 & V1 & _)]; [lia|].
    unfold le, SFleb. cbn [SFcompare]. rewrite (compare_pos p1 e1 p2 e2 B1 B2).
    rewrite V1, V2.
    destruct (Z.compare_spec (rounded n1) (rounded n2)); try reflexivity. lia.
Qed.

(** Rounding a canonical number returns it. *)
Lemma round_canonical m e :
  bounded prec emax m e = true → round (Z.pos m * 2 ^ (e + 1074)) = S754_finite false m e.
Proof.
  intros Hb. apply bounded_cases in Hb.
  assert (He : 0 <= e + 1074) by lia.
  assert (Hs : shift (Z.pos m * 2 ^ (e + 1074)) = if 2 ^ 52 <=? Z.pos m then e + 1074 else 0).
  { unfold shift. rewrite Z.log2_mul_pow2 by lia.
    destruct (Z.leb_spec (2 ^ 52) (Z.pos m)) as [L|L].
    - pose proof (log2_ge_52 _ L).
      pose proof (log2_lt_53 (Z.pos m) ltac:(lia) ltac:(lia)). lia.
    - assert (Z.log2 (Z.pos m) < 52) by (apply Z.log2_lt_pow2; lia). lia. }
  unfold round. rewrite Hs.
  destruct (Z.leb_spec (2 ^ 52) (Z.pos m)) as [L|L].
  - replace (e + 1074) with (0 + (e + 1074)) at 2 by lia.
    rewrite rne_scale, rne_0 by lia.
    unfold finish. destruct (Z.eqb_spec (Z.pos m) (2 ^ 53)); [lia|].
    replace (e + 1074 - 1074) with e by lia.
    destruct (Z.leb_spec e 971); [reflexivity|lia].
  - assert (e = -1074) as -> by lia. cbn [Z.add]. rewrite Z.mul_1_r, rne_0.
    unfold finish. destruct (Z.eqb_spec (Z.pos m) (2 ^ 53)); [lia|]. reflexivity.
Qed.

End MonotoneFacts.

Module TimeoutFacts.
Import Exact Binary64 Binary64Facts ExactFacts RoundFacts OrderFacts MonotoneFacts.

(** *** Subtraction, then [max(0.0, _)] *)

Lemma binary_round_neg m e : gt (binary_round prec emax true m e) zero = false.
Proof.
  unfold binary_round, binary_round_aux.
  destruct (shl_align m e _) as [mz ez].
  destruct (shr_fexp prec emax (Z.pos mz) ez loc_Exact) as [mrs e'].
  destruct (shr_fexp prec emax _ e' loc_Exact) as [mrs' e''].
  destruct (shr_m mrs'); [reflexivity| |reflexivity].
  destruct (e'' <=? emax - prec); reflexivity.
Qed.

Lemma max_zero_nan_or_nonpositive x : gt x zero = false → max zero x = zero.
Proof. intros H. unfold max. rewrite H. reflexivity. Qed.

Lemma scaled_finite s m e :
  scaled (S754_finite s m e) = (if s then -1 else 1) * (Z.pos m * 2 ^ (e + 1074)).
Proof. reflexivity. Qed.

Lemma timeout_of_pos m e :
  bounded prec emax m e = true →
  timeout_of (Z.pos m * 2 ^ (e + 1074)) = S754_finite false m e.
Proof.
  intros Hb. pose proof (bounded_cases _ _ Hb).
  pose proof (scaled_pos_finite false m e ltac:(lia)) as Hp.
  unfold timeout_of. destruct (Z.ltb_spec 0 (Z.pos m * 2 ^ (e + 1074))); [|lia].
  by apply round_canonical.
Qed.

Lemma timeout_of_nonpos d : d <= 0 → timeout_of d = zero.
Proof. intros H. unfold timeout_of. destruct (Z.ltb_spec 0 d); [lia|reflexivity]. Qed.

Lemma max_zero_sub x y :
  is_valid x = true → is_valid y = true →
  isfinite x = true → isfinite y = true →
  max zero (sub x y) = timeout_of (scaled x - scaled y).
Proof.
  destruct x as [sx|sx| |sx mx ex], y as [sy|sy| |sy my ey];
    cbn [is_valid valid_binary isfinite]; try discriminate; intros Hx Hy _ _.
  - destruct sx, sy; reflexivity.
  - pose proof (bounded_cases _ _ Hy).
    pose proof (scaled_pos_finite false my ey ltac:(lia)) as Hp.
    cbn [sub SFsub]. rewrite scaled_finite. cbn [scaled].
    destruct sy; cbn [negb].
    + replace (0 - -1 * (Z.pos my * 2 ^ (ey + 1074))) with (Z.pos my * 2 ^ (ey + 1074)) by lia.
      rewrite timeout_of_pos by exact Hy. reflexivity.
    + rewrite timeout_of_nonpos by lia. reflexivity.
  - pose proof (bounded_cases _ _ Hx).
    pose proof (scaled_pos_finite false mx ex ltac:(lia)) as Hp.
    cbn [sub SFsub]. rewrite scaled_finite. cbn [scaled].
    destruct sx.
    + rewrite timeout_of_nonpos by lia. reflexivity.
    + replace (1 * (Z.pos mx * 2 ^ (ex + 1074)) - 0) with (Z.pos mx * 2 ^ (ex + 1074)) by lia.
      rewrite timeout_of_pos by exact Hx. reflexivity.
  - pose proof (bounded_cases _ _ Hx). pose proof (bounded_cases _ _ Hy).
    assert (Hex : -1074 <= ex) by lia. assert (Hey : -1074 <= ey) by lia.
    unfold sub. cbn [SFsub]. rewrite !scaled_finite.
    pose proof (Z.le_min_l ex ey) as Hzx. pose proof (Z.le_min_r ex ey) as Hzy.
    assert (Hez : -1074 <= Z.min ex ey) by lia.
    set (ez := Z.min ex ey) in *.
    destruct (shl_align_le mx ex ez Hzx) as [-> Hmx].
    destruct (shl_align_le my ey ez Hzy) as [-> Hmy].
    cbn [fst]. rewrite Hmx, Hmy.
    set (M := cond_Zopp sx (Z.pos mx * 2 ^ (ex - ez)) - cond_Zopp sy (Z.pos my * 2 ^ (ey - ez))).
    assert (HM : (if sx then -1 else 1) * (Z.pos mx * 2 ^ (ex + 1074))
                 - (if sy then -1 else 1) * (Z.pos my * 2 ^ (ey + 1074))
                 = M * 2 ^ (ez + 1074)).
    { unfold M.
      replace (ex + 1074) with ((ex - ez) + (ez + 1074)) by lia.
      replace (ey + 1074) with ((ey - ez) + (ez + 1074)) by lia.
      rewrite (Z.pow_add_r 2 (ex - ez) (ez + 1074)), (Z.pow_add_r 2 (ey - ez) (ez + 1074)) by lia.
      generalize (2 ^ (ex - ez)) (2 ^ (ey - ez)) (2 ^ (ez + 1074)). intros a b c.
      destruct sx, sy; cbn [cond_Zopp]; ring. }
    rewrite HM. pose proof (pow2_pos (ez + 1074) ltac:(lia)) as Hp.
    destruct M as [|p|p]; cbn [binary_normalize].
    + reflexivity.
    + rewrite binary_round_scaled by exact Hez.
      unfold timeout_of. destruct (Z.ltb_spec 0 (Z.pos p * 2 ^ (ez + 1074))); [|lia].
      unfold max. rewrite round_gt_zero by lia. reflexivity.
    + rewrite max_zero_nan_or_nonpositive by apply binary_round_neg.
      rewrite timeout_of_nonpos by lia. reflexivity.
Qed.

(** *** The three facts about [max(0.0, deadline - now)] *)

Lemma timeout_of_nonneg d : ge (timeout_of d) zero = true.
Proof.
  unfold timeout_of. destruct (Z.ltb_spec 0 d) as [H|H]; [|reflexivity].
  destruct (round_cases d H) as [[-> _]|(p & e & -> & _)]; reflexivity.
Qed.

Lemma timeout_of_mono d1 d2 : d1 <= d2 → le (timeout_of d1) (timeout_of d2) = true.
Proof.
  intros H. unfold timeout_of.
  destruct (Z.ltb_spec 0 d1) as [H1|H1], (Z.ltb_spec 0 d2) as [H2|H2]; try lia.
  - by apply round_mono.
  - destruct (round_cases d2 H2) as [[-> _]|(p & e & -> & _)]; reflexivity.
  - reflexivity.
Qed.

Lemma max_zero_nonneg x : ge (max zero x) zero = true.
Proof.
  unfold max, gt, ge. destruct (SFcompare x zero) as [[]|] eqn:E; try reflexivity.
  rewrite E. reflexivity.
Qed.

Lemma le_zero_of_ge x : ge x zero = true → le zero x = true.
Proof. destruct x as [[]|[]| |[] m e]; cbn; intros; try discriminate; reflexivity. Qed.

Lemma le_inf_of_ge x : ge x zero = true → le x (S754_infinity false) = true.
Proof. destruct x as [[]|[]| |[] m e]; cbn; intros; try discriminate; reflexivity. Qed.

Lemma timeout_mono d t1 t2 :
  is_valid d = true → is_valid t1 = true → is_valid t2 = true →
  le t1 t2 = true →
  le (max zero (sub d t2)) (max zero (sub d t1)) = true.
Proof.
  intros Hd H1 H2 Hle.
  destruct (isfinite d) eqn:Fd, (isfinite t1) eqn:F1, (isfinite t2) eqn:F2.
  - rewrite !max_zero_sub by assumption. apply timeout_of_mono.
    apply le_scaled in Hle; try assumption. lia.
  - (* t2 is +inf: the second timeout is zero *)
    destruct t2 as [?|[]| |]; try discriminate.
    + destruct t1 as [?|[]| |[]]; discriminate.
    + replace (max zero (sub d (S754_infinity false))) with zero
        by (destruct d as [?|[]| |]; try discriminate; reflexivity).
      apply le_zero_of_ge, max_zero_nonneg.
    + destruct t1; discriminate.
  - (* t1 is -inf: the first timeout is +inf *)
    destruct t1 as [?|[]| |]; try discriminate.
    + replace (max zero (sub d (S754_infinity true))) with (S754_infinity false)
        by (destruct d as [?|[]| |]; try discriminate; reflexivity).
      apply le_inf_of_ge, max_zero_nonneg.
    + destruct t2 as [?|[]| |[]]; discriminate.
  - destruct t1 as [?|[]| |], t2 as [?|[]| |]; try discriminate;
      destruct d as [?|[]| |]; try discriminate; reflexivity.
  - destruct d as [?|[]| |]; try discriminate.
    + (* d = +inf *)
      destruct t2 as [[]|[]| |[]]; try discriminate;
        destruct t1 as [[]|[]| |[]]; try discriminate; reflexivity.
    + destruct t1 as [?|[]| |], t2 as [?|[]| |]; try discriminate; reflexivity.
    + destruct t1 as [?|[]| |], t2 as [?|[]| |]; try discriminate; reflexivity.
  - destruct d as [?|[]| |]; try discriminate;
      destruct t1 as [[]|[]| |[]], t2 as [?|[]| |]; try discriminate; reflexivity.
  - destruct d as [?|[]| |]; try discriminate;
      destruct t1 as [?|[]| |], t2 as [[]|[]| |[]]; try discriminate; reflexivity.
  - destruct d as [?|[]| |]; try discriminate;
      destruct t1 as [?|[]| |], t2 as [?|[]| |]; try discriminate; reflexivity.
Qed.

End TimeoutFacts.

(** * The monad *)

Lemma bind_ok {A B} (m : M A) (f : A → M B) w a w' :
  m w = (Ok a, w') → (m ≫= f) w = f a w'.
Proof. intros H. unfold mbind, M_bind. by rewrite H. Qed.

Lemma bind_raise {A B} (m : M A) (f : A → M B) w e w' :
  m w = (Raise e, w') → (m ≫= f) w = (Raise e, w').
Proof. intros H. unfold mbind, M_bind. by rewrite H. Qed.

Lemma snd_bind_ret {A B} (m : M A) (b : B) w :
  snd ((m ≫= λ _, mret b) w) = snd (m w).
Proof. unfold mbind, M_bind. by destruct (m w) as [[a|e] w']. Qed.

(** * The store *)

Lemma tensor_bytes_insert ref b w :
  tensor_bytes ref (set_tensors (insert ref b) w) = b.
Proof. unfold tensor_bytes, set_tensors; simpl. by rewrite lookup_insert_eq. Qed.

Lemma tensor_bytes_add_warning ref msg w :
  tensor_bytes ref (add_warning msg w) = tensor_bytes ref w.
Proof. reflexivity. Qed.

Lemma same_but_refl ref w : same_but ref w w.
Proof. repeat split; eauto. exists []. by rewrite app_nil_r. Qed.

Lemma same_but_trans ref w1 w2 w3 :
  same_but ref w1 w2 → same_but ref w2 w3 → same_but ref w1 w3.
Proof.
  intros (Hf & Ht & [m1 Hm1] & Hr) (Hf' & Ht' & [m2 Hm2] & Hr').
  repeat split; [congruence|congruence| |].
  - exists (m1 ++ m2). rewrite Hm2, Hm1. by rewrite app_assoc.
  - intros r Hne. rewrite Hr' by done. by apply Hr.
Qed.

Lemma same_but_add_warning ref msg w : same_but ref w (add_warning msg w).
Proof. repeat split; eauto. Qed.

Lemma same_but_insert ref b w : same_but ref w (set_tensors (insert ref b) w).
Proof.
  repeat split; simpl.
  - exists []. by rewrite app_nil_r.
  - intros r Hne. by rewrite lookup_insert_ne.
Qed.

Lemma same_but_when ref (c : bool) msg w :
  ∃ w', when c (logger_warning msg) w = (Ok (), w') ∧ same_but ref w w'
        ∧ tensors w' = tensors w.
Proof.
  destruct c; simpl.
  - eexists; split; [reflexivity|]. split; [apply same_but_add_warning|done].
  - eexists; split; [reflexivity|]. split; [apply same_but_refl|done].
Qed.

(** * Tensor accesses within bounds *)

Lemma view_length (b : list Z) a :
  (a + 8 <= length b)%nat → length (take 8 (drop a b)) = 8%nat.
Proof. intros H. rewrite length_take, length_drop. lia. Qed.

Lemma struct_unpack_d_eq ref a w :
  (a + 8 <= length (tensor_bytes ref w))%nat →
  struct_unpack_d ref a w =
    (Ok (Binary64.unpack_d (take 8 (drop a (tensor_bytes ref w)))), w).
Proof.
  intros H. unfold struct_unpack_d. cbv zeta.
  rewrite view_length by exact H. reflexivity.
Qed.

Lemma struct_pack_into_d_eq ref a x w :
  (a + 8 <= length (tensor_bytes ref w))%nat →
  struct_pack_into_d ref a x w =
    (Ok (), set_tensors
              (insert ref (list_inserts a (Binary64.pack_d x) (tensor_bytes ref w))) w).
Proof.
  intros H. unfold struct_pack_into_d. cbv zeta.
  rewrite view_length by exact H. reflexivity.
Qed.

Lemma tensor_item_eq ref i w :
  (i < length (tensor_bytes ref w))%nat →
  tensor_item ref i w = (Ok (default 0 (tensor_bytes ref w !! i)), w).
Proof.
  intros H. unfold tensor_item.
  destruct (tensor_bytes ref w !! i) eqn:E; [reflexivity|].
  apply lookup_ge_None in E. lia.
Qed.

Lemma tensor_setitem_eq ref i v w :
  (i < length (tensor_bytes ref w))%nat →
  tensor_setitem ref i v w =
    (Ok (), set_tensors (insert ref (<[i := v]> (tensor_bytes ref w))) w).
Proof.
  intros H. unfold tensor_setitem.
  destruct (Nat.ltb_spec i (length (tensor_bytes ref w))); [reflexivity|lia].
Qed.

(** * What each accessor does to an allocated block *)

Lemma get_scheduled_time_eq self w :
  length (block self w) = 18%nat →
  get_scheduled_time self w = (Ok (Block.read_scheduled_time (block self w)), w).
Proof.
  intros L. unfold get_scheduled_time. apply struct_unpack_d_eq.
  unfold block in L. lia.
Qed.

Lemma get_weight_eq self w :
  length (block self w) = 18%nat →
  get_weight self w = (Ok (Block.read_weight (block self w)), w).
Proof.
  intros L. unfold get_weight. apply struct_unpack_d_eq.
  unfold block in L. lia.
Qed.

Lemma get_stage_eq self w :
  length (block self w) = 18%nat →
  get_stage self w = (Block.read_stage (block self w), w).
Proof.
  intros L. unfold get_stage. erewrite bind_ok; [reflexivity|].
  apply tensor_item_eq. unfold block in L. lia.
Qed.

Lemma get_began_allreduce_eq self w :
  length (block self w) = 18%nat →
  get_began_allreduce self w = (Ok (Block.read_began_allreduce (block self w)), w).
Proof.
  intros L. unfold get_began_allreduce. erewrite bind_ok; [reflexivity|].
  apply tensor_item_eq. unfold block in L. lia.
Qed.

Lemma set_scheduled_time_spec t self w :
  length (block self w) = 18%nat →
  ∃ w', set_scheduled_time t self w = (Ok (), w')
        ∧ block self w' = list_inserts 0 (Binary64.pack_d t) (block self w)
        ∧ length (block self w') = 18%nat
        ∧ same_but (_shared_buffer self) w w'.
Proof.
  intros L. unfold set_scheduled_time.
  erewrite bind_ok; [|by apply get_began_allreduce_eq].
  destruct (same_but_when (_shared_buffer self) (Block.read_began_allreduce (block self w))
    "Changing scheduled time has no effect after all-reduce has already started" w)
    as (w1 & E1 & H1 & T1).
  erewrite bind_ok; [|exact E1].
  destruct (same_but_when (_shared_buffer self) (Binary64.ge t (deadline self))
    "Changing scheduled time to after deadline, averaging will likely fail due to timeout." w1)
    as (w2 & E2 & H2 & T2).
  erewrite bind_ok; [|exact E2].
  assert (B : tensor_bytes (_shared_buffer self) w2 = block self w)
    by (unfold block, tensor_bytes; by rewrite T2, T1).
  rewrite struct_pack_into_d_eq by (rewrite B; lia).
  eexists; split; [reflexivity|]. unfold block at 1 3.
  rewrite tensor_bytes_insert, B. split; [reflexivity|].
  split; [by rewrite length_inserts|].
  eapply same_but_trans; [exact H1|]. eapply same_but_trans; [exact H2|]. apply same_but_insert.
Qed.

Lemma set_weight_invalid x self w :
  valid_weight x = false → set_weight x self w = (Raise (AssertionError no_message), w).
Proof.
  intros H. unfold set_weight, valid_weight in *. unfold mbind at 1, M_bind.
  rewrite H. reflexivity.
Qed.

Lemma set_weight_spec x self w :
  length (block self w) = 18%nat →
  valid_weight x = true →
  ∃ w', set_weight x self w = (Ok (), w')
        ∧ block self w' = list_inserts 8 (Binary64.pack_d x) (block self w)
        ∧ length (block self w') = 18%nat
        ∧ same_but (_shared_buffer self) w w'.
Proof.
  intros L H. unfold set_weight.
  erewrite bind_ok; [|unfold valid_weight in H; rewrite H; reflexivity].
  erewrite bind_ok; [|by apply get_began_allreduce_eq].
  destruct (same_but_when (_shared_buffer self) (Block.read_began_allreduce (block self w))
    "Changing weights has no effect after all-reduce has already started" w)
    as (w1 & E1 & H1 & T1).
  erewrite bind_ok; [|exact E1].
  assert (B : tensor_bytes (_shared_buffer self) w1 = block self w)
    by (unfold block, tensor_bytes; by rewrite T1).
  rewrite struct_pack_into_d_eq by (rewrite B; lia).
  eexists; split; [reflexivity|]. unfold block at 1 3.
  rewrite tensor_bytes_insert, B. split; [reflexivity|].
  split; [by rewrite length_inserts|].
  eapply same_but_trans; [exact H1|]. apply same_but_insert.
Qed.

Lemma set_stage_spec s self w :
  length (block self w) = 18%nat →
  ∃ w', set_stage s self w =
          (Ok (if AveragingStage.eqb s AveragingStage.RUNNING_ALLREDUCE
               then with_can_modify (Some false) self else self), w')
        ∧ block self w' = <[16%nat := AveragingStage.value s]> (block self w)
        ∧ length (block self w') = 18%nat
        ∧ same_but (_shared_buffer self) w w'.
Proof.
  intros L. unfold set_stage.
  assert (E : _shared_buffer
                (if AveragingStage.eqb s AveragingStage.RUNNING_ALLREDUCE
                 then with_can_modify (Some false) self else self) = _shared_buffer self)
    by (by destruct (AveragingStage.eqb _ _)).
  cbv zeta. rewrite E.
  erewrite bind_ok; [|apply tensor_setitem_eq; unfold block in L; lia].
  eexists; split; [reflexivity|]. unfold block at 1 3.
  rewrite tensor_bytes_insert. split; [reflexivity|].
  split; [by rewrite length_insert|]. apply same_but_insert.
Qed.

Lemma set_began_allreduce_spec b self w :
  length (block self w) = 18%nat →
  ∃ w', set_began_allreduce b self w = (Ok (), w')
        ∧ block self w' = <[17%nat := if b then 1 else 0]> (block self w)
        ∧ length (block self w') = 18%nat
        ∧ same_but (_shared_buffer self) w w'.
Proof.
  intros L. unfold set_began_allreduce.
  rewrite tensor_setitem_eq by (unfold block in L; lia).
  eexists; split; [reflexivity|]. unfold block at 1 3.
  rewrite tensor_bytes_insert. split; [reflexivity|].
  split; [by rewrite length_insert|]. apply same_but_insert.
Qed.

(** * Reading a block after a write *)

Module BlockFacts.
Import Block Binary64Facts.

Lemma read_scheduled_time_written t b :
  length b = 18%nat → Binary64.is_valid t = true →
  read_scheduled_time (list_inserts 0 (Binary64.pack_d t) b) = t.
Proof.
  intros Hb Ht. unfold read_scheduled_time.
  rewrite <- (length_pack_d t) at 1.
  rewrite take_drop_inserts_same by (rewrite length_pack_d; lia).
  by apply unpack_pack_d.
Qed.

Lemma read_weight_written x b :
  length b = 18%nat → Binary64.is_valid x = true →
  read_weight (list_inserts 8 (Binary64.pack_d x) b) = x.
Proof.
  intros Hb Hx. unfold read_weight.
  rewrite <- (length_pack_d x) at 1.
  rewrite take_drop_inserts_same by (rewrite length_pack_d; lia).
  by apply unpack_pack_d.
Qed.

Lemma read_stage_written s b :
  length b = 18%nat →
  read_stage (<[16%nat := AveragingStage.value s]> b) = Ok s.
Proof.
  intros Hb. unfold read_stage.
  rewrite list_lookup_insert_eq by lia. by destruct s.
Qed.

Lemma read_began_allreduce_written (v : bool) b :
  length b = 18%nat →
  read_began_allreduce (<[17%nat := if v then 1 else 0]> b) = v.
Proof.
  intros Hb. unfold read_began_allreduce.
  rewrite list_lookup_insert_eq by lia. by destruct v.
Qed.

(** A write through one accessor is invisible to the other three. *)

Lemma read_scheduled_time_inserts x b :
  read_scheduled_time (list_inserts 8 (Binary64.pack_d x) b) = read_scheduled_time b.
Proof. unfold read_scheduled_time. f_equal. apply take_drop_inserts_other. lia. Qed.

Lemma read_scheduled_time_insert i v b :
  (8 <= i)%nat → read_scheduled_time (<[i := v]> b) = read_scheduled_time b.
Proof. intros. unfold read_scheduled_time. f_equal. apply take_drop_insert_other. lia. Qed.

Lemma read_weight_inserts t b :
  read_weight (list_inserts 0 (Binary64.pack_d t) b) = read_weight b.
Proof.
  unfold read_weight. f_equal. apply take_drop_inserts_other.
  rewrite length_pack_d. lia.
Qed.

Lemma read_weight_insert i v b :
  (16 <= i)%nat → read_weight (<[i := v]> b) = read_weight b.
Proof. intros. unfold read_weight. f_equal. apply take_drop_insert_other. lia. Qed.

Lemma read_stage_inserts a x b :
  (a + 8 <= 16)%nat → read_stage (list_inserts a (Binary64.pack_d x) b) = read_stage b.
Proof.
  intros. unfold read_stage. f_equal. f_equal.
  apply list_lookup_inserts_ge. rewrite length_pack_d. lia.
Qed.

Lemma read_stage_insert v b :
  read_stage (<[17%nat := v]> b) = read_stage b.
Proof. unfold read_stage. f_equal. f_equal. by apply list_lookup_insert_ne. Qed.

Lemma read_began_allreduce_inserts a x b :
  (a + 8 <= 17)%nat →
  read_began_allreduce (list_inserts a (Binary64.pack_d x) b) = read_began_allreduce b.
Proof.
  intros. unfold read_began_allreduce. f_equal. f_equal. f_equal.
  apply list_lookup_inserts_ge. rewrite length_pack_d. lia.
Qed.

Lemma read_began_allreduce_insert v b :
  read_began_allreduce (<[16%nat := v]> b) = read_began_allreduce b.
Proof. unfold read_began_allreduce. f_equal. f_equal. f_equal. by apply list_lookup_insert_ne. Qed.

End BlockFacts.

Lemma allocated_length self w : allocated self w → length (block self w) = 18%nat.
Proof. intros (b & Hb & Hl). unfold block, tensor_bytes. by rewrite Hb. Qed.

(** * Cancellation *)

Lemma MPFuture_cancel_ok uid w : ∃ b, MPFuture.cancel uid w = (Ok b, snd (MPFuture.cancel uid w)).
Proof.
  unfold MPFuture.cancel, MPFuture.get_state, mbind, M_bind.
  destruct (MPFuture.state uid w); simpl; eauto.
Qed.

Lemma MPFuture_state_insert uid s w :
  MPFuture.state uid (set_futures (insert uid s) w) = s.
Proof. unfold MPFuture.state; simpl. by rewrite lookup_insert_eq. Qed.

Lemma MPFuture_cancel_idem uid w :
  snd (MPFuture.cancel uid (snd (MPFuture.cancel uid w))) = snd (MPFuture.cancel uid w).
Proof.
  unfold MPFuture.cancel, MPFuture.get_state, mbind, M_bind.
  destruct (MPFuture.state uid w) eqn:Hs; simpl.
  - unfold MPFuture.put_state. simpl. by rewrite MPFuture_state_insert.
  - by rewrite Hs.
  - by rewrite Hs.
Qed.

Lemma MPFuture_cancel_tensors uid w :
  tensors (snd (MPFuture.cancel uid w)) = tensors w.
Proof.
  unfold MPFuture.cancel, MPFuture.get_state, mbind, M_bind.
  by destruct (MPFuture.state uid w).
Qed.

Lemma cancel_tensors depth self w : tensors (snd (cancel depth self w)) = tensors w.
Proof.
  revert w. induction depth as [|d IH]; intros w; [reflexivity|].
  cbn [cancel]. destruct (_trigger self) as [t|].
  - destruct (MPFuture_cancel_ok t w) as [b Hb].
    erewrite bind_ok; [|erewrite bind_ok; [|exact Hb]; reflexivity].
    rewrite IH. apply MPFuture_cancel_tensors.
  - erewrite bind_ok; [|reflexivity]. apply IH.
Qed.

(** * Every call and the block *)

Lemma block_after_length op b :
  length b = 18%nat → length (block_after op b) = 18%nat.
Proof.
  intros L. destruct op; cbn [block_after]; try exact L.
  - by rewrite length_inserts.
  - destruct (valid_weight w); [by rewrite length_inserts|exact L].
  - by rewrite length_insert.
  - by rewrite length_insert.
Qed.

Lemma run_block op self w :
  length (block self w) = 18%nat →
  block self (snd (run op self w)) = block_after op (block self w).
Proof.
  intros L.
  destruct op as [t| | | |t| |x| |s| |b| |d]; cbn [run block_after];
    rewrite ?snd_bind_ret.
  - unfold attach_trigger. destruct (_trigger self); reflexivity.
  - unfold allow_allreduce. destruct (_trigger self) as [t|]; [|reflexivity].
    unfold MPFuture.done, MPFuture.set_result, MPFuture.get_state, mbind, M_bind.
    unfold MPFuture.state. simpl.
    destruct (default FutureState.PENDING (futures w !! t)) eqn:Hs; simpl; rewrite Hs; reflexivity.
  - unfold wait_for_trigger. destruct (_trigger self) as [t|]; [|reflexivity].
    unfold MPFuture.await, MPFuture.get_state, mbind, M_bind.
    destruct (MPFuture.state t w) as [|[v|e]|]; reflexivity.
  - rewrite get_scheduled_time_eq by exact L. reflexivity.
  - destruct (set_scheduled_time_spec t self w L) as (w' & -> & Hb & _). exact Hb.
  - rewrite get_weight_eq by exact L. reflexivity.
  - destruct (valid_weight x) eqn:Hx.
    + destruct (set_weight_spec x self w L Hx) as (w' & -> & Hb & _). exact Hb.
    + rewrite set_weight_invalid by exact Hx. reflexivity.
  - rewrite get_stage_eq by exact L. reflexivity.
  - destruct (set_stage_spec s self w L) as (w' & -> & Hb & _). exact Hb.
  - rewrite get_began_allreduce_eq by exact L. reflexivity.
  - destruct (set_began_allreduce_spec b self w L) as (w' & -> & Hb & _). exact Hb.
  - reflexivity.
  - unfold block, tensor_bytes. rewrite cancel_tensors. reflexivity.
Qed.

Lemma run_shared_buffer op self w self' w' :
  run op self w = (Ok self', w') → _shared_buffer self' = _shared_buffer self.
Proof.
  destruct op as [t| | | |t| |x| |s| |b| |d]; cbn [run];
    try (unfold mbind, M_bind;
         match goal with |- context [match ?m with _ => _ end] =>
           destruct m as [[a|e] w1] end; intros [= <- <-]; done).
  - unfold attach_trigger. destruct (_trigger self); intros [= <- <-]; done.
  - unfold set_stage, mbind, M_bind. cbv zeta.
    destruct (tensor_setitem _ _ _ w) as [[a|e] w1]; intros [= <- <-].
    by destruct (AveragingStage.eqb _ _).
Qed.

(** Calls keep the block allocated. *)
Lemma run_allocated op self w :
  length (block self w) = 18%nat →
  length (block self (snd (run op self w))) = 18%nat.
Proof. intros L. rewrite run_block by exact L. by apply block_after_length. Qed.

Lemma block_after_began op b :
  is_set_began_allreduce op = false →
  Block.read_began_allreduce (block_after op b) = Block.read_began_allreduce b.
Proof.
  destruct op; cbn [is_set_began_allreduce block_after]; try done; intros _.
  - apply BlockFacts.read_began_allreduce_inserts. lia.
  - destruct (valid_weight w); [|done].
    apply BlockFacts.read_began_allreduce_inserts. lia.
  - apply BlockFacts.read_began_allreduce_insert.
Qed.

(** * Properties of the handle *)

(** C1 (the defect): [StepControl.cancel] ends in a call to itself rather
    than to the cancellation of the base future.  Whatever number of frames
    the interpreter grants, the call does not return: it cancels the
    attached trigger, if any, and then exhausts the frames and raises
    [RecursionError].  The store it leaves differs from the one it found in
    the trigger alone, so the handle's own future is never cancelled. *)
Theorem cancel_never_returns depth self w :
  cancel depth self w =
    (Raise RecursionError,
     match depth, _trigger self with
     | S _, Some trigger => snd (MPFuture.cancel trigger w)
     | _, _ => w
     end).
Proof.
  revert w. induction depth as [|d IH]; intros w; [reflexivity|].
  cbn [cancel]. destruct (_trigger self) as [t|] eqn:Ht.
  - destruct (MPFuture_cancel_ok t w) as [b Hb].
    erewrite bind_ok; [|erewrite bind_ok; [|exact Hb]; reflexivity].
    rewrite IH. destruct d; [reflexivity|].
    by rewrite MPFuture_cancel_idem.
  - erewrite bind_ok; [|reflexivity]. rewrite IH. by destruct d.
Qed.

(** On the handle a controller builds and wires to a fresh trigger, a
    thousand frames are not enough: the trigger ends cancelled, the handle's
    own future is still pending, and the caller gets [RecursionError]. *)
Example cancel_on_wired_handle :
  ∃ self w1 w2,
    (self ← __init__ Demo.one Demo.ten true Demo.one [];
     t ← MPFuture.create;
     attach_trigger t self) Start.world = (Ok self, w1)
    ∧ _trigger self = Some 1%nat ∧ base self = 0%nat
    ∧ cancel 1000 self w1 = (Raise RecursionError, w2)
    ∧ MPFuture.state 1 w2 = FutureState.CANCELLED
    ∧ MPFuture.state 0 w2 = FutureState.PENDING.
Proof.
  eexists _, _, _. split; [vm_compute; reflexivity|].
  split; [reflexivity|]. split; [reflexivity|].
  split; [vm_compute; reflexivity|].
  split; vm_compute; reflexivity.
Qed.

Lemma allow_allreduce_resolved self trigger w :
  _trigger self = Some trigger →
  MPFuture.state trigger w ≠ FutureState.PENDING →
  allow_allreduce self w =
    (Raise InvalidStateError, add_warning "Trigger is already set" w).
Proof.
  intros Ht Hs. unfold allow_allreduce. rewrite Ht.
  unfold MPFuture.done, MPFuture.set_result, MPFuture.get_state, mbind, M_bind.
  change (MPFuture.state trigger (add_warning "Trigger is already set" ?w))
    with (MPFuture.state trigger w).
  destruct (MPFuture.state trigger w) eqn:E; [done| |];
    cbn [mret M_ret when logger_warning];
    change (MPFuture.state trigger (add_warning "Trigger is already set" w))
      with (MPFuture.state trigger w); rewrite E; reflexivity.
Qed.

(** C2 (the defect): with a trigger attached and still pending, the first
    [allow_allreduce()] resolves it; the second logs "Trigger is already
    set" and then falls through to [set_result] on the resolved trigger,
    which a one-shot future refuses: the call raises [InvalidStateError].
    The same happens on any call that finds the trigger resolved, however
    it was resolved. *)
Theorem allow_allreduce_twice_raises self trigger w :
  _trigger self = Some trigger →
  (MPFuture.state trigger w = FutureState.PENDING →
   ∃ w1, allow_allreduce self w = (Ok (), w1)
         ∧ MPFuture.state trigger w1 = FutureState.FINISHED (Ok PyNone)
         ∧ allow_allreduce self w1 =
             (Raise InvalidStateError, add_warning "Trigger is already set" w1))
  ∧ (MPFuture.state trigger w ≠ FutureState.PENDING →
     allow_allreduce self w =
       (Raise InvalidStateError, add_warning "Trigger is already set" w)).
Proof.
  intros Ht. split; [|by apply (allow_allreduce_resolved self trigger)].
  intros Hs.
  assert (H1 : allow_allreduce self w =
            (Ok (), set_futures (insert trigger (FutureState.FINISHED (Ok PyNone))) w)).
  { unfold allow_allreduce. rewrite Ht.
    unfold MPFuture.done, MPFuture.set_result, MPFuture.get_state, mbind, M_bind.
    rewrite Hs. cbn [mret M_ret when]. rewrite Hs. reflexivity. }
  eexists. split; [exact H1|].
  rewrite MPFuture_state_insert. split; [reflexivity|].
  apply (allow_allreduce_resolved self trigger); [exact Ht|].
  by rewrite MPFuture_state_insert.
Qed.

Lemma allow_allreduce_twice_raises_witness :
  ∃ w1, allow_allreduce Demo.wired Demo.world = (Ok (), w1)
        ∧ allow_allreduce Demo.wired w1 =
            (Raise InvalidStateError, add_warning "Trigger is already set" w1).
Proof.
  destruct (allow_allreduce_twice_raises Demo.wired 1%nat Demo.world)
    as [H _]; [reflexivity|].
  destruct H as (w1 & H1 & _ & H2); [reflexivity|].
  exists w1. split; assumption.
Defined.

(** C3 as stated fails: on the handle a controller builds, after the stage
    is set to [RUNNING_ALLREDUCE] the flag [can_modify] is false, and
    [scheduled_time = 2.0] is nevertheless applied to the shared block. *)
Lemma frozen_flag_rejects_nothing :
  ∃ self0 w0 self w1 w2,
    Start.built = (Ok self0, w0)
    ∧ set_stage AveragingStage.RUNNING_ALLREDUCE self0 w0 = (Ok self, w1)
    ∧ can_modify self = Some false
    ∧ fst (get_scheduled_time self w1) = Ok Demo.one
    ∧ set_scheduled_time Demo.two self w1 = (Ok (), w2)
    ∧ fst (get_scheduled_time self w2) = Ok Demo.two.
Proof.
  eexists _, _, _, _, _.
  split; [vm_compute; reflexivity|].
  split; [vm_compute; reflexivity|].
  split; [reflexivity|].
  split; [vm_compute; reflexivity|].
  split; [vm_compute; reflexivity|].
  vm_compute; reflexivity.
Qed.

(** C3 (amended): setting the stage to [RUNNING_ALLREDUCE] sets
    [can_modify] to false on the handle object, and any other stage leaves
    the flag as it was.  The setters of [scheduled_time] and [weight] never
    consult that flag: whatever its value they behave the same, and on a
    handle whose flag is false [scheduled_time = t] is still written to the
    shared block and so is [weight = x] for every x that is >= 0 and
    finite. *)
Theorem stage_setter_flag_is_advisory self w :
  allocated self w →
  (∀ s, ∃ self' w', set_stage s self w = (Ok self', w')
        ∧ can_modify self' =
            if AveragingStage.eqb s AveragingStage.RUNNING_ALLREDUCE
            then Some false else can_modify self)
  ∧ (∀ c t, set_scheduled_time t (with_can_modify c self) w = set_scheduled_time t self w)
  ∧ (∀ c x, set_weight x (with_can_modify c self) w = set_weight x self w)
  ∧ (∀ t, Binary64.is_valid t = true →
        ∃ w', set_scheduled_time t (with_can_modify (Some false) self) w = (Ok (), w')
              ∧ get_scheduled_time (with_can_modify (Some false) self) w' = (Ok t, w'))
  ∧ (∀ x, Binary64.is_valid x = true → valid_weight x = true →
        ∃ w', set_weight x (with_can_modify (Some false) self) w = (Ok (), w')
              ∧ get_weight (with_can_modify (Some false) self) w' = (Ok x, w')).
Proof.
  intros Ha. apply allocated_length in Ha.
  split; [|split; [|split; [|split]]].
  - intros s. destruct (set_stage_spec s self w Ha) as (w' & H & _).
    eexists _, _. split; [exact H|].
    by destruct (AveragingStage.eqb _ _).
  - reflexivity.
  - reflexivity.
  - intros t Ht.
    destruct (set_scheduled_time_spec t (with_can_modify (Some false) self) w Ha)
      as (w' & H & Hb & L & _).
    exists w'. split; [exact H|].
    rewrite get_scheduled_time_eq, Hb by exact L.
    by rewrite BlockFacts.read_scheduled_time_written.
  - intros x Hx Hv.
    destruct (set_weight_spec x (with_can_modify (Some false) self) w Ha Hv)
      as (w' & H & Hb & L & _).
    exists w'. split; [exact H|].
    rewrite get_weight_eq, Hb by exact L.
    by rewrite BlockFacts.read_weight_written.
Qed.

Lemma demo_allocated : allocated Demo.handle Demo.world.
Proof. exists (replicate 18 0). split; reflexivity. Qed.

Lemma stage_setter_flag_is_advisory_witness :
  ∃ w', set_scheduled_time Demo.two (with_can_modify (Some false) Demo.handle) Demo.world = (Ok (), w')
        ∧ get_scheduled_time (with_can_modify (Some false) Demo.handle) w' = (Ok Demo.two, w').
Proof.
  destruct (stage_setter_flag_is_advisory Demo.handle Demo.world demo_allocated)
    as (_ & _ & _ & H & _).
  apply (H Demo.two). reflexivity.
Defined.

(** C4: on an allocated block, [weight = x] succeeds exactly when
    [x >= 0 and np.isfinite(x)], that is for the zeros and the finite
    numbers with a clear sign bit; it then stores x.  Otherwise it raises
    [AssertionError] before touching anything: the whole store, the weight
    field of the shared block included, is as it was. *)
Theorem weight_setter_guard self w x :
  allocated self w →
  ((∃ w', set_weight x self w = (Ok (), w')) ↔ valid_weight x = true)
  ∧ (valid_weight x = true ↔
       (∃ s, x = S754_zero s) ∨ (∃ m e, x = S754_finite false m e))
  ∧ (valid_weight x = true → Binary64.is_valid x = true →
       ∃ w', set_weight x self w = (Ok (), w') ∧ get_weight self w' = (Ok x, w'))
  ∧ (valid_weight x = false →
       set_weight x self w = (Raise (AssertionError no_message), w)
       ∧ get_weight self (snd (set_weight x self w)) = get_weight self w).
Proof.
  intros Ha. apply allocated_length in Ha.
  split; [|split; [|split]].
  - split.
    + intros [w' H]. destruct (valid_weight x) eqn:Hv; [done|].
      rewrite set_weight_invalid in H by done. discriminate.
    + intros Hv. destruct (set_weight_spec x self w Ha Hv) as (w' & H & _). eauto.
  - apply Binary64Facts.valid_weight_spec.
  - intros Hv Hx. destruct (set_weight_spec x self w Ha Hv) as (w' & H & Hb & L & _).
    exists w'. split; [exact H|].
    rewrite get_weight_eq, Hb by exact L.
    by rewrite BlockFacts.read_weight_written.
  - intros Hv. rewrite set_weight_invalid by done. done.
Qed.

Lemma weight_setter_guard_witness :
  set_weight Demo.minus_one Demo.handle Demo.world
    = (Raise (AssertionError no_message), Demo.world)
  ∧ ∃ w', set_weight Demo.one Demo.handle Demo.world = (Ok (), w')
          ∧ get_weight Demo.handle w' = (Ok Demo.one, w').
Proof.
  destruct (weight_setter_guard Demo.handle Demo.world Demo.minus_one demo_allocated)
    as (_ & _ & _ & H).
  destruct (weight_setter_guard Demo.handle Demo.world Demo.one demo_allocated)
    as (_ & _ & H' & _).
  split.
  - apply H. reflexivity.
  - apply H'; reflexivity.
Defined.

(** C5 as stated fails: on the handle a controller builds, the setter of
    [began_allreduce] stores true and then, asked to, stores false again. *)
Lemma began_allreduce_is_reset_by_its_setter :
  ∃ self w0 w1 w2,
    Start.built = (Ok self, w0)
    ∧ set_began_allreduce true self w0 = (Ok (), w1)
    ∧ get_began_allreduce self w1 = (Ok true, w1)
    ∧ run (OpSetBeganAllreduce false) self w1 = (Ok self, w2)
    ∧ get_began_allreduce self w2 = (Ok false, w2).
Proof.
  eexists _, _, _, _.
  split; [vm_compute; reflexivity|].
  split; [vm_compute; reflexivity|].
  split; [vm_compute; reflexivity|].
  split; vm_compute; reflexivity.
Qed.

(** C5 (amended): the setter of [began_allreduce] stores the value it is
    given, true or false, so the field is not a latch.  Every other call on
    the handle (attach_trigger, allow_allreduce, wait_for_trigger, the
    getters, the setters of scheduled_time, weight and stage, get_timeout,
    cancel) leaves [began_allreduce] as it was, whether the call returns
    or raises. *)
Theorem began_allreduce_changes_only_by_its_setter self w :
  allocated self w →
  (∀ op, is_set_began_allreduce op = false →
     fst (get_began_allreduce self (snd (run op self w))) = fst (get_began_allreduce self w)
     ∧ ∀ self' w', run op self w = (Ok self', w') →
         fst (get_began_allreduce self' w') = fst (get_began_allreduce self w))
  ∧ (∀ v, ∃ w', set_began_allreduce v self w = (Ok (), w')
                ∧ get_began_allreduce self w' = (Ok v, w')).
Proof.
  intros Ha. apply allocated_length in Ha. split.
  - intros op Hop.
    pose proof (run_allocated op self w Ha) as L.
    assert (H : fst (get_began_allreduce self (snd (run op self w)))
                = fst (get_began_allreduce self w)).
    { rewrite !get_began_allreduce_eq by assumption. cbn [fst]. f_equal.
      rewrite run_block by exact Ha. by apply block_after_began. }
    split; [exact H|].
    intros self' w' Hrun. rewrite Hrun in H, L. cbn [snd] in H, L.
    rewrite <- H.
    assert (E : block self' w' = block self w')
      by (unfold block; by rewrite (run_shared_buffer _ _ _ _ _ Hrun)).
    rewrite !get_began_allreduce_eq by (rewrite ?E; exact L). by rewrite E.
  - intros v.
    destruct (set_began_allreduce_spec v self w Ha) as (w' & H & Hb & L & _).
    exists w'. split; [exact H|].
    rewrite get_began_allreduce_eq, Hb by exact L.
    by rewrite BlockFacts.read_began_allreduce_written.
Qed.

Lemma began_allreduce_changes_only_by_its_setter_witness :
  (∃ w', set_began_allreduce true Demo.handle Demo.world = (Ok (), w')
         ∧ get_began_allreduce Demo.handle w' = (Ok true, w'))
  ∧ fst (get_began_allreduce Demo.handle
           (snd (run (OpSetStage AveragingStage.FINISHED) Demo.handle Demo.world)))
    = fst (get_began_allreduce Demo.handle Demo.world).
Proof.
  destruct (began_allreduce_changes_only_by_its_setter Demo.handle Demo.world demo_allocated)
    as [H1 H2].
  split.
  - exact (H2 true).
  - exact (proj1 (H1 (OpSetStage AveragingStage.FINISHED) eq_refl)).
Defined.

(** C7: the four accessors use the byte ranges 0-7, 8-15, 16 and 17 of
    the 18-byte block.  On an allocated block, each setter followed by its
    getter returns the value set (any binary64 value for scheduled_time, any
    valid weight, any stage, any boolean), the other three getters return
    what they returned before, the field's own bytes hold the encoding of
    the value, and no byte outside the field's range changes. *)
Theorem accessors_are_independent self w :
  allocated self w →
  (∀ t, Binary64.is_valid t = true →
     ∃ w', set_scheduled_time t self w = (Ok (), w')
           ∧ get_scheduled_time self w' = (Ok t, w')
           ∧ fst (get_weight self w') = fst (get_weight self w)
           ∧ fst (get_stage self w') = fst (get_stage self w)
           ∧ fst (get_began_allreduce self w') = fst (get_began_allreduce self w)
           ∧ length (block self w') = 18%nat
           ∧ take 8 (drop 0 (block self w')) = Binary64.pack_d t
           ∧ ∀ i, (8 <= i)%nat → block self w' !! i = block self w !! i)
  ∧ (∀ x, Binary64.is_valid x = true → valid_weight x = true →
     ∃ w', set_weight x self w = (Ok (), w')
           ∧ get_weight self w' = (Ok x, w')
           ∧ fst (get_scheduled_time self w') = fst (get_scheduled_time self w)
           ∧ fst (get_stage self w') = fst (get_stage self w)
           ∧ fst (get_began_allreduce self w') = fst (get_began_allreduce self w)
           ∧ length (block self w') = 18%nat
           ∧ take 8 (drop 8 (block self w')) = Binary64.pack_d x
           ∧ ∀ i, (i < 8 ∨ 16 <= i)%nat → block self w' !! i = block self w !! i)
  ∧ (∀ s,
     ∃ self' w', set_stage s self w = (Ok self', w')
           ∧ _shared_buffer self' = _shared_buffer self
           ∧ get_stage self' w' = (Ok s, w')
           ∧ fst (get_scheduled_time self' w') = fst (get_scheduled_time self w)
           ∧ fst (get_weight self' w') = fst (get_weight self w)
           ∧ fst (get_began_allreduce self' w') = fst (get_began_allreduce self w)
           ∧ length (block self w') = 18%nat
           ∧ block self w' !! 16%nat = Some (AveragingStage.value s)
           ∧ ∀ i, i ≠ 16%nat → block self w' !! i = block self w !! i)
  ∧ (∀ v,
     ∃ w', set_began_allreduce v self w = (Ok (), w')
           ∧ get_began_allreduce self w' = (Ok v, w')
           ∧ fst (get_scheduled_time self w') = fst (get_scheduled_time self w)
           ∧ fst (get_weight self w') = fst (get_weight self w)
           ∧ fst (get_stage self w') = fst (get_stage self w)
           ∧ length (block self w') = 18%nat
           ∧ block self w' !! 17%nat = Some (if v then 1 else 0)
           ∧ ∀ i, i ≠ 17%nat → block self w' !! i = block self w !! i).
Proof.
  intros Ha. apply allocated_length in Ha.
  split; [|split; [|split]].
  - intros t Ht. destruct (set_scheduled_time_spec t self w Ha) as (w' & H & Hb & L & _).
    exists w'. split; [exact H|].
    rewrite !get_scheduled_time_eq, !get_weight_eq, !get_stage_eq,
      !get_began_allreduce_eq by assumption. rewrite !Hb. cbn [fst].
    rewrite BlockFacts.read_scheduled_time_written by done.
    rewrite BlockFacts.read_weight_inserts.
    rewrite BlockFacts.read_stage_inserts by lia.
    rewrite BlockFacts.read_began_allreduce_inserts by lia.
    rewrite length_inserts.
    repeat split; try done.
    + rewrite <- (Binary64Facts.length_pack_d t) at 1.
      apply take_drop_inserts_same. rewrite Binary64Facts.length_pack_d. lia.
    + intros i Hi. apply list_lookup_inserts_ge.
      rewrite Binary64Facts.length_pack_d. lia.
  - intros x Hx Hv. destruct (set_weight_spec x self w Ha Hv) as (w' & H & Hb & L & _).
    exists w'. split; [exact H|].
    rewrite !get_scheduled_time_eq, !get_weight_eq, !get_stage_eq,
      !get_began_allreduce_eq by assumption. rewrite !Hb. cbn [fst].
    rewrite BlockFacts.read_weight_written by done.
    rewrite BlockFacts.read_scheduled_time_inserts.
    rewrite BlockFacts.read_stage_inserts by lia.
    rewrite BlockFacts.read_began_allreduce_inserts by lia.
    rewrite length_inserts.
    repeat split; try done.
    + rewrite <- (Binary64Facts.length_pack_d x) at 1.
      apply take_drop_inserts_same. rewrite Binary64Facts.length_pack_d. lia.
    + intros i [Hi|Hi].
      * apply list_lookup_inserts_lt. lia.
      * apply list_lookup_inserts_ge. rewrite Binary64Facts.length_pack_d. lia.
  - intros s. destruct (set_stage_spec s self w Ha) as (w' & H & Hb & L & _).
    eexists _, w'. split; [exact H|].
    set (self' := if AveragingStage.eqb s AveragingStage.RUNNING_ALLREDUCE
                  then with_can_modify (Some false) self else self).
    assert (Hsb : _shared_buffer self' = _shared_buffer self)
      by (unfold self'; by destruct (AveragingStage.eqb _ _)).
    split; [exact Hsb|].
    assert (E : block self' w' = block self w') by (unfold block; by rewrite Hsb).
    rewrite !get_scheduled_time_eq, !get_weight_eq, !get_stage_eq,
      !get_began_allreduce_eq by (rewrite ?E; assumption).
    rewrite !E, !Hb. cbn [fst].
    rewrite BlockFacts.read_stage_written by done.
    rewrite BlockFacts.read_scheduled_time_insert by lia.
    rewrite BlockFacts.read_weight_insert by lia.
    rewrite BlockFacts.read_began_allreduce_insert.
    rewrite length_insert.
    repeat split; try done.
    + apply list_lookup_insert_eq. lia.
    + intros i Hi. by apply list_lookup_insert_ne.
  - intros v. destruct (set_began_allreduce_spec v self w Ha) as (w' & H & Hb & L & _).
    exists w'. split; [exact H|].
    rewrite !get_scheduled_time_eq, !get_weight_eq, !get_stage_eq,
      !get_began_allreduce_eq by assumption. rewrite !Hb. cbn [fst].
    rewrite BlockFacts.read_began_allreduce_written by done.
    rewrite BlockFacts.read_scheduled_time_insert by lia.
    rewrite BlockFacts.read_weight_insert by lia.
    rewrite BlockFacts.read_stage_insert.
    rewrite length_insert.
    repeat split; try done.
    + apply list_lookup_insert_eq. lia.
    + intros i Hi. by apply list_lookup_insert_ne.
Qed.

Lemma accessors_are_independent_witness :
  ∃ w', set_weight Demo.two Demo.handle Demo.world = (Ok (), w')
        ∧ get_weight Demo.handle w' = (Ok Demo.two, w')
        ∧ fst (get_scheduled_time Demo.handle w') = fst (get_scheduled_time Demo.handle Demo.world).
Proof.
  destruct (accessors_are_independent Demo.handle Demo.world demo_allocated) as (_ & H & _).
  destruct (H Demo.two) as (w' & H1 & H2 & H3 & _); [reflexivity|reflexivity|].
  exists w'. repeat split; assumption.
Defined.

(** C10: the setter of [scheduled_time] has no rejecting path.  On an
    allocated block, whatever the stage, the value of began_allreduce and
    the flag [can_modify], the call returns normally; apart from warnings
    appended to the log it changes nothing but bytes 0-7 of the handle's
    block, which receive the encoding of t, and the getter then returns
    t. *)
Theorem scheduled_time_setter_never_rejects self w t :
  allocated self w →
  ∃ w', set_scheduled_time t self w = (Ok (), w')
        ∧ block self w' = list_inserts 0 (Binary64.pack_d t) (block self w)
        ∧ same_but (_shared_buffer self) w w'
        ∧ (Binary64.is_valid t = true → get_scheduled_time self w' = (Ok t, w')).
Proof.
  intros Ha. apply allocated_length in Ha.
  destruct (set_scheduled_time_spec t self w Ha) as (w' & H & Hb & L & Hs).
  exists w'. split; [exact H|]. split; [exact Hb|]. split; [exact Hs|].
  intros Ht. rewrite get_scheduled_time_eq, Hb by exact L.
  by rewrite BlockFacts.read_scheduled_time_written.
Qed.

Lemma scheduled_time_setter_never_rejects_witness :
  ∃ w', set_scheduled_time Demo.ten Demo.handle Demo.world = (Ok (), w')
        ∧ get_scheduled_time Demo.handle w' = (Ok Demo.ten, w')
        ∧ warnings w' =
            ["Changing scheduled time to after deadline, averaging will likely fail due to timeout."].
Proof.
  destruct (scheduled_time_setter_never_rejects Demo.handle Demo.world Demo.ten demo_allocated)
    as (w' & H & _ & _ & Hget).
  exists w'. split; [exact H|]. split.
  - apply Hget. reflexivity.
  - vm_compute in H. injection H as <-. reflexivity.
Defined.

(** C8: for every weight that is >= 0 and finite, and whatever the other
    arguments and the store, the constructor returns a handle whose block
    is allocated with stage IDLE and began_allreduce false; no trigger is
    attached and the constructor arguments are kept. *)
Theorem init_starts_idle st dl ar x gb w :
  valid_weight x = true →
  ∃ self w', __init__ st dl ar x gb w = (Ok self, w')
     ∧ get_stage self w' = (Ok AveragingStage.IDLE, w')
     ∧ get_began_allreduce self w' = (Ok false, w')
     ∧ allocated self w'
     ∧ _trigger self = None
     ∧ (gather_binary self, deadline self, allow_retries self) = (gb, dl, ar).
Proof.
  intros Hx. unfold __init__.
  erewrite bind_ok; [|reflexivity].
  erewrite bind_ok; [|reflexivity].
  set (w1 := set_futures _ w).
  set (ref := fresh (dom (tensors w1))).
  set (w2 := set_tensors _ w1).
  set (self := mkStepControl _ gb dl ar None ref None).
  assert (B2 : block self w2 = replicate 18 0) by apply tensor_bytes_insert.
  assert (L2 : length (block self w2) = 18%nat) by (by rewrite B2, length_replicate).
  destruct (set_stage_spec AveragingStage.IDLE self w2 L2) as (w3 & H3 & B3 & L3 & _).
  cbn [AveragingStage.eqb AveragingStage.value Z.eqb] in H3.
  erewrite bind_ok; [|exact H3].
  destruct (set_scheduled_time_spec st self w3 L3) as (w4 & H4 & B4 & L4 & _).
  erewrite bind_ok; [|exact H4].
  destruct (set_weight_spec x self w4 L4 Hx) as (w5 & H5 & B5 & L5 & _).
  erewrite bind_ok; [|exact H5].
  destruct (set_began_allreduce_spec false self w5 L5) as (w6 & H6 & B6 & L6 & _).
  erewrite bind_ok; [|exact H6].
  exists self, w6. split; [reflexivity|].
  rewrite get_stage_eq, get_began_allreduce_eq, B6 by exact L6.
  rewrite (BlockFacts.read_began_allreduce_written false) by exact L5.
  rewrite BlockFacts.read_stage_insert.
  rewrite B5, BlockFacts.read_stage_inserts by lia.
  rewrite B4, BlockFacts.read_stage_inserts by lia.
  rewrite B3, BlockFacts.read_stage_written by exact L2.
  repeat split; try reflexivity.
  exists (block self w6). split; [|exact L6].
  unfold block, tensor_bytes in *.
  destruct (tensors w6 !! _shared_buffer self) as [b|] eqn:E; [reflexivity|].
  cbn in L6. discriminate.
Qed.

Lemma init_starts_idle_witness :
  ∃ self w', Start.built = (Ok self, w')
     ∧ get_stage self w' = (Ok AveragingStage.IDLE, w')
     ∧ get_began_allreduce self w' = (Ok false, w').
Proof.
  destruct (init_starts_idle Demo.one Demo.ten true Demo.one [] Start.world)
    as (self & w' & H1 & H2 & H3 & _); [reflexivity|].
  exists self, w'. repeat split; assumption.
Defined.

(** * Pickling *)

Section PicklingFacts.

Variable base_getstate : nat → gmap string PyVal.
Variable base_setstate : gmap string PyVal → outcome nat.

(** The contract of the base class: its state dictionary does not use the
    three keys the subclass adds, and reading the base fields back from any
    dictionary that extends it restores the same future. *)
Hypothesis base_keys : ∀ uid,
  base_getstate uid !! "_trigger" = None
  ∧ base_getstate uid !! "_shared_buffer" = None
  ∧ base_getstate uid !! "immutable_params" = None.
Hypothesis base_roundtrip : ∀ uid state,
  base_getstate uid ⊆ state → base_setstate state = Ok uid.

Lemma setstate_getstate self :
  __setstate__ base_setstate (__getstate__ base_getstate self) = Ok (with_can_modify None self).
Proof.
  unfold __setstate__, __getstate__.
  destruct (base_keys (base self)) as (K1 & K2 & K3).
  rewrite (base_roundtrip (base self)).
  2: { etrans; [|apply insert_subseteq]. 1: etrans; [|apply insert_subseteq].
       1: apply insert_subseteq; exact K1.
       - by rewrite lookup_insert_ne.
       - by rewrite !lookup_insert_ne. }
  cbn [outcome_bind]. unfold getitem.
  rewrite lookup_insert_ne by done. rewrite lookup_insert_ne by done.
  rewrite lookup_insert_eq. cbn [outcome_bind].
  rewrite lookup_insert_ne by done. rewrite lookup_insert_eq. cbn [outcome_bind].
  rewrite lookup_insert_eq. cbn [outcome_bind].
  destruct self as [b gb dl ar [t|] buf cm]; reflexivity.
Qed.

End PicklingFacts.

(** C9: provided the base future's own state dictionary round-trips and
    does not use the keys [_trigger], [_shared_buffer] and
    [immutable_params], restoring the serialized state of a handle yields a
    handle with the same base future, gather_binary, deadline,
    allow_retries, attached trigger and shared block reference.  Both
    handles therefore act on the same bytes: in every store the accessors
    of the restored handle return and write what those of the original do,
    a value written through the original is read back through the restored
    handle, and after any call made through the original the restored handle
    reads what the original reads. *)
Theorem pickle_preserves_handle
    (base_getstate : nat → gmap string PyVal)
    (base_setstate : gmap string PyVal → outcome nat)
    (base_keys : ∀ uid,
       base_getstate uid !! "_trigger" = None
       ∧ base_getstate uid !! "_shared_buffer" = None
       ∧ base_getstate uid !! "immutable_params" = None)
    (base_roundtrip : ∀ uid state,
       base_getstate uid ⊆ state → base_setstate state = Ok uid)
    (self : StepControl) :
  ∃ restored,
    __setstate__ base_setstate (__getstate__ base_getstate self) = Ok restored
    ∧ base restored = base self
    ∧ gather_binary restored = gather_binary self
    ∧ deadline restored = deadline self
    ∧ allow_retries restored = allow_retries self
    ∧ _trigger restored = _trigger self
    ∧ _shared_buffer restored = _shared_buffer self
    ∧ (∀ w, get_scheduled_time restored w = get_scheduled_time self w
            ∧ get_weight restored w = get_weight self w
            ∧ get_stage restored w = get_stage self w
            ∧ get_began_allreduce restored w = get_began_allreduce self w)
    ∧ (∀ w t x s v,
            set_scheduled_time t restored w = set_scheduled_time t self w
            ∧ set_weight x restored w = set_weight x self w
            ∧ snd (set_stage s restored w) = snd (set_stage s self w)
            ∧ set_began_allreduce v restored w = set_began_allreduce v self w)
    ∧ (∀ w, allocated self w →
         (∀ t, Binary64.is_valid t = true →
            ∃ w', set_scheduled_time t self w = (Ok (), w')
                  ∧ get_scheduled_time restored w' = (Ok t, w'))
         ∧ (∀ x, Binary64.is_valid x = true → valid_weight x = true →
            ∃ w', set_weight x self w = (Ok (), w')
                  ∧ get_weight restored w' = (Ok x, w'))
         ∧ (∀ s, ∃ self' w', set_stage s self w = (Ok self', w')
                  ∧ get_stage restored w' = (Ok s, w'))
         ∧ (∀ v, ∃ w', set_began_allreduce v self w = (Ok (), w')
                  ∧ get_began_allreduce restored w' = (Ok v, w')))
    ∧ (∀ op w self' w', run op self w = (Ok self', w') →
            get_scheduled_time restored w' = get_scheduled_time self' w'
            ∧ get_weight restored w' = get_weight self' w'
            ∧ get_stage restored w' = get_stage self' w'
            ∧ get_began_allreduce restored w' = get_began_allreduce self' w').
Proof.
  exists (with_can_modify None self).
  split; [by apply setstate_getstate|].
  split; [reflexivity|]. split; [reflexivity|]. split; [reflexivity|].
  split; [reflexivity|]. split; [reflexivity|]. split; [reflexivity|].
  split; [intros w; repeat split|].
  split.
  { intros w t x s v. repeat split.
    unfold set_stage. cbv zeta.
    destruct (AveragingStage.eqb _ _); rewrite !snd_bind_ret; reflexivity. }
  split.
  - intros w Ha. apply allocated_length in Ha. repeat split.
    + intros t Ht. destruct (set_scheduled_time_spec t self w Ha) as (w' & H & Hb & L & _).
      exists w'. split; [exact H|].
      change (get_scheduled_time (with_can_modify None self) w')
        with (get_scheduled_time self w').
      rewrite get_scheduled_time_eq, Hb by exact L.
      by rewrite BlockFacts.read_scheduled_time_written.
    + intros x Hx Hv. destruct (set_weight_spec x self w Ha Hv) as (w' & H & Hb & L & _).
      exists w'. split; [exact H|].
      change (get_weight (with_can_modify None self) w') with (get_weight self w').
      rewrite get_weight_eq, Hb by exact L.
      by rewrite BlockFacts.read_weight_written.
    + intros s. destruct (set_stage_spec s self w Ha) as (w' & H & Hb & L & _).
      eexists _, w'. split; [exact H|].
      change (get_stage (with_can_modify None self) w') with (get_stage self w').
      rewrite get_stage_eq, Hb by exact L.
      by rewrite BlockFacts.read_stage_written.
    + intros v. destruct (set_began_allreduce_spec v self w Ha) as (w' & H & Hb & L & _).
      exists w'. split; [exact H|].
      change (get_began_allreduce (with_can_modify None self) w')
        with (get_began_allreduce self w').
      rewrite get_began_allreduce_eq, Hb by exact L.
      by rewrite BlockFacts.read_began_allreduce_written.
  - intros op w self' w' Hrun. apply run_shared_buffer in Hrun.
    unfold get_scheduled_time, get_weight, get_stage, get_began_allreduce.
    cbn [with_can_modify _shared_buffer]. rewrite Hrun. repeat split.
Qed.

Lemma demo_base_keys uid :
  Demo.base_getstate uid !! "_trigger" = None
  ∧ Demo.base_getstate uid !! "_shared_buffer" = None
  ∧ Demo.base_getstate uid !! "immutable_params" = None.
Proof. unfold Demo.base_getstate. by rewrite !lookup_singleton_ne. Qed.

Lemma demo_base_roundtrip uid state :
  Demo.base_getstate uid ⊆ state → Demo.base_setstate state = Ok uid.
Proof.
  intros H. unfold Demo.base_setstate.
  rewrite (lookup_weaken _ _ "_uid" (PyFuture uid) (lookup_singleton_eq _ _) H).
  reflexivity.
Qed.

Lemma pickle_preserves_handle_witness :
  ∃ restored w',
    __setstate__ Demo.base_setstate (__getstate__ Demo.base_getstate Demo.wired) = Ok restored
    ∧ _trigger restored = Some 1%nat
    ∧ set_weight Demo.two Demo.wired Demo.world = (Ok (), w')
    ∧ get_weight restored w' = (Ok Demo.two, w').
Proof.
  destruct (pickle_preserves_handle Demo.base_getstate Demo.base_setstate
              demo_base_keys demo_base_roundtrip Demo.wired)
    as (restored & H1 & _ & _ & _ & _ & H2 & _ & _ & _ & H3 & _).
  destruct (H3 Demo.world) as (_ & H4 & _); [exact demo_allocated|].
  destruct (H4 Demo.two) as (w' & H5 & H6); [reflexivity|reflexivity|].
  exists restored, w'. repeat split; assumption.
Defined.

(** C6: [get_timeout()] returns [max(0.0, deadline - now)], the subtraction
    being that of binary64 floats and [now] the reading of the shared
    clock.  When deadline and clock are finite this is the binary64 number
    nearest to the exact difference if that difference is positive, and 0.0
    otherwise.  The result is never negative (nor NaN), and of two readings
    of the clock [t1 <= t2] the later one gives the smaller or equal
    timeout. *)
Theorem get_timeout_is_clamped_and_decreasing self :
  (∀ w, get_timeout self w =
          (Ok (Binary64.max Binary64.zero (Binary64.sub (deadline self) (dht_time w))), w))
  ∧ (∀ w, Binary64.is_valid (deadline self) = true → Binary64.is_valid (dht_time w) = true →
          Binary64.isfinite (deadline self) = true → Binary64.isfinite (dht_time w) = true →
          fst (get_timeout self w) =
            Ok (Exact.timeout_of (Exact.scaled (deadline self) - Exact.scaled (dht_time w))))
  ∧ (∀ w r, fst (get_timeout self w) = Ok r → Binary64.ge r Binary64.zero = true)
  ∧ (∀ w1 w2 r1 r2,
       Binary64.is_valid (deadline self) = true →
       Binary64.is_valid (dht_time w1) = true → Binary64.is_valid (dht_time w2) = true →
       Binary64.le (dht_time w1) (dht_time w2) = true →
       fst (get_timeout self w1) = Ok r1 → fst (get_timeout self w2) = Ok r2 →
       Binary64.le r2 r1 = true).
Proof.
  assert (H : ∀ w, get_timeout self w =
          (Ok (Binary64.max Binary64.zero (Binary64.sub (deadline self) (dht_time w))), w))
    by reflexivity.
  split; [exact H|]. split; [|split].
  - intros w Vd Vt Fd Ft. rewrite H. cbn [fst]. f_equal.
    by apply TimeoutFacts.max_zero_sub.
  - intros w r. rewrite H. intros [= <-]. apply TimeoutFacts.max_zero_nonneg.
  - intros w1 w2 r1 r2 Vd V1 V2 Hle. rewrite !H. intros [= <-] [= <-].
    by apply TimeoutFacts.timeout_mono.
Qed.

Lemma get_timeout_is_clamped_and_decreasing_witness :
  ∃ r1 r2,
    fst (get_timeout Demo.handle (Clock.at_time Demo.one)) = Ok r1
    ∧ fst (get_timeout Demo.handle (Clock.at_time Demo.two)) = Ok r2
    ∧ Binary64.le r2 r1 = true
    ∧ Binary64.ge r2 Binary64.zero = true.
Proof.
  destruct (get_timeout_is_clamped_and_decreasing Demo.handle) as (H1 & _ & H2 & H3).
  eexists _, _. split; [rewrite H1; reflexivity|]. split; [rewrite H1; reflexivity|].
  split.
  - apply (H3 (Clock.at_time Demo.one) (Clock.at_time Demo.two)); reflexivity.
  - apply (H2 (Clock.at_time Demo.two)). reflexivity.
Defined.

(** Nine seconds and eight seconds are what is left of a deadline at 10.0
    when the clock reads 1.0 and 2.0; past the deadline nothing is left. *)
Example get_timeout_values :
  fst (get_timeout Demo.handle (Clock.at_time Demo.one))
    = Ok (S754_finite false (9 * 2 ^ 49) (-49))
  ∧ fst (get_timeout Demo.handle (Clock.at_time Demo.two))
    = Ok (S754_finite false (2 ^ 52) (-49))
  ∧ fst (get_timeout (mkStepControl 0 [] Demo.one true None 0 None) (Clock.at_time Demo.ten))
    = Ok Binary64.zero.
Proof. repeat split; vm_compute; reflexivity. Qed.

(** The encoding agrees with [struct.pack("<d", x)] on 1.0, on the
    smallest negative subnormal, on NaN and on minus infinity; and
    [1.0 - 2**-54] is a tie that rounds to the even neighbour 1.0 while
    [1.0 - 2**-53] is representable. *)
Example binary64_samples :
  Binary64.pack_d Demo.one = [0; 0; 0; 0; 0; 0; 240; 63]
  ∧ Binary64.pack_d (S754_finite true 1 (-1074)) = [1; 0; 0; 0; 0; 0; 0; 128]
  ∧ Binary64.pack_d S754_nan = [0; 0; 0; 0; 0; 0; 248; 127]
  ∧ Binary64.pack_d (S754_infinity true) = [0; 0; 0; 0; 0; 0; 240; 255]
  ∧ Binary64.sub Demo.one (S754_finite false (2 ^ 52) (-106)) = Demo.one
  ∧ Binary64.sub Demo.one (S754_finite false (2 ^ 52) (-105))
    = S754_finite false (2 ^ 53 - 1) (-53).
Proof. repeat split; vm_compute; reflexivity. Qed.

(** [StepControl(1.0, 10.0, True, -1.0, b'')] fails in the weight setter. *)
Example init_rejects_negative_weight :
  fst (__init__ Demo.one Demo.ten true Demo.minus_one [] Start.world)
  = Raise (AssertionError no_message).
Proof. vm_compute. reflexivity. Qed.

(** A handle whose reference leads to a tensor of four bytes, as a forged
    pickle could produce: the accessors fail the way indexing and [struct]
    do on a short buffer. *)
Example short_block_is_refused :
  let w := mkWorld {[ 0%nat := [0; 0; 0; 0] ]} ∅ Binary64.zero [] in
  fst (get_stage Demo.handle w) = Raise IndexError
  ∧ fst (get_weight Demo.handle w) = Raise StructError
  ∧ set_scheduled_time Demo.one Demo.handle w = (Raise IndexError, w).
Proof. repeat split; vm_compute; reflexivity. Qed.

(** * The store after each setter, exactly *)

Lemma add_warnings_nil w : add_warnings [] w = w.
Proof. destruct w. unfold add_warnings. cbn. by rewrite app_nil_r. Qed.

Lemma when_warning c msg w :
  when c (logger_warning msg) w = (Ok (), add_warnings (if c then [msg] else []) w).
Proof. destruct c; cbn; [reflexivity|]. by rewrite add_warnings_nil. Qed.

Lemma add_warnings_app m1 m2 w :
  add_warnings m2 (add_warnings m1 w) = add_warnings (m1 ++ m2) w.
Proof. unfold add_warnings. cbn. by rewrite app_assoc. Qed.

Lemma block_add_warnings self msgs w : block self (add_warnings msgs w) = block self w.
Proof. reflexivity. Qed.

Lemma set_scheduled_time_exact t self w :
  length (block self w) = 18%nat →
  set_scheduled_time t self w =
    (Ok (), set_tensors
              (insert (_shared_buffer self)
                 (list_inserts 0 (Binary64.pack_d t) (block self w)))
              (add_warnings
                 (scheduled_time_warnings (Block.read_began_allreduce (block self w))
                    t (deadline self)) w)).
Proof.
  intros L. unfold set_scheduled_time.
  erewrite bind_ok; [|by apply get_began_allreduce_eq].
  erewrite bind_ok; [|apply when_warning].
  erewrite bind_ok; [|apply when_warning].
  rewrite add_warnings_app.
  rewrite struct_pack_into_d_eq by (change (length (block self w) >= 8)%nat; lia).
  reflexivity.
Qed.

Lemma set_weight_exact x self w :
  length (block self w) = 18%nat →
  valid_weight x = true →
  set_weight x self w =
    (Ok (), set_tensors
              (insert (_shared_buffer self)
                 (list_inserts 8 (Binary64.pack_d x) (block self w)))
              (add_warnings (weight_warnings (Block.read_began_allreduce (block self w))) w)).
Proof.
  intros L H. unfold set_weight.
  erewrite bind_ok; [|unfold valid_weight in H; rewrite H; reflexivity].
  erewrite bind_ok; [|by apply get_began_allreduce_eq].
  erewrite bind_ok; [|apply when_warning].
  rewrite struct_pack_into_d_eq by (change (8 + 8 <= length (block self w))%nat; lia).
  reflexivity.
Qed.

Lemma set_stage_exact s self w :
  length (block self w) = 18%nat →
  set_stage s self w =
    (Ok (if AveragingStage.eqb s AveragingStage.RUNNING_ALLREDUCE
         then with_can_modify (Some false) self else self),
     set_tensors
       (insert (_shared_buffer self) (<[16%nat := AveragingStage.value s]> (block self w))) w).
Proof.
  intros L. unfold set_stage. cbv zeta.
  assert (E : _shared_buffer
                (if AveragingStage.eqb s AveragingStage.RUNNING_ALLREDUCE
                 then with_can_modify (Some false) self else self) = _shared_buffer self)
    by (by destruct (AveragingStage.eqb _ _)).
  rewrite E.
  erewrite bind_ok; [|apply tensor_setitem_eq; unfold block in L; lia].
  reflexivity.
Qed.

Lemma set_began_allreduce_exact v self w :
  length (block self w) = 18%nat →
  set_began_allreduce v self w =
    (Ok (), set_tensors
              (insert (_shared_buffer self) (<[17%nat := if v then 1 else 0]> (block self w))) w).
Proof.
  intros L. unfold set_began_allreduce.
  apply tensor_setitem_eq. unfold block in L. lia.
Qed.

(** * Frames *)

Lemma frame_refl ref t w : frame ref t w w.
Proof. repeat split; try done. exists []. by rewrite app_nil_r. Qed.

Lemma frame_trans ref t w1 w2 w3 :
  frame ref t w1 w2 → frame ref t w2 w3 → frame ref t w1 w3.
Proof.
  intros (Hc & Ht & Hf & [m1 Hm1]) (Hc' & Ht' & Hf' & [m2 Hm2]).
  split; [congruence|]. split; [|split].
  - intros r Hr. rewrite Ht' by done. by apply Ht.
  - intros u Hu. rewrite Hf' by done. by apply Hf.
  - exists (m1 ++ m2). rewrite Hm2, Hm1. by rewrite app_assoc.
Qed.

Lemma frame_tensor ref t b msgs w :
  frame ref t w (set_tensors (insert ref b) (add_warnings msgs w)).
Proof.
  split; [reflexivity|]. split; [|split].
  - intros r Hr. cbn. by rewrite lookup_insert_ne.
  - reflexivity.
  - by exists msgs.
Qed.

Lemma frame_tensor_quiet ref t b w :
  frame ref t w (set_tensors (insert ref b) w).
Proof.
  split; [reflexivity|]. split; [|split].
  - intros r Hr. cbn. by rewrite lookup_insert_ne.
  - reflexivity.
  - exists []. cbn. by rewrite app_nil_r.
Qed.

Lemma frame_future ref u s w :
  frame ref (Some u) w (set_futures (insert u s) w).
Proof.
  split; [reflexivity|]. split; [reflexivity|]. split.
  - intros u' Hu. cbn. rewrite lookup_insert_ne; [done|congruence].
  - exists []. cbn. by rewrite app_nil_r.
Qed.

Lemma frame_warning ref t msg w : frame ref t w (add_warning msg w).
Proof. split; [reflexivity|]. split; [done|]. split; [done|]. by exists [msg]. Qed.

Lemma MPFuture_cancel_frame ref u w :
  frame ref (Some u) w (snd (MPFuture.cancel u w)).
Proof.
  unfold MPFuture.cancel, MPFuture.get_state, mbind, M_bind.
  destruct (MPFuture.state u w); cbn; try apply frame_refl.
  apply frame_future.
Qed.

Lemma cancel_frame depth self w :
  frame (_shared_buffer self) (_trigger self) w (snd (cancel depth self w)).
Proof.
  revert w. induction depth as [|d IH]; intros w; [apply frame_refl|].
  cbn [cancel]. destruct (_trigger self) as [t|] eqn:Ht.
  - destruct (MPFuture_cancel_ok t w) as [b Hb].
    erewrite bind_ok; [|erewrite bind_ok; [|exact Hb]; reflexivity].
    eapply frame_trans; [apply MPFuture_cancel_frame|]. apply IH.
  - erewrite bind_ok; [|reflexivity]. apply IH.
Qed.

Lemma run_frame op self w :
  length (block self w) = 18%nat →
  frame (_shared_buffer self) (_trigger self) w (snd (run op self w)).
Proof.
  intros L.
  destruct op as [t| | | |t| |x| |s| |b| |d]; cbn [run]; rewrite ?snd_bind_ret.
  - unfold attach_trigger. destruct (_trigger self); apply frame_refl.
  - unfold allow_allreduce. destruct (_trigger self) as [t|]; [|apply frame_refl].
    unfold MPFuture.done, MPFuture.set_result, MPFuture.get_state, mbind, M_bind.
    unfold MPFuture.state. cbn.
    destruct (default FutureState.PENDING (futures w !! t)) eqn:Hs; cbn; rewrite Hs; cbn.
    + apply frame_future.
    + apply frame_warning.
    + apply frame_warning.
  - unfold wait_for_trigger. destruct (_trigger self) as [t|]; [|apply frame_refl].
    unfold MPFuture.await, MPFuture.get_state, mbind, M_bind.
    destruct (MPFuture.state t w) as [|[v|e]|]; apply frame_refl.
  - rewrite get_scheduled_time_eq by exact L. apply frame_refl.
  - rewrite set_scheduled_time_exact by exact L. apply frame_tensor.
  - rewrite get_weight_eq by exact L. apply frame_refl.
  - destruct (valid_weight x) eqn:Hx.
    + rewrite set_weight_exact by assumption. apply frame_tensor.
    + rewrite set_weight_invalid by exact Hx. apply frame_refl.
  - rewrite get_stage_eq by exact L. apply frame_refl.
  - rewrite set_stage_exact by exact L. apply frame_tensor_quiet.
  - rewrite get_began_allreduce_eq by exact L. apply frame_refl.
  - rewrite set_began_allreduce_exact by exact L. apply frame_tensor_quiet.
  - apply frame_refl.
  - apply cancel_frame.
Qed.

(** * The handle object across calls *)

Lemma run_object op self w self' w' :
  run op self w = (Ok self', w') →
  self' = match op with
          | OpAttachTrigger t => with_trigger (Some t) self
          | OpSetStage s =>
              if AveragingStage.eqb s AveragingStage.RUNNING_ALLREDUCE
              then with_can_modify (Some false) self else self
          | _ => self
          end.
Proof.
  destruct op as [t| | | |t| |x| |s| |b| |d]; cbn [run];
    try (unfold mbind, M_bind;
         match goal with |- context [match ?m with _ => _ end] =>
           destruct m as [[a|e] w1] end; intros [= <- <-]; done).
  - unfold attach_trigger. destruct (_trigger self); intros [= <- <-]; done.
  - unfold set_stage, mbind, M_bind. cbv zeta.
    destruct (tensor_setitem _ _ _ w) as [[a|e] w1]; intros [= <- <-]. done.
Qed.

(** * Construction, step by step *)

Lemma fresh_tensor_free (w : World) : tensors w !! fresh (dom (tensors w)) = None.
Proof. apply not_elem_of_dom, is_fresh. Qed.

Lemma fresh_future_free (w : World) : futures w !! fresh (dom (futures w)) = None.
Proof. apply not_elem_of_dom, is_fresh. Qed.

Lemma init_store st dl ar x gb w :
  let uid := fresh (dom (futures w)) in
  let ref := fresh (dom (tensors w)) in
  let self := mkStepControl uid gb dl ar None ref None in
  let b1 := <[16%nat := 0]> (replicate 18 0) in
  let b2 := list_inserts 0 (Binary64.pack_d st) b1 in
  let b3 := list_inserts 8 (Binary64.pack_d x) b2 in
  let w4 := set_tensors (insert ref b2)
              (add_warnings (scheduled_time_warnings false st dl)
                 (set_tensors (insert ref b1)
                    (set_tensors (insert ref (replicate 18 0))
                       (set_futures (insert uid FutureState.PENDING) w)))) in
  __init__ st dl ar x gb w =
    if valid_weight x
    then (Ok self, set_tensors (insert ref (<[17%nat := 0]> b3))
                     (set_tensors (insert ref b3) w4))
    else (Raise (AssertionError no_message), w4).
Proof.
  intros uid ref self b1 b2 b3 w4. unfold __init__.
  set (w1 := set_futures (insert uid FutureState.PENDING) w).
  set (w2 := set_tensors (insert ref (replicate 18 0)) w1).
  rewrite (bind_ok MPFuture.create _ w uid w1 eq_refl).
  rewrite (bind_ok (torch_zeros_shared 18) _ w1 ref w2 eq_refl).
  change (mkStepControl _ gb dl ar None _ None) with self.
  assert (B2 : block self w2 = replicate 18 0) by apply tensor_bytes_insert.
  rewrite (bind_ok _ _ w2 _ _ (set_stage_exact AveragingStage.IDLE self w2
             ltac:(by rewrite B2, length_replicate))).
  cbn [AveragingStage.eqb AveragingStage.value Z.eqb]. rewrite B2.
  change (_shared_buffer self) with ref.
  change (<[16%nat := 0]> (replicate 18 0)) with b1.
  set (w3 := set_tensors (insert ref b1) w2).
  assert (B3 : block self w3 = b1) by apply tensor_bytes_insert.
  rewrite (bind_ok _ _ w3 _ _ (set_scheduled_time_exact st self w3
             ltac:(by rewrite B3))).
  rewrite B3. change (Block.read_began_allreduce b1) with false.
  change (_shared_buffer self) with ref. change (deadline self) with dl.
  change (set_tensors _ (add_warnings _ w3)) with w4.
  assert (B4 : block self w4 = b2) by apply tensor_bytes_insert.
  assert (L4 : length (block self w4) = 18%nat)
    by (rewrite B4; unfold b2; by rewrite length_inserts).
  destruct (valid_weight x) eqn:Hx.
  - rewrite (bind_ok _ _ w4 _ _ (set_weight_exact x self w4 L4 Hx)).
    rewrite B4.
    assert (R : Block.read_began_allreduce b2 = false)
      by (unfold b2; by rewrite BlockFacts.read_began_allreduce_inserts by lia).
    rewrite R.
    cbn [weight_warnings]. rewrite add_warnings_nil.
    change (_shared_buffer self) with ref.
    change (list_inserts 8 (Binary64.pack_d x) b2) with b3.
    set (w5 := set_tensors (insert ref b3) w4).
    assert (B5 : block self w5 = b3) by apply tensor_bytes_insert.
    rewrite (bind_ok _ _ w5 _ _ (set_began_allreduce_exact false self w5
               ltac:(rewrite B5; unfold b3; by rewrite length_inserts))).
    rewrite B5. reflexivity.
  - erewrite bind_raise; [reflexivity|]. by apply set_weight_invalid.
Qed.

(** * Sequences of calls *)

Lemma run_all_cons op ops self w :
  run_all (op :: ops) self w =
    run_all ops (match fst (run op self w) with Ok self' => self' | Raise _ => self end)
      (snd (run op self w)).
Proof. cbn [run_all]. by destruct (run op self w) as [[a|e] w1]. Qed.

(** The object one call leaves: the call's result, or the object itself
    when the call raised. *)
Lemma run_step_object op self w :
  length (block self w) = 18%nat →
  match fst (run op self w) with Ok self' => self' | Raise _ => self end =
    match op with
    | OpAttachTrigger t =>
        match _trigger self with None => with_trigger (Some t) self | Some _ => self end
    | OpSetStage s =>
        if AveragingStage.eqb s AveragingStage.RUNNING_ALLREDUCE
        then with_can_modify (Some false) self else self
    | _ => self
    end.
Proof.
  intros L. destruct (run op self w) as [[self'|e] w'] eqn:E; cbn [fst].
  - rewrite (run_object _ _ _ _ _ E).
    destruct op; try reflexivity.
    unfold run, attach_trigger in E. by destruct (_trigger self).
  - destruct op; try reflexivity.
    + unfold run, attach_trigger in E. by destruct (_trigger self).
    + unfold run in E. rewrite set_stage_exact in E by exact L. discriminate.
Qed.

Lemma step_shared_buffer op self w :
  _shared_buffer (match fst (run op self w) with Ok self' => self' | Raise _ => self end)
  = _shared_buffer self.
Proof.
  destruct (run op self w) as [[self'|e] w'] eqn:E; cbn [fst]; [|reflexivity].
  by apply run_shared_buffer in E.
Qed.

Lemma step_length op self w :
  length (block self w) = 18%nat →
  length (block (match fst (run op self w) with Ok self' => self' | Raise _ => self end)
            (snd (run op self w))) = 18%nat.
Proof.
  intros L. unfold block. rewrite step_shared_buffer.
  by apply run_allocated.
Qed.

Lemma frame_weaken ref t w w' : frame ref None w w' → frame ref t w w'.
Proof.
  intros (Hc & Ht & Hf & Hm). repeat split; try assumption.
  intros u _. by apply Hf.
Qed.

Lemma run_all_trigger ops self w :
  _trigger (fst (run_all ops self w)) =
    match _trigger self with Some t => Some t | None => first_attach ops end.
Proof.
  revert self w. induction ops as [|op ops IH]; intros self w.
  - cbn. by destruct (_trigger self).
  - cbn [run_all].
    destruct (run op self w) as [[self'|e] w'] eqn:E.
    + rewrite IH. rewrite (run_object _ _ _ _ _ E).
      destruct op; cbn [first_attach]; try reflexivity.
      * unfold run, attach_trigger in E.
        destruct (_trigger self) as [t0|] eqn:Ht; [discriminate|].
        reflexivity.
      * by destruct (AveragingStage.eqb _ _).
    + rewrite IH.
      destruct op; cbn [first_attach]; try reflexivity.
      unfold run, attach_trigger in E.
      destruct (_trigger self) as [t0|] eqn:Ht; [reflexivity|discriminate].
Qed.

Lemma run_all_frame ops self w :
  length (block self w) = 18%nat →
  length (block (fst (run_all ops self w)) (snd (run_all ops self w))) = 18%nat
  ∧ _shared_buffer (fst (run_all ops self w)) = _shared_buffer self
  ∧ frame (_shared_buffer self) (_trigger (fst (run_all ops self w))) w
      (snd (run_all ops self w)).
Proof.
  revert self w. induction ops as [|op ops IH]; intros self w L.
  - cbn. split; [exact L|]. split; [reflexivity|]. apply frame_refl.
  - rewrite run_all_cons.
    set (self1 := match fst (run op self w) with Ok s => s | Raise _ => self end).
    set (w1 := snd (run op self w)).
    assert (L1 : length (block self1 w1) = 18%nat) by by apply step_length.
    assert (B1 : _shared_buffer self1 = _shared_buffer self) by apply step_shared_buffer.
    destruct (IH self1 w1 L1) as (L2 & B2 & F2).
    split; [exact L2|]. split; [congruence|].
    rewrite B1 in F2. eapply frame_trans; [|exact F2].
    pose proof (run_frame op self w L) as F1. fold w1 in F1.
    pose proof (run_all_trigger (op :: ops) self w) as T.
    rewrite run_all_cons in T. fold self1 w1 in T. rewrite T.
    destruct (_trigger self); [exact F1|]. by apply frame_weaken.
Qed.

(** * Cancellation and the trigger *)

Lemma cancel_world depth self w :
  snd (cancel (S depth) self w) =
    match _trigger self with
    | Some trigger => snd (MPFuture.cancel trigger w)
    | None => w
    end.
Proof.
  revert w. induction depth as [|d IH]; intros w.
  - cbn [cancel]. destruct (_trigger self) as [t|].
    + destruct (MPFuture_cancel_ok t w) as [b Hb].
      erewrite bind_ok; [|erewrite bind_ok; [|exact Hb]; reflexivity]. reflexivity.
    + reflexivity.
  - change (cancel (S (S d)) self) with
      (match _trigger self with
       | Some trigger => MPFuture.cancel trigger;; mret ()
       | None => mret ()
       end;; cancel (S d) self).
    destruct (_trigger self) as [t|] eqn:Ht.
    + destruct (MPFuture_cancel_ok t w) as [b Hb].
      erewrite bind_ok; [|erewrite bind_ok; [|exact Hb]; reflexivity].
      rewrite IH. apply MPFuture_cancel_idem.
    + erewrite bind_ok; [|reflexivity]. apply IH.
Qed.

(** * What construction leaves in the store *)

Lemma init_facts st dl ar x gb w :
  let uid := fresh (dom (futures w)) in
  let ref := fresh (dom (tensors w)) in
  let self := mkStepControl uid gb dl ar None ref None in
  let b := list_inserts 0 (Binary64.pack_d st) (<[16%nat := 0]> (replicate 18 0)) in
  let b' := if valid_weight x
            then <[17%nat := 0]> (list_inserts 8 (Binary64.pack_d x) b) else b in
  let w' := snd (__init__ st dl ar x gb w) in
  fst (__init__ st dl ar x gb w) =
    (if valid_weight x then Ok self else Raise (AssertionError no_message))
  ∧ tensors w' !! ref = Some b'
  ∧ length b' = 18%nat
  ∧ (∀ r, r ≠ ref → tensors w' !! r = tensors w !! r)
  ∧ futures w' = <[uid := FutureState.PENDING]> (futures w)
  ∧ dht_time w' = dht_time w
  ∧ warnings w' = warnings w ++ scheduled_time_warnings false st dl.
Proof.
  intros uid ref self b b' w'. unfold w', b'.
  rewrite init_store. fold uid ref self b.
  destruct (valid_weight x); cbn [fst snd].
  - split; [reflexivity|]. split; [cbn; by rewrite lookup_insert_eq|].
    split; [unfold b; by rewrite length_insert, !length_inserts, length_insert, length_replicate|].
    split; [intros r Hr; cbn; by rewrite !lookup_insert_ne by done|].
    repeat split.
  - split; [reflexivity|]. split; [cbn; by rewrite lookup_insert_eq|].
    split; [unfold b; by rewrite !length_inserts, length_insert, length_replicate|].
    split; [intros r Hr; cbn; by rewrite !lookup_insert_ne by done|].
    repeat split.
Qed.

(** * Further properties of the handle *)

(** X1: the stage getter reads byte 16 of the block and looks it up among
    the members of [AveragingStage].  It returns the member whose value the
    byte is, which exists exactly when the byte is one of 0..4, and raises
    [ValueError] on any other byte; the store is untouched either way.
    Each member is found again from its own value. *)
Theorem stage_getter_decodes_byte_16 self w v :
  allocated self w →
  block self w !! 16%nat = Some v →
  (∀ s, get_stage self w = (Ok s, w) ↔ AveragingStage.value s = v)
  ∧ (get_stage self w = (Raise ValueError, w) ↔ ¬ (0 <= v <= 4))
  ∧ snd (get_stage self w) = w
  ∧ (∀ s, AveragingStage.of_value (AveragingStage.value s) = Ok s).
Proof.
  intros Ha Hv. apply allocated_length in Ha.
  rewrite get_stage_eq by exact Ha. unfold Block.read_stage. rewrite Hv. cbn [default].
  split; [|split; [|split]].
  - intros s. split.
    + intros [= E]. destruct v as [|[[[]|[]|]|[[]|[]|]|]|]; try discriminate;
        injection E as <-; reflexivity.
    + intros <-. by destruct s.
  - split.
    + intros [= E] Hr.
      destruct v as [|[[[]|[]|]|[[]|[]|]|]|]; try discriminate; lia.
    + intros Hr. destruct v as [|[[[]|[]|]|[[]|[]|]|]|]; try reflexivity; lia.
  - reflexivity.
  - by intros [].
Qed.

Lemma stage_getter_decodes_byte_16_witness :
  get_stage Demo.handle Demo.world = (Ok AveragingStage.IDLE, Demo.world).
Proof.
  destruct (stage_getter_decodes_byte_16 Demo.handle Demo.world 0 demo_allocated eq_refl)
    as (H & _).
  by apply H.
Defined.

(** X2: a handle keeps the first trigger attached to it.  After any
    sequence of calls the trigger is the one the handle had at the start
    or, if it had none, the one of the first [attach_trigger] in the
    sequence; a later [attach_trigger] raises [AssertionError] and changes
    neither the handle nor the store. *)
Theorem first_attached_trigger_stays ops self w :
  _trigger (fst (run_all ops self w)) =
    match _trigger self with Some t => Some t | None => first_attach ops end
  ∧ (∀ t, _trigger self = None →
       attach_trigger t self w = (Ok (with_trigger (Some t) self), w))
  ∧ (∀ t t0, _trigger self = Some t0 →
       attach_trigger t self w = (Raise (AssertionError "trigger is already attached"), w)
       ∧ run_all (OpAttachTrigger t :: ops) self w = run_all ops self w).
Proof.
  split; [apply run_all_trigger|]. split.
  - intros t H. unfold attach_trigger. by rewrite H.
  - intros t t0 H.
    assert (E : attach_trigger t self w
                = (Raise (AssertionError "trigger is already attached"), w))
      by (unfold attach_trigger; by rewrite H).
    split; [exact E|]. cbn [run_all run]. by rewrite E.
Qed.

(** X3: what the constructor fixed stays fixed.  After any sequence of
    calls the handle has the future, [gather_binary], [deadline],
    [allow_retries] and shared block it was built with: these are
    read-only properties and no method assigns them. *)
Theorem constructor_fields_never_change ops self w :
  base (fst (run_all ops self w)) = base self
  ∧ gather_binary (fst (run_all ops self w)) = gather_binary self
  ∧ deadline (fst (run_all ops self w)) = deadline self
  ∧ allow_retries (fst (run_all ops self w)) = allow_retries self
  ∧ _shared_buffer (fst (run_all ops self w)) = _shared_buffer self.
Proof.
  revert self w. induction ops as [|op ops IH]; intros self w; [done|].
  cbn [run_all]. destruct (run op self w) as [[self'|e] w'] eqn:E; [|apply IH].
  destruct (IH self' w') as (H1 & H2 & H3 & H4 & H5).
  rewrite H1, H2, H3, H4, H5. rewrite (run_object _ _ _ _ _ E).
  destruct op; try done. by destruct (AveragingStage.eqb _ _).
Qed.

(** X4: the flag [can_modify] is only ever cleared.  After any sequence
    of calls on an allocated handle it is false if the sequence set the
    stage to [RUNNING_ALLREDUCE] at some point, and otherwise what it was:
    no call sets it back, not even a later change of stage. *)
Theorem can_modify_is_only_cleared ops self w :
  allocated self w →
  can_modify (fst (run_all ops self w)) =
    if existsb is_set_stage_running ops then Some false else can_modify self.
Proof.
  intros Ha. apply allocated_length in Ha.
  revert self w Ha. induction ops as [|op ops IH]; intros self w L; [reflexivity|].
  rewrite run_all_cons. rewrite IH by by apply step_length.
  rewrite run_step_object by exact L. cbn [existsb].
  destruct op; cbn [is_set_stage_running orb]; try reflexivity.
  - by destruct (_trigger self).
  - destruct (AveragingStage.eqb s AveragingStage.RUNNING_ALLREDUCE); cbn [orb]; [|reflexivity].
    by destruct (existsb _ _).
Qed.

Lemma can_modify_is_only_cleared_witness :
  can_modify (fst (run_all [OpSetStage AveragingStage.RUNNING_ALLREDUCE;
                            OpSetStage AveragingStage.FINISHED;
                            OpSetStage AveragingStage.IDLE] Demo.handle Demo.world))
  = Some false.
Proof.
  exact (can_modify_is_only_cleared
           [OpSetStage AveragingStage.RUNNING_ALLREDUCE;
            OpSetStage AveragingStage.FINISHED;
            OpSetStage AveragingStage.IDLE] Demo.handle Demo.world demo_allocated).
Defined.

(** X5: calls on a handle stay within the handle.  After any sequence
    of calls on an allocated handle its block is still allocated, the clock
    reads the same, every other tensor and every future other than the
    attached trigger is as it was, and the log has only grown. *)
Theorem calls_stay_within_the_handle ops self w :
  allocated self w →
  allocated (fst (run_all ops self w)) (snd (run_all ops self w))
  ∧ frame (_shared_buffer self) (_trigger (fst (run_all ops self w))) w
      (snd (run_all ops self w)).
Proof.
  intros Ha. apply allocated_length in Ha.
  destruct (run_all_frame ops self w Ha) as (L & B & F).
  split; [|exact F].
  unfold allocated. unfold block, tensor_bytes in L.
  destruct (tensors _ !! _) as [b|]; [eauto|discriminate].
Qed.

Lemma calls_stay_within_the_handle_witness :
  frame 0 (Some 1%nat) Demo.world
    (snd (run_all [OpAttachTrigger 1; OpSetWeight Demo.two; OpAllowAllreduce; OpCancel 5]
            Demo.handle Demo.world)).
Proof.
  exact (proj2 (calls_stay_within_the_handle
                  [OpAttachTrigger 1; OpSetWeight Demo.two; OpAllowAllreduce; OpCancel 5]
                  Demo.handle Demo.world demo_allocated)).
Defined.

Lemma first_attached_trigger_stays_witness :
  _trigger (fst (run_all [OpAttachTrigger 1; OpAttachTrigger 0] Demo.handle Demo.world))
  = Some 1%nat.
Proof.
  exact (proj1 (first_attached_trigger_stays [OpAttachTrigger 1; OpAttachTrigger 0]
                  Demo.handle Demo.world)).
Defined.

(** X6: the trigger protocol.  On a handle without a trigger,
    [allow_allreduce] and [wait_for_trigger] raise [AssertionError] and
    change nothing.  Once a pending trigger is attached, a waiter stays
    suspended until [allow_allreduce] is called; that call logs nothing,
    resolves the trigger with [None] and changes nothing else, and the
    waiter then resumes with [None]. *)
Theorem allow_allreduce_releases_waiter self t w :
  _trigger self = None →
  MPFuture.state t w = FutureState.PENDING →
  allow_allreduce self w = (Raise (AssertionError not_initialized), w)
  ∧ wait_for_trigger self w = (Raise (AssertionError not_initialized), w)
  ∧ ∃ wired, attach_trigger t self w = (Ok wired, w)
      ∧ wait_for_trigger wired w = (Ok None, w)
      ∧ ∃ w', allow_allreduce wired w = (Ok (), w')
          ∧ wait_for_trigger wired w' = (Ok (Some PyNone), w')
          ∧ futures w' = <[t := FutureState.FINISHED (Ok PyNone)]> (futures w)
          ∧ tensors w' = tensors w
          ∧ warnings w' = warnings w
          ∧ dht_time w' = dht_time w.
Proof.
  intros Hn Hs.
  split; [unfold allow_allreduce; by rewrite Hn|].
  split; [unfold wait_for_trigger; by rewrite Hn|].
  exists (with_trigger (Some t) self).
  split; [unfold attach_trigger; by rewrite Hn|].
  split.
  { unfold wait_for_trigger, MPFuture.await, MPFuture.get_state, mbind, M_bind.
    cbn [with_trigger _trigger]. by rewrite Hs. }
  exists (set_futures (insert t (FutureState.FINISHED (Ok PyNone))) w).
  split.
  { unfold allow_allreduce. cbn [with_trigger _trigger].
    unfold MPFuture.done, MPFuture.set_result, MPFuture.get_state, mbind, M_bind.
    rewrite Hs. cbn [mret M_ret when]. by rewrite Hs. }
  split; [|done].
  unfold wait_for_trigger, MPFuture.await, MPFuture.get_state, mbind, M_bind.
  cbn [with_trigger _trigger]. by rewrite MPFuture_state_insert.
Qed.

Lemma allow_allreduce_releases_waiter_witness :
  ∃ w', allow_allreduce Demo.wired Demo.world = (Ok (), w')
        ∧ wait_for_trigger Demo.wired Demo.world = (Ok None, Demo.world)
        ∧ wait_for_trigger Demo.wired w' = (Ok (Some PyNone), w').
Proof.
  destruct (allow_allreduce_releases_waiter Demo.handle 1%nat Demo.world eq_refl eq_refl)
    as (_ & _ & wired & Hw & Hwait & w' & Hallow & Hresumed & _).
  injection Hw as <-.
  exists w'. split; [exact Hallow|]. split; [exact Hwait|exact Hresumed].
Defined.

(** X7: what [cancel] does reach.  Although the call itself ends in
    [RecursionError], by then it has cancelled a trigger that was still
    pending: a waiter on the trigger gets [CancelledError] and
    [allow_allreduce] can no longer release it.  A trigger that was already
    resolved is left alone, and so is the whole store. *)
Theorem cancel_reaches_the_waiter depth self t w :
  _trigger self = Some t →
  (MPFuture.state t w = FutureState.PENDING →
     MPFuture.state t (snd (cancel (S depth) self w)) = FutureState.CANCELLED
     ∧ fst (wait_for_trigger self (snd (cancel (S depth) self w))) = Raise CancelledError
     ∧ fst (allow_allreduce self (snd (cancel (S depth) self w))) = Raise InvalidStateError)
  ∧ (∀ r, MPFuture.state t w = FutureState.FINISHED r →
     snd (cancel (S depth) self w) = w)
  ∧ (∀ u, u ≠ t →
     MPFuture.state u (snd (cancel (S depth) self w)) = MPFuture.state u w).
Proof.
  intros Ht. rewrite cancel_world, Ht.
  unfold MPFuture.cancel, MPFuture.get_state, mbind, M_bind.
  split; [|split].
  - intros Hs. rewrite Hs. cbn [snd MPFuture.put_state mret M_ret].
    split; [apply MPFuture_state_insert|]. split.
    + unfold wait_for_trigger, MPFuture.await, MPFuture.get_state, mbind, M_bind.
      rewrite Ht. by rewrite MPFuture_state_insert.
    + rewrite (allow_allreduce_resolved self t); [reflexivity|exact Ht|].
      by rewrite MPFuture_state_insert.
  - intros r Hs. by rewrite Hs.
  - intros u Hu. destruct (MPFuture.state t w); try reflexivity.
    cbn. unfold MPFuture.state. cbn. by rewrite lookup_insert_ne.
Qed.

Lemma cancel_reaches_the_waiter_witness :
  fst (wait_for_trigger Demo.wired (snd (cancel 3 Demo.wired Demo.world)))
  = Raise CancelledError.
Proof.
  destruct (cancel_reaches_the_waiter 2 Demo.wired 1%nat Demo.world eq_refl) as (H & _).
  destruct (H eq_refl) as (_ & H2 & _). exact H2.
Defined.

(** X8: what the setters log.  On an allocated handle the setter of
    [scheduled_time] appends to the log the warning about a started
    all-reduce when [began_allreduce] reads true, then the warning about
    the deadline when [t >= deadline], which a NaN on either side never
    satisfies, and nothing else.  The setter of [weight] appends the
    warning about a started all-reduce when [began_allreduce] reads true
    and its argument is accepted, nothing when it rejects its argument.
    The setters of [stage] and [began_allreduce] log nothing. *)
Theorem setters_log_their_warnings self w :
  allocated self w →
  (∀ t, warnings (snd (set_scheduled_time t self w)) =
          warnings w ++
          scheduled_time_warnings (Block.read_began_allreduce (block self w)) t (deadline self))
  ∧ (∀ t, t = S754_nan ∨ deadline self = S754_nan →
          warnings (snd (set_scheduled_time t self w)) =
          warnings w ++
          if Block.read_began_allreduce (block self w)
          then ["Changing scheduled time has no effect after all-reduce has already started"]
          else [])
  ∧ (∀ x, warnings (snd (set_weight x self w)) =
          warnings w ++
          if valid_weight x
          then weight_warnings (Block.read_began_allreduce (block self w)) else [])
  ∧ (∀ s, warnings (snd (set_stage s self w)) = warnings w)
  ∧ (∀ v, warnings (snd (set_began_allreduce v self w)) = warnings w).
Proof.
  intros Ha. apply allocated_length in Ha.
  split; [|split; [|split; [|split]]].
  - intros t. by rewrite set_scheduled_time_exact.
  - intros t Hn. rewrite set_scheduled_time_exact by exact Ha.
    cbn [snd set_tensors add_warnings warnings]. f_equal.
    unfold scheduled_time_warnings.
    assert (G : Binary64.ge t (deadline self) = false).
    { destruct Hn as [-> | ->]; [reflexivity|].
      unfold Binary64.ge. by destruct t as [|[]| |]. }
    rewrite G. by rewrite app_nil_r.
  - intros x. destruct (valid_weight x) eqn:Hx.
    + by rewrite set_weight_exact.
    + rewrite set_weight_invalid by exact Hx. cbn. by rewrite app_nil_r.
  - intros s. by rewrite set_stage_exact.
  - intros v. by rewrite set_began_allreduce_exact.
Qed.

Lemma setters_log_their_warnings_witness :
  warnings (snd (set_scheduled_time Demo.ten Demo.handle Demo.world)) =
    ["Changing scheduled time to after deadline, averaging will likely fail due to timeout."].
Proof.
  destruct (setters_log_their_warnings Demo.handle Demo.world demo_allocated) as (H & _).
  exact (H Demo.ten).
Defined.

(** * Construction *)

(** X9: the constructor stores its arguments.  For a weight that is
    >= 0 and finite, the handle it returns reads back the scheduled time and
    the weight it was given (any binary64 values), has no [can_modify]
    attribute, and its own future is pending; the constructor logs the
    warning about the deadline when [scheduled_time >= deadline], and
    nothing else. *)
Theorem init_stores_its_arguments st dl ar x gb w :
  valid_weight x = true →
  Binary64.is_valid st = true →
  Binary64.is_valid x = true →
  ∃ self w', __init__ st dl ar x gb w = (Ok self, w')
    ∧ get_scheduled_time self w' = (Ok st, w')
    ∧ get_weight self w' = (Ok x, w')
    ∧ can_modify self = None
    ∧ MPFuture.state (base self) w' = FutureState.PENDING
    ∧ warnings w' = warnings w ++
        if Binary64.ge st dl
        then ["Changing scheduled time to after deadline, averaging will likely fail due to timeout."]
        else [].
Proof.
  intros Hx Vst Vx.
  pose proof (init_facts st dl ar x gb w) as F. cbv zeta in F. rewrite Hx in F.
  destruct F as (Ho & Hb & Hl & _ & Hf & _ & Hw).
  destruct (__init__ st dl ar x gb w) as [o w'] eqn:E. cbn [fst snd] in *. subst o.
  eexists _, w'. split; [reflexivity|].
  set (self := mkStepControl _ gb dl ar None _ None) in *.
  assert (B : block self w' = <[17%nat := 0]> (list_inserts 8 (Binary64.pack_d x)
                (list_inserts 0 (Binary64.pack_d st) (<[16%nat := 0]> (replicate 18 0)))))
    by (unfold block, tensor_bytes; cbn [_shared_buffer self]; by rewrite Hb).
  assert (L : length (block self w') = 18%nat) by (rewrite B; exact Hl).
  split.
  { rewrite get_scheduled_time_eq, B by exact L.
    rewrite BlockFacts.read_scheduled_time_insert by lia.
    rewrite BlockFacts.read_scheduled_time_inserts.
    by rewrite BlockFacts.read_scheduled_time_written
      by (by rewrite ?length_insert, ?length_replicate). }
  split.
  { rewrite get_weight_eq, B by exact L.
    rewrite BlockFacts.read_weight_insert by lia.
    by rewrite BlockFacts.read_weight_written
      by (by rewrite ?length_inserts, ?length_insert, ?length_replicate). }
  split; [reflexivity|]. split.
  - unfold MPFuture.state. rewrite Hf. cbn [base self]. by rewrite lookup_insert_eq.
  - rewrite Hw. reflexivity.
Qed.

Lemma init_stores_its_arguments_witness :
  ∃ self w', Start.built = (Ok self, w')
    ∧ get_scheduled_time self w' = (Ok Demo.one, w')
    ∧ get_weight self w' = (Ok Demo.one, w')
    ∧ warnings w' = [].
Proof.
  destruct (init_stores_its_arguments Demo.one Demo.ten true Demo.one [] Start.world
              eq_refl eq_refl eq_refl) as (self & w' & H1 & H2 & H3 & _ & _ & H4).
  exists self, w'. split; [exact H1|]. split; [exact H2|]. split; [exact H3|exact H4].
Defined.

(** X10: the constructor works on storage of its own.  It returns a
    handle exactly when the weight is >= 0 and finite and raises
    [AssertionError] otherwise; the block and the future of the handle it
    returns were not in use before the call, and the block is allocated
    after it.  Whether it returns or raises, every tensor and every future
    that existed before the call is as it was, and so is the clock. *)
Theorem init_allocates_afresh st dl ar x gb w :
  ((∃ self, fst (__init__ st dl ar x gb w) = Ok self) ↔ valid_weight x = true)
  ∧ (valid_weight x = false →
       fst (__init__ st dl ar x gb w) = Raise (AssertionError no_message))
  ∧ (∀ self, fst (__init__ st dl ar x gb w) = Ok self →
       tensors w !! _shared_buffer self = None
       ∧ futures w !! base self = None
       ∧ allocated self (snd (__init__ st dl ar x gb w)))
  ∧ (∀ r b, tensors w !! r = Some b →
       tensors (snd (__init__ st dl ar x gb w)) !! r = Some b)
  ∧ (∀ u s, futures w !! u = Some s →
       futures (snd (__init__ st dl ar x gb w)) !! u = Some s)
  ∧ dht_time (snd (__init__ st dl ar x gb w)) = dht_time w.
Proof.
  pose proof (init_facts st dl ar x gb w) as F. cbv zeta in F.
  destruct F as (Ho & Hb & Hl & Ht & Hf & Hc & _).
  split; [|split; [|split; [|split; [|split]]]].
  - rewrite Ho. destruct (valid_weight x); split; try done; eauto.
    intros [self [=]].
  - intros Hx. by rewrite Ho, Hx.
  - intros self. rewrite Ho. destruct (valid_weight x); [|done]. intros [= <-].
    cbn [_shared_buffer base].
    split; [apply fresh_tensor_free|]. split; [apply fresh_future_free|].
    eexists. split; [exact Hb|exact Hl].
  - intros r b Hr. rewrite Ht; [exact Hr|].
    intros ->. by rewrite fresh_tensor_free in Hr.
  - intros u s Hu. rewrite Hf. rewrite lookup_insert_ne; [exact Hu|].
    intros <-. by rewrite fresh_future_free in Hu.
  - exact Hc.
Qed.

Lemma init_allocates_afresh_witness :
  fst (__init__ Demo.one Demo.ten true Demo.minus_one [] Demo.world)
    = Raise (AssertionError no_message)
  ∧ tensors (snd (__init__ Demo.one Demo.ten true Demo.minus_one [] Demo.world)) !! 0%nat
    = Some (replicate 18 0).
Proof.
  destruct (init_allocates_afresh Demo.one Demo.ten true Demo.minus_one [] Demo.world)
    as (_ & H1 & _ & H2 & _).
  split; [by apply H1|by apply H2].
Defined.

(** X11: two handles built one after the other share nothing.  Their
    blocks and their futures are distinct, building the second leaves the
    block of the first as it was, and no sequence of calls on either handle
    changes a byte of the other's block. *)
Theorem separate_handles_do_not_interfere
    st1 dl1 ar1 x1 gb1 st2 dl2 ar2 x2 gb2 w h1 w1 h2 w2 :
  __init__ st1 dl1 ar1 x1 gb1 w = (Ok h1, w1) →
  __init__ st2 dl2 ar2 x2 gb2 w1 = (Ok h2, w2) →
  _shared_buffer h1 ≠ _shared_buffer h2
  ∧ base h1 ≠ base h2
  ∧ block h1 w2 = block h1 w1
  ∧ (∀ ops, block h1 (snd (run_all ops h2 w2)) = block h1 w2)
  ∧ (∀ ops, block h2 (snd (run_all ops h1 w2)) = block h2 w2).
Proof.
  intros E1 E2.
  pose proof (init_facts st1 dl1 ar1 x1 gb1 w) as F1.
  pose proof (init_facts st2 dl2 ar2 x2 gb2 w1) as F2.
  cbv zeta in F1, F2. rewrite E1 in F1. rewrite E2 in F2. cbn [fst snd] in F1, F2.
  destruct F1 as (Ho1 & Hb1 & Hl1 & _ & Hf1 & _).
  destruct F2 as (Ho2 & Hb2 & Hl2 & Ht2 & Hf2 & _).
  destruct (valid_weight x1); [|discriminate].
  destruct (valid_weight x2); [|discriminate].
  injection Ho1 as ->. injection Ho2 as ->. cbn [_shared_buffer base] in *.
  assert (N : fresh (dom (tensors w)) ≠ fresh (dom (tensors w1))).
  { intros E. pose proof (fresh_tensor_free w1) as Hn.
    rewrite <- E in Hn. by rewrite Hb1 in Hn. }
  assert (L1 : tensors w2 !! fresh (dom (tensors w)) = Some
                 (<[17%nat := 0]> (list_inserts 8 (Binary64.pack_d x1)
                    (list_inserts 0 (Binary64.pack_d st1) (<[16%nat := 0]> (replicate 18 0))))))
    by (rewrite Ht2 by exact N; exact Hb1).
  split; [exact N|]. split.
  { intros E. pose proof (fresh_future_free w1) as Hn.
    rewrite <- E, Hf1 in Hn. by rewrite lookup_insert_eq in Hn. }
  split.
  { unfold block, tensor_bytes. cbn [_shared_buffer]. by rewrite L1, Hb1. }
  split.
  - intros ops.
    set (h2 := mkStepControl _ gb2 dl2 ar2 None _ None).
    assert (A2 : length (block h2 w2) = 18%nat)
      by (unfold block, tensor_bytes; cbn [h2 _shared_buffer]; by rewrite Hb2).
    destruct (run_all_frame ops h2 w2 A2) as (_ & _ & _ & Ht & _).
    unfold block, tensor_bytes. cbn [_shared_buffer]. by rewrite Ht.
  - intros ops.
    set (h1 := mkStepControl _ gb1 dl1 ar1 None _ None).
    assert (A1 : length (block h1 w2) = 18%nat)
      by (unfold block, tensor_bytes; cbn [h1 _shared_buffer]; by rewrite L1).
    destruct (run_all_frame ops h1 w2 A1) as (_ & _ & _ & Ht & _).
    unfold block, tensor_bytes. cbn [_shared_buffer]. rewrite Ht; [done|].
    cbn [h1 _shared_buffer]. congruence.
Qed.

Lemma separate_handles_do_not_interfere_witness :
  ∃ h1 w1 h2 w2,
    Start.built = (Ok h1, w1)
    ∧ __init__ Demo.two Demo.ten false Demo.two [] w1 = (Ok h2, w2)
    ∧ _shared_buffer h1 ≠ _shared_buffer h2
    ∧ block h1 (snd (run_all [OpSetWeight Demo.ten; OpSetStage AveragingStage.FINISHED] h2 w2))
      = block h1 w2.
Proof.
  set (h1 := mkStepControl 0 [] Demo.ten true None 0 None).
  set (w1 := snd Start.built).
  set (h2 := mkStepControl 1 [] Demo.ten false None 1 None).
  set (w2 := snd (__init__ Demo.two Demo.ten false Demo.two [] w1)).
  assert (E1 : __init__ Demo.one Demo.ten true Demo.one [] Start.world = (Ok h1, w1))
    by (vm_compute; reflexivity).
  assert (E2 : __init__ Demo.two Demo.ten false Demo.two [] w1 = (Ok h2, w2))
    by (vm_compute; reflexivity).
  destruct (separate_handles_do_not_interfere _ _ _ _ _ _ _ _ _ _ _ _ _ _ _ E1 E2)
    as (N & _ & _ & H & _).
  exists h1, w1, h2, w2.
  split; [exact E1|]. split; [exact E2|]. split; [exact N|apply H].
Defined.

(** * The timeout at the deadline *)

(** X12: for a finite deadline and a finite clock, [get_timeout()]
    returns 0.0 exactly when the deadline has passed ([deadline <= now]);
    before the deadline the result is strictly positive, however close the
    clock is to the deadline, since the difference of two binary64 numbers
    does not round to zero.  With an infinite deadline and a finite clock
    the timeout is infinite. *)
Theorem get_timeout_is_zero_once_deadline_passed self w :
  Binary64.is_valid (deadline self) = true →
  Binary64.is_valid (dht_time w) = true →
  Binary64.isfinite (dht_time w) = true →
  (Binary64.isfinite (deadline self) = true →
     (fst (get_timeout self w) = Ok Binary64.zero
        ↔ Binary64.le (deadline self) (dht_time w) = true)
     ∧ (Binary64.le (deadline self) (dht_time w) = false →
        ∃ r, fst (get_timeout self w) = Ok r ∧ Binary64.gt r Binary64.zero = true))
  ∧ (deadline self = S754_infinity false →
     fst (get_timeout self w) = Ok (S754_infinity false)).
Proof.
  intros Vd Vt Ft.
  assert (H : get_timeout self w =
          (Ok (Binary64.max Binary64.zero (Binary64.sub (deadline self) (dht_time w))), w))
    by reflexivity.
  rewrite H. cbn [fst]. split.
  - intros Fd. rewrite TimeoutFacts.max_zero_sub by assumption.
    pose proof (OrderFacts.le_scaled _ _ Vd Vt Fd Ft) as Hle.
    set (d := Exact.scaled (deadline self) - Exact.scaled (dht_time w)) in *.
    assert (Hpos : 0 < d → ∃ r, Exact.timeout_of d = r
                                ∧ Binary64.gt r Binary64.zero = true
                                ∧ r ≠ Binary64.zero).
    { intros Hd. unfold Exact.timeout_of.
      destruct (Z.ltb_spec 0 d) as [_|]; [|lia].
      destruct (MonotoneFacts.round_cases d Hd) as [[-> _]|(p & e & -> & _)];
        eexists; (split; [reflexivity|]); split; done. }
    split.
    + split.
      * intros [= E]. apply Hle. destruct (Z.le_gt_cases d 0) as [|Hd]; [lia|].
        destruct (Hpos Hd) as (r & Hr & _ & Hz). congruence.
      * intros Hl. apply Hle in Hl.
        by rewrite TimeoutFacts.timeout_of_nonpos by lia.
    + intros Hl. assert (Hd : 0 < d).
      { destruct (Z.le_gt_cases d 0) as [Hd|Hd]; [|lia].
        assert (Binary64.le (deadline self) (dht_time w) = true) by (apply Hle; lia).
        congruence. }
      destruct (Hpos Hd) as (r & Hr & Hg & _). exists r. by rewrite Hr.
  - intros ->. by destruct (dht_time w) as [[]| | |[]].
Qed.

Lemma get_timeout_is_zero_once_deadline_passed_witness :
  fst (get_timeout Demo.handle (Clock.at_time Demo.ten)) = Ok Binary64.zero.
Proof.
  destruct (get_timeout_is_zero_once_deadline_passed Demo.handle (Clock.at_time Demo.ten)
              eq_refl eq_refl eq_refl) as (H & _).
  destruct (H eq_refl) as ((_ & H1) & _). by apply H1.
Defined.

(** * Pickling *)

(** X13: [__setstate__] reads the base fields first and then the keys
    [_trigger], [_shared_buffer] and [immutable_params], in that order: a
    failure of the base class is raised as it is, otherwise the first of the
    three keys that the dictionary lacks is reported with [KeyError], and
    an [immutable_params] tuple that does not have exactly three items
    raises [ValueError]. *)
Theorem setstate_reports_the_first_missing_key
    (base_setstate : gmap string PyVal → outcome nat) (state : gmap string PyVal) :
  (∀ e, base_setstate state = Raise e → __setstate__ base_setstate state = Raise e)
  ∧ (∀ uid, base_setstate state = Ok uid →
       (state !! "_trigger" = None →
          __setstate__ base_setstate state = Raise (KeyError "_trigger"))
       ∧ (is_Some (state !! "_trigger") → state !! "_shared_buffer" = None →
          __setstate__ base_setstate state = Raise (KeyError "_shared_buffer"))
       ∧ (is_Some (state !! "_trigger") → is_Some (state !! "_shared_buffer") →
          state !! "immutable_params" = None →
          __setstate__ base_setstate state = Raise (KeyError "immutable_params"))
       ∧ (is_Some (state !! "_trigger") → is_Some (state !! "_shared_buffer") →
          ∀ items, state !! "immutable_params" = Some (PyTuple items) →
          length items ≠ 3%nat →
          __setstate__ base_setstate state = Raise ValueError)).
Proof.
  unfold __setstate__, getitem. split.
  - intros e ->. reflexivity.
  - intros uid ->. cbn [outcome_bind]. split; [|split; [|split]].
    + intros ->. reflexivity.
    + intros [t ->] ->. reflexivity.
    + intros [t ->] [b ->] ->. reflexivity.
    + intros [t ->] [b ->] items -> Hl. cbn [outcome_bind].
      destruct items as [|gb [|dl [|ar [|]]]]; cbn in Hl; try lia; reflexivity.
Qed.

Lemma setstate_reports_the_first_missing_key_witness :
  __setstate__ Demo.base_setstate
    (<["immutable_params" := PyTuple []]> (Demo.base_getstate 0)) = Raise (KeyError "_trigger")
  ∧ __setstate__ Demo.base_setstate
    (<["_trigger" := PyNone]> (Demo.base_getstate 0)) = Raise (KeyError "_shared_buffer").
Proof.
  split.
  - destruct (setstate_reports_the_first_missing_key Demo.base_setstate
                (<["immutable_params" := PyTuple []]> (Demo.base_getstate 0))) as (_ & H).
    destruct (H 0%nat eq_refl) as (H1 & _). by apply H1.
  - destruct (setstate_reports_the_first_missing_key Demo.base_setstate
                (<["_trigger" := PyNone]> (Demo.base_getstate 0))) as (_ & H).
    destruct (H 0%nat eq_refl) as (_ & H2 & _). apply H2; [by eexists|reflexivity].
Defined.

(** X14: the flag [can_modify] is not part of the pickled state.  The
    state dictionary is the same whatever the flag, so a handle restored
    from it has no [can_modify] attribute even when the original had it set
    to false by the stage setter, and is otherwise the original; pickling
    the restored handle gives the same dictionary again. *)
Theorem frozen_flag_is_not_pickled
    (base_getstate : nat → gmap string PyVal)
    (base_setstate : gmap string PyVal → outcome nat)
    (base_keys : ∀ uid,
       base_getstate uid !! "_trigger" = None
       ∧ base_getstate uid !! "_shared_buffer" = None
       ∧ base_getstate uid !! "immutable_params" = None)
    (base_roundtrip : ∀ uid state,
       base_getstate uid ⊆ state → base_setstate state = Ok uid)
    (self : StepControl) :
  (∀ c, __getstate__ base_getstate (with_can_modify c self) = __getstate__ base_getstate self)
  ∧ __setstate__ base_setstate (__getstate__ base_getstate self) = Ok (with_can_modify None self)
  ∧ (∀ w self' w',
       set_stage AveragingStage.RUNNING_ALLREDUCE self w = (Ok self', w') →
       can_modify self' = Some false
       ∧ ∃ restored,
           __setstate__ base_setstate (__getstate__ base_getstate self') = Ok restored
           ∧ can_modify restored = None
           ∧ __getstate__ base_getstate restored = __getstate__ base_getstate self').
Proof.
  split; [reflexivity|].
  split; [by apply setstate_getstate|].
  intros w self' w' E.
  assert (Es : self' = with_can_modify (Some false) self).
  { exact (run_object (OpSetStage AveragingStage.RUNNING_ALLREDUCE) _ _ _ _ E). }
  subst self'. split; [reflexivity|].
  exists (with_can_modify None (with_can_modify (Some false) self)).
  split; [by apply setstate_getstate|]. split; reflexivity.
Qed.

Lemma frozen_flag_is_not_pickled_witness :
  ∃ restored,
    __setstate__ Demo.base_setstate
      (__getstate__ Demo.base_getstate (with_can_modify (Some false) Demo.wired)) = Ok restored
    ∧ can_modify restored = None.
Proof.
  destruct (frozen_flag_is_not_pickled Demo.base_getstate Demo.base_setstate
              demo_base_keys demo_base_roundtrip
              (with_can_modify (Some false) Demo.wired)) as (_ & H & _).
  eexists. split; [exact H|reflexivity].
Defined.



(** * The gradient scaler *)

Module GradScalerFacts.
Import GradScaler.

(** ** Dictionaries *)

Lemma dict_get_set_eq {V} k (v : V) d : dict_get k (dict_set k v d) = Some v.
Proof.
  induction d as [|[k' v'] d IH]; cbn.
  - by rewrite Nat.eqb_refl.
  - destruct (Nat.eqb k k') eqn:E; cbn; rewrite ?Nat.eqb_refl, ?E; done.
Qed.

Lemma dict_get_set_ne {V} k k' (v : V) d :
  k ≠ k' → dict_get k' (dict_set k v d) = dict_get k' d.
Proof.
  intros Hk. induction d as [|[k0 v0] d IH]; cbn.
  - destruct (Nat.eqb_spec k' k); [congruence|done].
  - destruct (Nat.eqb_spec k k0) as [->|]; cbn.
    + destruct (Nat.eqb_spec k' k0); [congruence|done].
    + destruct (Nat.eqb_spec k' k0); [done|exact IH].
Qed.

Lemma dict_get_set {V} k k' (v : V) d :
  dict_get k' (dict_set k v d) = if Nat.eqb k' k then Some v else dict_get k' d.
Proof.
  destruct (Nat.eqb_spec k' k) as [->|Hn].
  - apply dict_get_set_eq.
  - apply dict_get_set_ne. congruence.
Qed.

Section Facts.
Context `{TorchGradScaler}.

(** ** Sequencing *)

Lemma bind_returned {A B} (m : G A) (f : A → G B) s a s' :
  m s = (Returned a, s') → (m ≫= f) s = f a s'.
Proof. intros E. unfold mbind, G_bind, bind. by rewrite E. Qed.

Lemma bind_raised {A B} (m : G A) (f : A → G B) s e s' :
  m s = (Raised e, s') → (m ≫= f) s = (Raised e, s').
Proof. intros E. unfold mbind, G_bind, bind. by rewrite E. Qed.

Lemma bind_inv {A B} (m : G A) (f : A → G B) s b s' :
  (m ≫= f) s = (Returned b, s') →
  ∃ a s1, m s = (Returned a, s1) ∧ f a s1 = (Returned b, s').
Proof.
  unfold mbind, G_bind, bind. destruct (m s) as [[a|e] s1]; [eauto|discriminate].
Qed.

Lemma bind_get {A B} (field : t → A) (f : A → G B) s :
  (get field ≫= f) s = f (field s) s.
Proof. reflexivity. Qed.

Lemma bind_put {B} (u : t → t) (f : unit → G B) s :
  (put u ≫= f) s = f () (u s).
Proof. reflexivity. Qed.

Lemma bind_assert {B} (c : bool) msg (f : unit → G B) s :
  (py_assert c msg ≫= f) s = if c then f () s else (Raised (AssertionError msg), s).
Proof. by destruct c. Qed.

(** ** The refresh loop of [update] *)

Lemma refresh_all_eq opt_ids s :
  refresh_all opt_ids s =
    (Returned (),
     with_states
       (fold_left (λ d k, dict_set k _refresh_per_optimizer_state d) opt_ids
          (_per_optimizer_states s)) s).
Proof.
  revert s. induction opt_ids as [|k l IH]; intros s; [by destruct s|].
  cbn [refresh_all fold_left].
  erewrite bind_returned; [|reflexivity]. rewrite IH. reflexivity.
Qed.

Lemma dict_get_refreshed k opt_ids (d : Dict OptimizerState) :
  dict_get k (fold_left (λ d k, dict_set k _refresh_per_optimizer_state d) opt_ids d) =
    if existsb (Nat.eqb k) opt_ids then Some _refresh_per_optimizer_state else dict_get k d.
Proof.
  revert d. induction opt_ids as [|k0 l IH]; intros d; [reflexivity|].
  cbn [fold_left existsb]. rewrite IH, dict_get_set.
  destruct (Nat.eqb k k0); cbn [orb]; [|reflexivity].
  by destruct (existsb _ l).
Qed.

End Facts.

(** ** The methods *)

(** X16: [running_global_step] runs its body with the flag
    [_is_running_global_step] set and puts the flag back to what it was
    before, whether the body returns or raises and whatever the body did to
    the flag; the outcome is the body's.  Entering the block again inside
    the block changes nothing. *)
Theorem running_global_step_restores_the_flag `{TorchTypes} {A} (body : G A) (s : t) :
  fst (running_global_step body s) = fst (body (with_running true s))
  ∧ snd (running_global_step body s) =
      with_running (_is_running_global_step s) (snd (body (with_running true s)))
  ∧ _is_running_global_step (snd (running_global_step body s)) = _is_running_global_step s
  ∧ running_global_step (running_global_step body) s = running_global_step body s.
Proof.
  assert (E : ∀ s0, running_global_step body s0 =
                (fst (body (with_running true s0)),
                 with_running (_is_running_global_step s0) (snd (body (with_running true s0))))).
  { intros s0. unfold running_global_step. by destruct (body _). }
  split; [by rewrite E|]. split; [by rewrite E|]. split; [by rewrite E|].
  unfold running_global_step at 1. rewrite E. cbn [fst snd].
  replace (with_running true (with_running true s)) with (with_running true s)
    by reflexivity.
  rewrite E. reflexivity.
Qed.

(** X17: [update] never leaves [_is_ready_to_update] set.  When it
    returns, the flag is false; it has returned True exactly when the flag
    was set or the inf flags of the optimizers do not add up to zero, and
    only then has it passed through the update of the base class.  When it
    returns False, every optimizer marked for reset has a fresh state, the
    states of the others are as they were, nothing is marked any more, and
    nothing else has changed. *)
Theorem update_clears_the_ready_flag `{TorchGradScaler} new_scale (s : t) b s' :
  update new_scale s = (Returned b, s') →
  _is_ready_to_update s' = false
  ∧ b = _is_ready_to_update s || negb (is_zero (total_infs (_per_optimizer_states s)))
  ∧ (b = true → ∃ s1, super_update new_scale s = (Returned (), s1) ∧ s' = with_ready false s1)
  ∧ (b = false →
       _optimizer_states_to_reset s' = []
       ∧ (∀ k, dict_get k (_per_optimizer_states s') =
               if existsb (Nat.eqb k) (_optimizer_states_to_reset s)
               then Some _refresh_per_optimizer_state
               else dict_get k (_per_optimizer_states s))
       ∧ torch s' = torch s
       ∧ _is_running_global_step s' = _is_running_global_step s
       ∧ logged s' = logged s).
Proof.
  unfold update. rewrite !bind_get.
  destruct (_is_ready_to_update s || negb (is_zero (total_infs (_per_optimizer_states s))))
    eqn:C.
  - intros E. apply bind_inv in E as ([] & s1 & E1 & E2).
    injection E2 as <- <-.
    split; [reflexivity|]. split; [reflexivity|]. split; [eauto|discriminate].
  - rewrite bind_get.
    rewrite (bind_returned _ _ _ _ _ (refresh_all_eq _ s)).
    intros [= <- <-].
    apply orb_false_iff in C as [C _].
    split; [exact C|]. split; [reflexivity|]. split; [discriminate|]. intros _.
    split; [reflexivity|]. split; [|done].
    intros k. apply dict_get_refreshed.
Qed.

(** X18: [step] has two modes.  Outside a global step it accepts only a
    hivemind optimizer, runs the step of the base class without the extra
    arguments it was given, marks the optimizer for reset and returns
    False.  Inside a global step it refuses a hivemind optimizer and an
    optimizer whose state is not [UNSCALED], each with [AssertionError];
    when it returns it has set [_is_ready_to_update] and returns True. *)
Theorem step_marks_or_readies `{TorchGradScaler} optimizer args (s : t) :
  (_is_running_global_step s = false →
     step optimizer args s = step optimizer no_args s
     ∧ (is_hivemind optimizer = false →
          step optimizer args s = (Raised (AssertionError no_message), s))
     ∧ (∀ b s', step optimizer args s = (Returned b, s') →
          b = false
          ∧ ∃ s1, super_step optimizer no_args s = (Returned (), s1)
                  ∧ s' = with_reset (set_add (oid optimizer) (_optimizer_states_to_reset s1)) s1))
  ∧ (_is_running_global_step s = true →
     (is_hivemind optimizer = true →
        fst (step optimizer args s) = Raised (AssertionError no_message))
     ∧ (∀ st, is_hivemind optimizer = false →
          dict_get (oid optimizer) (_per_optimizer_states s) = Some st →
          stage st ≠ OptState.UNSCALED →
          ∃ msg, fst (step optimizer args s) = Raised (AssertionError msg) ∧ msg ≠ no_message)
     ∧ (∀ b s', step optimizer args s = (Returned b, s') →
          b = true ∧ _is_ready_to_update s' = true)).
Proof.
  split; intros R.
  - assert (EL : ∀ a, step optimizer a s =
               (py_assert (is_hivemind optimizer) no_message;;
                super_step optimizer no_args;;
                reset_add (oid optimizer);;
                mret false) s).
    { intros a. unfold step. rewrite bind_get. cbv beta. by rewrite R. }
    rewrite !EL. split; [reflexivity|]. split.
    + intros ->. reflexivity.
    + intros b s'. rewrite bind_assert.
      destruct (is_hivemind optimizer); [|discriminate].
      intros E. apply bind_inv in E as ([] & s1 & E1 & E2).
      injection E2 as <- <-. eauto.
  - unfold step. rewrite bind_get. cbv beta. rewrite R. cbv beta iota.
    rewrite bind_get. cbv beta.
    set (s0 := snd (when (_is_ready_to_update s)
                      (logger_warning "Please call grad_scaler.update() after each step") s)).
    assert (E0 : when (_is_ready_to_update s)
                   (logger_warning "Please call grad_scaler.update() after each step") s
                 = (Returned (), s0)) by (unfold s0; by destruct (_is_ready_to_update s)).
    rewrite (bind_returned _ _ _ _ _ E0), bind_assert.
    split; [intros ->; reflexivity|]. split.
    + intros st -> Hst Hne. cbn [negb].
      assert (Es : states_getitem (oid optimizer) s0 = (Returned st, s0)).
      { unfold states_getitem.
        replace (_per_optimizer_states s0) with (_per_optimizer_states s)
          by (unfold s0; by destruct (_is_ready_to_update s)).
        by rewrite Hst. }
      rewrite (bind_returned _ _ _ _ _ Es), bind_assert.
      destruct (stage st); try done; eexists; split; reflexivity || done.
    + intros b s'. destruct (is_hivemind optimizer); [discriminate|]. cbn [negb].
      intros E. apply bind_inv in E as (st & s1 & _ & E).
      rewrite bind_assert in E.
      destruct (OptState.eqb (stage st) OptState.UNSCALED); [|discriminate].
      apply bind_inv in E as (finite & s2 & _ & E).
      apply bind_inv in E as ([] & s3 & _ & E).
      injection E as <- <-. done.
Qed.

(** X19: [unscale_] accepts only a hivemind optimizer and returns
    whether a global step is running.  In a global step it runs the
    unscaling of the base class and then copies the state of the optimizer
    to the optimizer it wraps, so that both have the same state afterwards
    and no other entry, flag or mark is touched by the copy.  Outside a
    global step it only records the inf check and marks the optimizer for
    reset. *)
Theorem unscale_copies_the_state_to_the_inner_optimizer `{TorchGradScaler} optimizer (s : t) :
  (is_hivemind optimizer = false →
     unscale_ optimizer s = (Raised (AssertionError no_message), s))
  ∧ (∀ b s', unscale_ optimizer s = (Returned b, s') →
       b = _is_running_global_step s
       ∧ (b = true →
            ∃ st s1,
              super_unscale_ optimizer s = (Returned (), s1)
              ∧ dict_get (opt optimizer) (_per_optimizer_states s') = Some st
              ∧ dict_get (oid optimizer) (_per_optimizer_states s') = Some st
              ∧ st = default _refresh_per_optimizer_state
                       (dict_get (oid optimizer) (_per_optimizer_states s1))
              ∧ (∀ k, k ≠ opt optimizer → k ≠ oid optimizer →
                   dict_get k (_per_optimizer_states s')
                   = dict_get k (_per_optimizer_states s1))
              ∧ s' = with_states (_per_optimizer_states s') s1)
       ∧ (b = false →
            ∃ found s1,
              _check_inf_per_device optimizer s = (Returned found, s1)
              ∧ s' = with_reset (set_add (oid optimizer) (_optimizer_states_to_reset s1)) s1)).
Proof.
  unfold unscale_. rewrite bind_assert. split; [by intros ->|].
  intros b s'. destruct (is_hivemind optimizer); [|discriminate].
  rewrite bind_get. destruct (_is_running_global_step s).
  - intros E. apply bind_inv in E as ([] & s1 & E1 & E).
    apply bind_inv in E as (st & s2 & E2 & E).
    injection E as <- <-.
    split; [reflexivity|]. split; [|discriminate]. intros _.
    exists st, s1. split; [exact E1|].
    unfold states_getitem in E2.
    destruct (dict_get (oid optimizer) (_per_optimizer_states s1)) as [st1|] eqn:L;
      injection E2 as <- <-; cbn [default with_states _per_optimizer_states].
    + split; [apply dict_get_set_eq|]. split.
      { rewrite dict_get_set. by destruct (Nat.eqb _ _). }
      split; [reflexivity|]. split; [|reflexivity].
      intros k Hk _. by rewrite dict_get_set_ne by congruence.
    + split; [apply dict_get_set_eq|]. split.
      { rewrite dict_get_set. destruct (Nat.eqb _ _); [done|apply dict_get_set_eq]. }
      split; [reflexivity|]. split; [|reflexivity].
      intros k Hk Hk'. by rewrite !dict_get_set_ne by congruence.
  - intros E. apply bind_inv in E as (found & s1 & E1 & E).
    injection E as <- <-.
    split; [reflexivity|]. split; [discriminate|]. eauto.
Qed.

(** X20: what a local step marks, the next idle [update] resets.  After
    [unscale_] or [step] has returned False for an optimizer, an [update]
    that returns False leaves that optimizer with a fresh state, nothing
    marked and [_is_ready_to_update] false, provided [set.add] does add. *)
Theorem update_resets_what_local_steps_marked `{TorchGradScaler}
    optimizer new_scale (s s1 s2 : t) :
  (∀ k members, k ∈ set_add k members) →
  unscale_ optimizer s = (Returned false, s1)
    ∨ (∃ args, step optimizer args s = (Returned false, s1)) →
  update new_scale s1 = (Returned false, s2) →
  dict_get (oid optimizer) (_per_optimizer_states s2) = Some _refresh_per_optimizer_state
  ∧ _optimizer_states_to_reset s2 = []
  ∧ _is_ready_to_update s2 = false.
Proof.
  intros Hadd Hlocal Hupd.
  assert (Hm : existsb (Nat.eqb (oid optimizer)) (_optimizer_states_to_reset s1) = true).
  { assert (∃ s0, s1 = with_reset (set_add (oid optimizer) (_optimizer_states_to_reset s0)) s0)
      as [s0 ->].
    { destruct Hlocal as [E|[args E]].
      - unfold unscale_ in E. rewrite bind_assert in E.
        destruct (is_hivemind optimizer); [|discriminate].
        rewrite bind_get in E. destruct (_is_running_global_step s).
        + apply bind_inv in E as ([] & s3 & _ & E).
          apply bind_inv in E as (st & s4 & _ & E). discriminate.
        + apply bind_inv in E as (found & s3 & _ & E).
          injection E as <-. eauto.
      - unfold step in E. rewrite bind_get in E. cbv beta in E.
        destruct (_is_running_global_step s).
        + rewrite bind_get in E. cbv beta in E.
          apply bind_inv in E as ([] & s3 & _ & E). rewrite bind_assert in E.
          destruct (negb _); [|discriminate].
          apply bind_inv in E as (st & s4 & _ & E). rewrite bind_assert in E.
          destruct (OptState.eqb _ _); [|discriminate].
          apply bind_inv in E as (finite & s5 & _ & E).
          apply bind_inv in E as ([] & s6 & _ & E). discriminate.
        + rewrite bind_assert in E. destruct (is_hivemind optimizer); [|discriminate].
          apply bind_inv in E as ([] & s3 & _ & E).
          injection E as <-. eauto. }
    cbn [with_reset _optimizer_states_to_reset].
    apply existsb_exists. exists (oid optimizer).
    split; [apply list_elem_of_In, Hadd|apply Nat.eqb_refl]. }
  unfold update in Hupd. rewrite !bind_get in Hupd.
  destruct (_is_ready_to_update s1 || _) eqn:C.
  - apply bind_inv in Hupd as ([] & s3 & _ & E). discriminate.
  - rewrite bind_get, (bind_returned _ _ _ _ _ (refresh_all_eq _ s1)) in Hupd.
    injection Hupd as <-. apply orb_false_iff in C as [C _].
    split; [|split; [reflexivity|exact C]].
    cbn [with_reset with_states _per_optimizer_states].
    by rewrite dict_get_refreshed, Hm.
Qed.

(** X21: a step inside a global-step block is always followed by a real
    update.  When [step] returns from within [running_global_step] it has
    returned True for an optimizer that is not a hivemind one, the running
    flag is back to what it was and [_is_ready_to_update] is set; the next
    [update] that returns has then gone through the update of the base
    class, returns True and clears the flag. *)
Theorem global_step_is_followed_by_an_update `{TorchGradScaler} optimizer args (s : t) b s' :
  running_global_step (step optimizer args) s = (Returned b, s') →
  b = true
  ∧ is_hivemind optimizer = false
  ∧ _is_running_global_step s' = _is_running_global_step s
  ∧ _is_ready_to_update s' = true
  ∧ ∀ new_scale b' s'', update new_scale s' = (Returned b', s'') →
      b' = true
      ∧ _is_ready_to_update s'' = false
      ∧ ∃ s1, super_update new_scale s' = (Returned (), s1).
Proof.
  unfold running_global_step.
  destruct (step optimizer args (with_running true s)) as [r s1] eqn:E.
  intros [= -> <-].
  assert (Hb : b = true ∧ is_hivemind optimizer = false ∧ _is_ready_to_update s1 = true).
  { unfold step in E. rewrite bind_get in E. cbv beta in E.
    cbn [with_running _is_running_global_step] in E.
    rewrite bind_get in E. cbv beta in E.
    apply bind_inv in E as ([] & s2 & _ & E). rewrite bind_assert in E.
    destruct (is_hivemind optimizer); [discriminate|]. cbn [negb] in E.
    apply bind_inv in E as (st & s3 & _ & E). rewrite bind_assert in E.
    destruct (OptState.eqb _ _); [|discriminate].
    apply bind_inv in E as (finite & s4 & _ & E).
    apply bind_inv in E as ([] & s5 & _ & E).
    injection E as <- <-. done. }
  destruct Hb as (-> & Hh & Hr).
  split; [reflexivity|]. split; [exact Hh|]. split; [reflexivity|]. split; [exact Hr|].
  intros new_scale b' s'' U. unfold update in U. rewrite !bind_get in U.
  cbn [with_running _is_ready_to_update] in U. rewrite Hr in U. cbn [orb] in U.
  apply bind_inv in U as ([] & s2 & U1 & U2). injection U2 as <- <-.
  split; [reflexivity|]. split; [reflexivity|]. eauto.
Qed.

(** ** The statements on the stand-in *)

Lemma demo_set_add_adds k members : k ∈ set_add (TorchGradScaler := GradScalerDemo.base) k members.
Proof.
  cbn. destruct (existsb (Nat.eqb k) members) eqn:E.
  - apply existsb_exists in E as (x & Hx & Hk).
    apply Nat.eqb_eq in Hk as ->. by apply list_elem_of_In.
  - apply elem_of_app. right. by apply list_elem_of_singleton.
Qed.

Lemma update_clears_the_ready_flag_witness :
  fst (update (H0 := GradScalerDemo.base) None GradScalerDemo.marked) = Returned false
  ∧ _optimizer_states_to_reset GradScalerDemo.marked = [7%nat]
  ∧ _optimizer_states_to_reset
      (snd (update (H0 := GradScalerDemo.base) None GradScalerDemo.marked)) = []
  ∧ _is_ready_to_update
      (snd (update (H0 := GradScalerDemo.base) None GradScalerDemo.marked)) = false.
Proof.
  assert (E : update (H0 := GradScalerDemo.base) None GradScalerDemo.marked
              = (Returned false, snd (update (H0 := GradScalerDemo.base) None GradScalerDemo.marked)))
    by reflexivity.
  destruct (update_clears_the_ready_flag (H0 := GradScalerDemo.base) None
              GradScalerDemo.marked false _ E) as (Hr & _ & _ & Hf).
  destruct (Hf eq_refl) as (Hm & _).
  split; [reflexivity|]. split; [reflexivity|]. split; [exact Hm|exact Hr].
Defined.

Lemma step_marks_or_readies_witness :
  step (H0 := GradScalerDemo.base) GradScalerDemo.outer true GradScalerDemo.scaler
  = step (H0 := GradScalerDemo.base) GradScalerDemo.outer false GradScalerDemo.scaler.
Proof.
  destruct (step_marks_or_readies (H0 := GradScalerDemo.base) GradScalerDemo.outer true
              GradScalerDemo.scaler) as (H & _).
  destruct (H eq_refl) as (E & _). exact E.
Defined.

Lemma unscale_copies_the_state_to_the_inner_optimizer_witness :
  ∃ st, dict_get 8 (_per_optimizer_states GradScalerDemo.unscaled) = Some st
        ∧ dict_get 7 (_per_optimizer_states GradScalerDemo.unscaled) = Some st
        ∧ stage st = OptState.UNSCALED.
Proof.
  destruct (unscale_copies_the_state_to_the_inner_optimizer (H0 := GradScalerDemo.base)
              GradScalerDemo.outer (with_running true GradScalerDemo.scaler)) as (_ & H).
  destruct (H true (snd (unscale_ (H0 := GradScalerDemo.base) GradScalerDemo.outer
                           (with_running true GradScalerDemo.scaler))) eq_refl)
    as (_ & H1 & _).
  destruct (H1 eq_refl) as (st & s1 & _ & E1 & E2 & _).
  exists st. split; [exact E1|]. split; [exact E2|].
  cbv in E1. by injection E1 as <-.
Defined.

Lemma update_resets_what_local_steps_marked_witness :
  dict_get 7 (_per_optimizer_states
                (snd (update (H0 := GradScalerDemo.base) None GradScalerDemo.marked)))
  = Some GradScalerDemo.fresh_state.
Proof.
  destruct (update_resets_what_local_steps_marked (H0 := GradScalerDemo.base)
              GradScalerDemo.outer None GradScalerDemo.scaler GradScalerDemo.marked
              (snd (update (H0 := GradScalerDemo.base) None GradScalerDemo.marked))
              demo_set_add_adds (or_introl eq_refl) eq_refl) as (E & _).
  exact E.
Defined.

Lemma global_step_is_followed_by_an_update_witness :
  ∃ s', running_global_step (step (H0 := GradScalerDemo.base) GradScalerDemo.inner true)
          GradScalerDemo.unscaled = (Returned true, s')
        ∧ torch s' = [(8%nat, true)]
        ∧ fst (update (H0 := GradScalerDemo.base) None s') = Returned true.
Proof.
  eexists. split; [reflexivity|]. split; [reflexivity|].
  destruct (global_step_is_followed_by_an_update (H0 := GradScalerDemo.base)
              GradScalerDemo.inner true GradScalerDemo.unscaled true _ eq_refl)
    as (_ & _ & _ & _ & U).
  destruct (update (H0 := GradScalerDemo.base) None _) as [[b'|e] s''] eqn:E.
  - destruct (U None b' s'' E) as (-> & _). reflexivity.
  - discriminate E.
Defined.

End GradScalerFacts.
